(** * Task Glitch: the analytics functions and the in-memory task store

    A shallow embedding of [src/utils/logic.ts] (derived metrics, ranking,
    weekly throughput, velocity) and of the mutation handlers of
    [src/hooks/useTasks.ts] (normalisation, add, update, delete, undo),
    followed by the properties stated about them.

    Conventions of the embedding.
    - A JavaScript [number] is an IEEE-754 binary64 value: Rocq's primitive
      [float].  [NaN], the infinities and the signed zeros are the kernel's.
    - A [Date] is its time value: [Some t] with [t] in milliseconds since
      the epoch, or [None] for an invalid date.  [Date.parse] reads the
      date-time string format of ECMAScript; the time zone of the host and
      what it makes of a string outside the format belong to the class
      [Host].
    - The React state of the hook is a record; a handler is a function from
      state to state, with the clock reading and the fresh identifier it
      draws passed in as arguments.
    - [Array.prototype.sort] belongs to the class [Engine]: its result is
      a permutation of the array, and the stable sorted one when the
      comparator is consistent; ECMAScript leaves the order to the engine
      otherwise.  A stable insertion sort is the instance used for
      evaluation.
    - [String.prototype.localeCompare] depends on the host's collation: it
      is a member of the [Collator] class, with the ordering of code points
      as the instance used for evaluation. *)

From Stdlib Require Import ZArith List String Ascii Bool Floats Lia.
From Stdlib Require Import Permutation Sorted.
Import ListNotations.
Open Scope string_scope.
Open Scope Z_scope.

(* ================================================================== *)
(** * JavaScript numbers *)
(* ================================================================== *)

Module JsNum.

(** The number nearest to an integer (round to nearest, ties to even), as
    in the conversion of an integer literal or of a time value. *)
Definition Z2float (z : Z) : float :=
  SF2Prim (binary_normalize prec emax z 0 false).

Definition isNaN (x : float) : bool := negb (PrimFloat.eqb x x).

(** [Number.isFinite]: neither [NaN] nor an infinity. *)
Definition Number_isFinite (x : float) : bool :=
  PrimFloat.ltb neg_infinity x && PrimFloat.ltb x infinity.

(** [Math.round]: the integer nearest to [x], ties towards [+Infinity];
    computed exactly on the binary expansion [m * 2^e] of [x].  A result
    that is zero keeps the sign of [x]. *)
Definition Math_round (x : float) : float :=
  match Prim2SF x with
  | S754_finite s m e =>
      if 0 <=? e then x
      else
        let v := if s then Z.neg m else Z.pos m in
        let r := (2 * v + 2 ^ (- e)) / 2 ^ (1 - e) in
        if r =? 0 then (if s then neg_zero else zero) else Z2float r
  | _ => x
  end.

(** [Math.max] of two numbers: [NaN] if either is, and [+0] above [-0]. *)
Definition Math_max (a b : float) : float :=
  if isNaN a || isNaN b then nan
  else if PrimFloat.ltb a b then b
  else if PrimFloat.ltb b a then a
  else if get_sign a then b else a.

(** The truncation of an integral number to [Z] (0 for the others). *)
Definition float2Z (x : float) : Z :=
  match Prim2SF x with
  | S754_finite s m e =>
      let v := if 0 <=? e then Z.pos m * 2 ^ e else Z.pos m / 2 ^ (- e) in
      if s then - v else v
  | _ => 0
  end.

(** What the engine makes of a comparator's result: negative, positive,
    or neither ([NaN] and both zeros count as zero). *)
Definition jsSign (v : float) : comparison :=
  if PrimFloat.ltb v zero then Lt
  else if PrimFloat.ltb zero v then Gt
  else Eq.

End JsNum.

(* ================================================================== *)
(** * JavaScript strings and dates *)
(* ================================================================== *)

Module JsDate.

Definition msPerDay : Z := 86400000.

Definition Day (t : Z) : Z := t / msPerDay.
Definition TimeWithinDay (t : Z) : Z := t mod msPerDay.

(** Year, month (1 to 12) and day of the month of a day number, in the
    proleptic Gregorian calendar. *)
Definition civil_from_days (z0 : Z) : Z * Z * Z :=
  let z := z0 + 719468 in
  let era := z / 146097 in
  let doe := z - era * 146097 in
  let yoe := (doe - doe / 1460 + doe / 36524 - doe / 146096) / 365 in
  let doy := doe - (365 * yoe + yoe / 4 - yoe / 100) in
  let mp := (5 * doy + 2) / 153 in
  let d := doy - (153 * mp + 2) / 5 + 1 in
  let m := if mp <? 10 then mp + 3 else mp - 9 in
  let y := yoe + era * 400 in
  ((if m <=? 2 then y + 1 else y), m, d).

(** The day number of a year, a month (1 to 12) and a day of the month;
    the day may lie outside the month, as [MakeDay] allows. *)
Definition days_from_civil (y0 m d : Z) : Z :=
  let y := if m <=? 2 then y0 - 1 else y0 in
  let era := y / 400 in
  let yoe := y - era * 400 in
  let doy := (153 * (if 2 <? m then m - 3 else m + 9) + 2) / 5 + d - 1 in
  let doe := yoe * 365 + yoe / 4 - yoe / 100 + doy in
  era * 146097 + doe - 719468.

Definition getUTCFullYear (t : Z) : Z := fst (fst (civil_from_days (Day t))).
(** Months count from 0. *)
Definition getUTCMonth (t : Z) : Z := snd (fst (civil_from_days (Day t))) - 1.
Definition getUTCDate (t : Z) : Z := snd (civil_from_days (Day t)).
(** 0 is Sunday; 1 January 1970 was a Thursday. *)
Definition getUTCDay (t : Z) : Z := (Day t + 4) mod 7.

(** [TimeClip]: a time value lies within 100 000 000 days of the epoch. *)
Definition TimeClip (t : Z) : option Z :=
  if Z.abs t <=? 8640000000000000 then Some t else None.

(** [MakeDay] on integral arguments: the month may overflow the year. *)
Definition MakeDay (year month date : Z) : Z :=
  days_from_civil (year + month / 12) (month mod 12 + 1) 1 + date - 1.

(** [Date.UTC(year, month, date)]; a year from 0 to 99 means 1900 + year. *)
Definition Date_UTC (year month date : Z) : option Z :=
  let y := if (0 <=? year) && (year <=? 99) then 1900 + year else year in
  TimeClip (MakeDay y month date * msPerDay).

(** [setUTCDate(date)] on a valid time value. *)
Definition setUTCDate (t date : Z) : option Z :=
  TimeClip (MakeDay (getUTCFullYear t) (getUTCMonth t) date * msPerDay
            + TimeWithinDay t).

(** ** Decimal digits *)

Definition digit (n : Z) : ascii := ascii_of_nat (48 + Z.to_nat (n mod 10)).

(** The [w] low decimal digits of a natural number, zero padded. *)
Fixpoint fixedDigits (w : nat) (n : Z) : string :=
  match w with
  | O => ""
  | S w' => fixedDigits w' (n / 10) ++ String (digit n) ""
  end.

Fixpoint digitsFuel (fuel : nat) (n : Z) : string :=
  match fuel with
  | O => ""
  | S f => if n <? 10 then String (digit n) ""
           else digitsFuel f (n / 10) ++ String (digit n) ""
  end.

(** [Number.prototype.toString] on an integer below [10^21]. *)
Definition Z_toString (n : Z) : string :=
  if n <? 0 then "-" ++ digitsFuel (S (Z.to_nat (Z.log2 (- n)))) (- n)
  else digitsFuel (S (Z.to_nat (Z.log2 n))) n.

Definition digitVal (c : ascii) : option Z :=
  let n := Z.of_nat (nat_of_ascii c) in
  if (48 <=? n) && (n <=? 57) then Some (n - 48) else None.

(** ** [toISOString] *)

(** [YYYY-MM-DDTHH:mm:ss.sssZ], with a sign and six digits for a year
    outside 0 to 9999. *)
Definition toISOString (t : Z) : string :=
  let y := getUTCFullYear t in
  let w := TimeWithinDay t in
  (if (0 <=? y) && (y <=? 9999) then fixedDigits 4 y
   else (if y <? 0 then "-" else "+") ++ fixedDigits 6 (Z.abs y))
  ++ "-" ++ fixedDigits 2 (getUTCMonth t + 1)
  ++ "-" ++ fixedDigits 2 (getUTCDate t)
  ++ "T" ++ fixedDigits 2 (w / 3600000)
  ++ ":" ++ fixedDigits 2 (w / 60000 mod 60)
  ++ ":" ++ fixedDigits 2 (w / 1000 mod 60)
  ++ "." ++ fixedDigits 3 (w mod 1000)
  ++ "Z".

(** ** The date-time string format *)

(** Parsing reads a value off the head of a string and returns it with
    the rest of the string, or fails. *)
Definition bind {A B : Type} (x : option A) (f : A -> option B) : option B :=
  match x with
  | Some a => f a
  | None => None
  end.

Notation "' p <- e ;; k" := (bind e (fun p => k))
  (at level 61, p pattern, e at next level, right associativity).

(** [n] decimal digits: their value after [acc]. *)
Fixpoint digits (n : nat) (acc : Z) (s : string) : option (Z * string) :=
  match n with
  | O => Some (acc, s)
  | S n' =>
      match s with
      | String c s' =>
          match digitVal c with
          | Some d => digits n' (10 * acc + d) s'
          | None => None
          end
      | "" => None
      end
  end.

(** The character [c]. *)
Definition lit (c : ascii) (s : string) : option string :=
  match s with
  | String c' s' => if Ascii.eqb c' c then Some s' else None
  | "" => None
  end.

Definition between (lo hi n : Z) : bool := (lo <=? n) && (n <=? hi).

(** [YYYY], or a sign and six digits; [-000000] is not a year. *)
Definition parseYear (s : string) : option (Z * string) :=
  match lit "+" s, lit "-" s with
  | Some s', _ => digits 6 0 s'
  | None, Some s' =>
      ' (y, r) <- digits 6 0 s' ;;
      if y =? 0 then None else Some (- y, r)
  | None, None => digits 4 0 s
  end.

(** The day [d] exists in the month [m] of the year [y]: the date reads
    back from its day number. *)
Definition dateExists (y m d : Z) : bool :=
  let '(y', m', d') := civil_from_days (days_from_civil y m d) in
  (y' =? y) && (m' =? m) && (d' =? d).

(** [YYYY], [YYYY-MM] or [YYYY-MM-DD]: the day number.  A day past the end
    of its month ([2024-02-30]) is taken to be outside the format: some
    engines carry it into the next month and some reject it. *)
Definition parseDate (s : string) : option (Z * string) :=
  ' (y, r) <- parseYear s ;;
  match lit "-" r with
  | None => Some (days_from_civil y 1 1, r)
  | Some r1 =>
      ' (m, r2) <- digits 2 0 r1 ;;
      if between 1 12 m then
        match lit "-" r2 with
        | None => Some (days_from_civil y m 1, r2)
        | Some r3 =>
            ' (d, r4) <- digits 2 0 r3 ;;
            if between 1 31 d && dateExists y m d
            then Some (days_from_civil y m d, r4)
            else None
        end
      else None
  end.

(** The seconds and the milliseconds, in milliseconds: nothing, [:ss] or
    [:ss.sss]. *)
Definition parseSeconds (s : string) : option (Z * string) :=
  match lit ":" s with
  | None => Some (0, s)
  | Some r =>
      ' (se, r1) <- digits 2 0 r ;;
      if between 0 59 se then
        match lit "." r1 with
        | None => Some (se * 1000, r1)
        | Some r2 =>
            ' (ms, r3) <- digits 3 0 r2 ;;
            Some (se * 1000 + ms, r3)
        end
      else None
  end.

(** [THH:mm], [THH:mm:ss] or [THH:mm:ss.sss]: the milliseconds since
    midnight.  [24:00:00.000] is the midnight that ends the day. *)
Definition parseTime (s : string) : option (Z * string) :=
  ' r0 <- lit "T" s ;;
  ' (h, r1) <- digits 2 0 r0 ;;
  ' r2 <- lit ":" r1 ;;
  ' (mi, r3) <- digits 2 0 r2 ;;
  ' (sms, r4) <- parseSeconds r3 ;;
  if (between 0 23 h && between 0 59 mi)
     || ((h =? 24) && (mi =? 0) && (sms =? 0))
  then Some (h * 3600000 + mi * 60000 + sms, r4)
  else None.

(** The [HH:mm] of a UTC offset, to the end of the string, in
    milliseconds. *)
Definition parseOffset (s : string) : option Z :=
  ' (h, r1) <- digits 2 0 s ;;
  ' r2 <- lit ":" r1 ;;
  ' (mi, r3) <- digits 2 0 r2 ;;
  match r3 with
  | "" => if between 0 23 h && between 0 59 mi
          then Some (h * 3600000 + mi * 60000) else None
  | _ => None
  end.

(** The UTC offset that ends a date and a time: [Z], [+HH:mm], [-HH:mm],
    or none ([Some None]), which means local time. *)
Definition parseZone (s : string) : option (option Z) :=
  match s with
  | "" => Some None
  | _ =>
      match lit "Z" s, lit "+" s, lit "-" s with
      | Some "", _, _ => Some (Some 0)
      | Some _, _, _ => None
      | None, Some r, _ => ' off <- parseOffset r ;; Some (Some off)
      | None, None, Some r => ' off <- parseOffset r ;; Some (Some (- off))
      | None, None, None => None
      end
  end.

(** A string of the date-time string format: whether it is in local time,
    and its time value (before the conversion from local time).  A date
    alone is in UTC. *)
Definition parseFormat (s : string) : option (bool * Z) :=
  ' (day, r) <- parseDate s ;;
  match r with
  | "" => Some (false, day * msPerDay)
  | _ =>
      ' (w, r') <- parseTime r ;;
      ' zone <- parseZone r' ;;
      match zone with
      | None => Some (true, day * msPerDay + w)
      | Some off => Some (false, day * msPerDay + w - off)
      end
  end.

(** What the host adds to the language: its time zone, as the conversion
    [UTC(t)] of a local time, and what it makes of a string that is not
    read above ([None] for [NaN]): a string outside the date-time string
    format, on which an engine may fall back to formats of its own. *)
Class Host := {
  UTC_of_local : Z -> Z;
  legacyParse : string -> option Z;
  legacyParse_clipped :
    forall s t, legacyParse s = Some t -> Z.abs t <= 8640000000000000
}.

(** [Date.parse(s)], which is also the time value of [new Date(s)]. *)
Definition Date_parse {host : Host} (s : string) : option Z :=
  match parseFormat s with
  | Some (true, t) => TimeClip (UTC_of_local t)
  | Some (false, t) => TimeClip t
  | None => legacyParse s
  end.

End JsDate.

(* ================================================================== *)
(** * Collation and sorting *)
(* ================================================================== *)

Module JsArray.
Import JsNum.

(** [localeCompare] under the host's collation: negative, zero or
    positive, and consistent (a total preorder on strings). *)
Class Collator := {
  localeCompare : string -> string -> comparison;
  localeCompare_antisym :
    forall a b, localeCompare b a = CompOpp (localeCompare a b);
  localeCompare_trans :
    forall a b c, localeCompare a b <> Gt -> localeCompare b c <> Gt ->
                  localeCompare a c <> Gt
}.

(** The number a comparison stands for. *)
Definition cmp2num (c : comparison) : float :=
  match c with
  | Lt => PrimFloat.opp one
  | Eq => zero
  | Gt => one
  end.

(** Insertion of [x], which came before the elements of [l], into the
    sorted [l]: it moves behind the elements it sorts after. *)
Fixpoint insertBy {A : Type} (cmp : A -> A -> float) (x : A) (l : list A)
  : list A :=
  match l with
  | [] => [x]
  | h :: t =>
      match jsSign (cmp x h) with
      | Gt => h :: insertBy cmp x t
      | _ => x :: h :: t
      end
  end.

(** The stable insertion sort: the sorted arrangement of [l] in which the
    elements that compare equal keep their order. *)
Definition sortBy {A : Type} (cmp : A -> A -> float) (l : list A) : list A :=
  fold_right (insertBy cmp) [] l.

(** A comparison that is a total preorder. *)
Definition consistent {A : Type} (c : A -> A -> comparison) : Prop :=
  (forall x y, c y x = CompOpp (c x y))
  /\ (forall x y z, c x y <> Gt -> c y z <> Gt -> c x z <> Gt).

(** [Array.prototype.sort(cmp)], as a function of the elements.  The
    result is a permutation of them.  When the comparator is consistent on
    them (its sign is that of a total preorder), the sort is stable and
    its result is fixed: it is the one [sortBy] computes.  Otherwise the
    order is the engine's choice. *)
Class Engine := {
  Array_sort : forall {A : Type}, (A -> A -> float) -> list A -> list A;
  Array_sort_perm :
    forall (A : Type) (cmp : A -> A -> float) (l : list A),
      Permutation (Array_sort cmp l) l;
  Array_sort_consistent :
    forall (A : Type) (cmp : A -> A -> float) (c : A -> A -> comparison)
           (l : list A),
      consistent c ->
      (forall x y, In x l -> In y l -> jsSign (cmp x y) = c x y) ->
      Array_sort cmp l = sortBy cmp l
}.

(** ** Arrays as objects *)

(** The arrays of the heap, by reference. *)
Definition Ref := nat.
Definition Heap (A : Type) := list (list A).

Definition deref {A : Type} (h : Heap A) (r : Ref) : list A := nth r h [].

Fixpoint store {A : Type} (h : Heap A) (r : Ref) (a : list A) : Heap A :=
  match h, r with
  | [], _ => []
  | _ :: h', O => a :: h'
  | x :: h', S r' => x :: store h' r' a
  end.

(** [[...a]]: a new array with the elements of [a]. *)
Definition spread {A : Type} (h : Heap A) (r : Ref) : Heap A * Ref :=
  ((h ++ [deref h r])%list, List.length h).

(** [a.sort(cmp)]: sorts the array [a] in place and returns [a]. *)
Definition sortInPlace {engine : Engine} {A : Type} (cmp : A -> A -> float)
  (h : Heap A) (r : Ref) : Heap A * Ref :=
  (store h r (Array_sort cmp (deref h r)), r).

(** [Array.prototype.find]. *)
Definition find {A : Type} (p : A -> bool) (l : list A) : option A :=
  List.find p l.

(** [Array.prototype.map] with the index. *)
Fixpoint mapiFrom {A B : Type} (f : A -> nat -> B) (i : nat) (l : list A)
  : list B :=
  match l with
  | [] => []
  | x :: l' => f x i :: mapiFrom f (S i) l'
  end.

Definition mapi {A B : Type} (f : A -> nat -> B) (l : list A) : list B :=
  mapiFrom f 0%nat l.

(** A [Map] with string keys, in insertion order. *)
Fixpoint mapGet {V : Type} (k : string) (m : list (string * V)) : option V :=
  match m with
  | [] => None
  | (k', v) :: m' => if String.eqb k' k then Some v else mapGet k m'
  end.

Fixpoint mapSet {V : Type} (k : string) (v : V) (m : list (string * V))
  : list (string * V) :=
  match m with
  | [] => [(k, v)]
  | (k', v') :: m' =>
      if String.eqb k' k then (k', v) :: m' else (k', v') :: mapSet k v m'
  end.

End JsArray.

(* ================================================================== *)
(** * The data model ([@/types]) *)
(* ================================================================== *)

Module Types.

(** Modelled from the spec: the declarations of [@/types] are not among
    the sources.  [priority] is one of High, Medium, Low and [status] one
    of Todo, In Progress, Done (section 3). *)
Inductive Priority := High | Medium | Low.
Inductive Status := Todo | InProgress | Done.

Definition Priority_eqb (a b : Priority) : bool :=
  match a, b with
  | High, High | Medium, Medium | Low, Low => true
  | _, _ => false
  end.

Definition Status_eqb (a b : Status) : bool :=
  match a, b with
  | Todo, Todo | InProgress, InProgress | Done, Done => true
  | _, _ => false
  end.

(** Modelled from the spec: the declaration of [Task] in [@/types] is not
    among the sources.  The fields are those of section 3, which are the
    ones the code reads and writes: [notes] and [completedAt] are
    optional, the numbers are JavaScript numbers, the timestamps are
    strings. *)
Record Task := {
  id : string;
  title : string;
  revenue : float;
  timeTaken : float;
  priority : Priority;
  status : Status;
  notes : option string;
  createdAt : string;
  completedAt : option string
}.

(** Modelled from the spec: the declaration of [DerivedTask] in [@/types]
    is not among the sources.  It is a task with [roi], a number or
    [null], and [priorityWeight], as [withDerived] builds it:
    [{ ...task, roi, priorityWeight }]. *)
Record DerivedTask := {
  task : Task;
  roi : option float;
  priorityWeight : float
}.

(** The truth value of a string, and of a string that may be undefined. *)
Definition truthy (s : string) : bool := negb (String.eqb s "").

Definition truthyOpt (s : option string) : bool :=
  match s with
  | Some v => truthy v
  | None => false
  end.

End Types.

(* ================================================================== *)
(** * [src/utils/logic.ts] *)
(* ================================================================== *)

Module Logic.
Import JsNum JsDate JsArray Types.

(** The operands are numbers by their type, so the [typeof] tests pass. *)
Definition computeROI (revenue timeTaken : float) : option float :=
  if negb (Number_isFinite revenue) then None
  else if negb (Number_isFinite timeTaken) || PrimFloat.leb timeTaken zero
  then None
  else
    let val := PrimFloat.div revenue timeTaken in
    if negb (Number_isFinite val) then None
    else Some (PrimFloat.div (Math_round (PrimFloat.mul val 100%float))
                             100%float).

Definition computePriorityWeight (p : Priority) : float :=
  match p with
  | High => 3%float
  | Medium => 2%float
  | _ => 1%float
  end.

Definition withDerived (t : Task) : DerivedTask :=
  {| task := t;
     roi := computeROI (revenue t) (timeTaken t);
     priorityWeight := computePriorityWeight (priority t) |}.

(** [x ?? -Infinity]. *)
Definition orNegInfinity (r : option float) : float :=
  match r with
  | Some v => v
  | None => neg_infinity
  end.

(** [a !== b] on numbers. *)
Definition strictNe (a b : float) : bool := negb (PrimFloat.eqb a b).

Section Ranking.
Context {engine : Engine} {collator : Collator}.

(** The comparator of [sortTasks].  [title] and [id] are strings by their
    type, so [a.title ?? ''] and [a.id ?? ''] are the strings themselves. *)
Definition compareTasks (a b : DerivedTask) : float :=
  let aROI := orNegInfinity (roi a) in
  let bROI := orNegInfinity (roi b) in
  if strictNe bROI aROI then PrimFloat.sub bROI aROI
  else if strictNe (priorityWeight b) (priorityWeight a)
  then PrimFloat.sub (priorityWeight b) (priorityWeight a)
  else
    let cmp :=
      if truthy (createdAt (task a)) && truthy (createdAt (task b))
      then localeCompare (createdAt (task b)) (createdAt (task a))
      else Eq in
    match cmp with
    | Eq =>
        let titleCmp := localeCompare (title (task a)) (title (task b)) in
        match titleCmp with
        | Eq => cmp2num (localeCompare (id (task a)) (id (task b)))
        | _ => cmp2num titleCmp
        end
    | _ => cmp2num cmp
    end.

(** [[...tasks].sort(...)] on the heap: the copy is a new array, which
    is sorted in place and returned. *)
Definition sortTasksIn (h : Heap DerivedTask) (tasks : Ref)
  : Heap DerivedTask * Ref :=
  let (h1, copy) := spread h tasks in
  sortInPlace compareTasks h1 copy.

(** The elements of the array [sortTasks] returns, from those of its
    argument. *)
Definition sortTasks (tasks : list DerivedTask) : list DerivedTask :=
  Array_sort compareTasks tasks.

End Ranking.

(** ** Velocity *)

Definition getTime (d : option Z) : float :=
  match d with
  | Some t => Z2float t
  | None => nan
  end.

Definition daysBetween {host : Host} (aISO bISO : string) : float :=
  let a := getTime (Date_parse aISO) in
  let b := getTime (Date_parse bISO) in
  Math_max zero
    (Math_round (PrimFloat.div (PrimFloat.sub b a)
                               (Z2float (24 * 3600 * 1000)))).

(** A value for each priority: [Record<Task['priority'], A>]. *)
Record PerPriority (A : Type) := {
  ofHigh : A;
  ofMedium : A;
  ofLow : A
}.
Arguments ofHigh {A}.
Arguments ofMedium {A}.
Arguments ofLow {A}.

Definition lookup {A : Type} (r : PerPriority A) (k : Priority) : A :=
  match k with
  | High => ofHigh r
  | Medium => ofMedium r
  | Low => ofLow r
  end.

(** [r[k].push(v)]. *)
Definition push (r : PerPriority (list float)) (k : Priority) (v : float)
  : PerPriority (list float) :=
  match k with
  | High => {| ofHigh := (ofHigh r ++ [v])%list; ofMedium := ofMedium r; ofLow := ofLow r |}
  | Medium => {| ofHigh := ofHigh r; ofMedium := (ofMedium r ++ [v])%list; ofLow := ofLow r |}
  | Low => {| ofHigh := ofHigh r; ofMedium := ofMedium r; ofLow := (ofLow r ++ [v])%list |}
  end.

Record Velocity := { avgDays : float; medianDays : float }.

Section Velocity.
Context {host : Host} {engine : Engine}.

(** The body of the [forEach] over the tasks. *)
Definition collect (groups : PerPriority (list float)) (t : Task)
  : PerPriority (list float) :=
  match completedAt t with
  | Some c =>
      if truthy c
      then push groups (priority t) (daysBetween (createdAt t) c)
      else groups
  | None => groups
  end.

(** The groups after the [forEach]. *)
Definition velocityGroups (tasks : list Task) : PerPriority (list float) :=
  fold_left collect tasks {| ofHigh := []; ofMedium := []; ofLow := [] |}.

(** The sorted copy of a group. *)
Definition sortedDays (g : list float) : list float :=
  Array_sort (fun a b => PrimFloat.sub a b) g.

Definition sumNumbers (l : list float) : float :=
  fold_left PrimFloat.add l zero.

(** The body of the loop over the keys, for one group. *)
Definition velocityOf (g : list float) : Velocity :=
  let arr := sortedDays g in
  let avg :=
    match arr with
    | [] => zero
    | _ => PrimFloat.div (sumNumbers arr) (Z2float (Z.of_nat (List.length arr)))
    end in
  let mid :=
    match arr with
    | [] => zero
    | _ => nth (Nat.div (List.length arr) 2) arr nan
    end in
  {| avgDays := avg; medianDays := mid |}.

Definition computeVelocityByPriority (tasks : list Task) : PerPriority Velocity :=
  let groups := velocityGroups tasks in
  {| ofHigh := velocityOf (ofHigh groups);
     ofMedium := velocityOf (ofMedium groups);
     ofLow := velocityOf (ofLow groups) |}.

End Velocity.

(** ** Weekly throughput *)

Definition getWeekNumber (d : option Z) : float :=
  match d with
  | None => nan
  | Some t =>
      match Date_UTC (getUTCFullYear t) (getUTCMonth t) (getUTCDate t) with
      | None => nan
      | Some target0 =>
          let dayNr := (getUTCDay target0 + 6) mod 7 in
          match setUTCDate target0 (getUTCDate target0 - dayNr + 3) with
          | None => nan
          | Some target =>
              match Date_UTC (getUTCFullYear target) 0 4 with
              | None => nan
              | Some firstThursday =>
                  let diff := PrimFloat.sub (Z2float target) (Z2float firstThursday) in
                  PrimFloat.add one
                    (Math_round
                       (PrimFloat.div diff (Z2float (7 * 24 * 3600 * 1000))))
              end
          end
      end
  end.

(** A number inside a template literal; the numbers met here are integers
    or [NaN]. *)
Definition Number_toString (x : float) : string :=
  if isNaN x then "NaN" else Z_toString (float2Z x).

Definition weekKeyOf (d : option Z) : string :=
  (match d with
   | Some t => Z_toString (getUTCFullYear t)
   | None => "NaN"
   end) ++ "-W" ++ Number_toString (getWeekNumber d).

Record WeekTotals := { count : float; wrevenue : float }.

Record Throughput := { week : string; tcount : float; trevenue : float }.

Section Throughput.
Context {host : Host} {engine : Engine} {collator : Collator}.

Definition throughputMap (tasks : list Task) : list (string * WeekTotals) :=
  fold_left
    (fun byWeek t =>
       match completedAt t with
       | Some c =>
           if truthy c then
             let d := Date_parse c in
             let weekKey := weekKeyOf d in
             let v :=
               match mapGet weekKey byWeek with
               | Some v => v
               | None => {| count := zero; wrevenue := zero |}
               end in
             mapSet weekKey
               {| count := PrimFloat.add (count v) one;
                  wrevenue := PrimFloat.add (wrevenue v) (revenue t) |}
               byWeek
           else byWeek
       | None => byWeek
       end)
    tasks [].

Definition computeThroughputByWeek (tasks : list Task) : list Throughput :=
  map (fun e => {| week := fst e;
                   tcount := count (snd e);
                   trevenue := wrevenue (snd e) |})
      (Array_sort (fun a b => cmp2num (localeCompare (fst a) (fst b)))
                  (throughputMap tasks)).

End Throughput.

(** ** Totals, efficiency and grade *)

Definition isDone (t : Task) : bool := Status_eqb (status t) Done.

Definition computeTotalRevenue (tasks : list Task) : float :=
  fold_left (fun sum t => PrimFloat.add sum (revenue t))
            (filter isDone tasks) zero.

Definition computeTotalTimeTaken (tasks : list Task) : float :=
  fold_left (fun sum t => PrimFloat.add sum (timeTaken t)) tasks zero.

(** The [length] of an array, as a number. *)
Definition lengthNumber {A : Type} (l : list A) : float :=
  Z2float (Z.of_nat (List.length l)).

Definition computeTimeEfficiency (tasks : list Task) : float :=
  match tasks with
  | [] => zero
  | _ =>
      PrimFloat.mul
        (PrimFloat.div (lengthNumber (filter isDone tasks)) (lengthNumber tasks))
        100%float
  end.

Definition computeRevenuePerHour (tasks : list Task) : float :=
  let revenue := computeTotalRevenue tasks in
  let time := computeTotalTimeTaken tasks in
  if PrimFloat.ltb zero time then PrimFloat.div revenue time else zero.

(** The finite numbers among the [roi]s: the filter
    [typeof v === 'number' && Number.isFinite(v)]. *)
Definition finiteROIs (tasks : list Task) : list float :=
  flat_map
    (fun t =>
       match computeROI (revenue t) (timeTaken t) with
       | Some v => if Number_isFinite v then [v] else []
       | None => []
       end)
    tasks.

Definition computeAverageROI (tasks : list Task) : float :=
  let rois := finiteROIs tasks in
  match rois with
  | [] => zero
  | _ => PrimFloat.div (fold_left PrimFloat.add rois zero) (lengthNumber rois)
  end.

Inductive Grade := Excellent | Good | NeedsImprovement.

Definition computePerformanceGrade (avgROI : float) : Grade :=
  if PrimFloat.ltb 500%float avgROI then Excellent
  else if PrimFloat.leb 200%float avgROI then Good
  else NeedsImprovement.

(** ** Funnel *)

Record FunnelCounts := {
  todo : float;
  inProgress : float;
  done : float;
  conversionTodoToInProgress : float;
  conversionInProgressToDone : float
}.

(** The tasks with one status. *)
Definition withStatus (st : Status) (tasks : list Task) : list Task :=
  filter (fun t => Status_eqb (status t) st) tasks.

(** The truth value of a number: neither a zero nor [NaN]. *)
Definition truthyNumber (v : float) : bool :=
  negb (isNaN v || PrimFloat.eqb v zero).

Definition computeFunnel (tasks : list Task) : FunnelCounts :=
  let todo' := lengthNumber (withStatus Todo tasks) in
  let inProgress' := lengthNumber (withStatus InProgress tasks) in
  let done' := lengthNumber (withStatus Done tasks) in
  let baseTodo := PrimFloat.add (PrimFloat.add todo' inProgress') done' in
  {| todo := todo';
     inProgress := inProgress';
     done := done';
     conversionTodoToInProgress :=
       if truthyNumber baseTodo
       then PrimFloat.div (PrimFloat.add inProgress' done') baseTodo
       else zero;
     conversionInProgressToDone :=
       if truthyNumber inProgress'
       then PrimFloat.div done' inProgress'
       else zero |}.

(** ** Weighted pipeline *)

(** The weights 0.1, 0.5 and 1, as the numbers the literals denote. *)
Definition pipelineWeight (st : Status) : float :=
  match st with
  | Todo => 0x1.999999999999ap-4%float
  | InProgress => 0.5%float
  | Done => one
  end.

Definition computeWeightedPipeline (tasks : list Task) : float :=
  fold_left
    (fun s t => PrimFloat.add s (PrimFloat.mul (revenue t)
                                               (pipelineWeight (status t))))
    tasks zero.

(** ** Forecast *)

Record WeekRevenue := { fweek : string; frevenue : float }.

(** [x || 1] on numbers. *)
Definition orOne (x : float) : float := if truthyNumber x then x else one.

(** [x.reduce((s, v, i) => s + v * y[i], 0)] for [x] and [y] of one
    length. *)
Definition sumProducts (x y : list float) : float :=
  fold_left (fun s vw => PrimFloat.add s (PrimFloat.mul (fst vw) (snd vw)))
            (combine x y) zero.

(** The rows pushed by the loop for [i] from [1] to [horizonWeeks], the
    latter a whole number of weeks (4 when the argument is left out). *)
Definition computeForecast (weekly : list WeekRevenue) (horizonWeeks : nat)
  : list WeekRevenue :=
  if (List.length weekly <? 2)%nat then []
  else
    let y := map frevenue weekly in
    let x := map (fun i => Z2float (Z.of_nat i)) (seq 0 (List.length weekly)) in
    let n := lengthNumber x in
    let sumX := sumNumbers x in
    let sumY := sumNumbers y in
    let sumXY := sumProducts x y in
    let sumXX := sumProducts x x in
    let slope :=
      PrimFloat.div
        (PrimFloat.sub (PrimFloat.mul n sumXY) (PrimFloat.mul sumX sumY))
        (orOne (PrimFloat.sub (PrimFloat.mul n sumXX)
                              (PrimFloat.mul sumX sumX))) in
    let intercept :=
      PrimFloat.div (PrimFloat.sub sumY (PrimFloat.mul slope sumX)) n in
    let lastIndex := last x nan in
    map (fun i =>
           let idx := PrimFloat.add lastIndex (Z2float (Z.of_nat i)) in
           {| fweek := "+" ++ Z_toString (Z.of_nat i);
              frevenue :=
                Math_max zero
                  (PrimFloat.add (PrimFloat.mul slope idx) intercept) |})
        (seq 1 horizonWeeks).

(** ** Cohort revenue *)

(** Modelled from the spec: the strings of [Task['priority']] in
    [@/types], which are not among the sources, are those the code
    compares with and indexes by: High, Medium and Low. *)
Definition priorityName (p : Priority) : string :=
  match p with
  | High => "High"
  | Medium => "Medium"
  | Low => "Low"
  end.

(** [s.split(sep)] for a separator of one character: [cur] is the part
    being read, in reverse. *)
Fixpoint splitFrom (sep : ascii) (cur : string) (s : string) : list string :=
  match s with
  | "" => [cur]
  | String c s' =>
      if Ascii.eqb c sep then cur :: splitFrom sep "" s'
      else splitFrom sep (cur ++ String c "") s'
  end.

Definition split (sep : ascii) (s : string) : list string :=
  splitFrom sep "" s.

Record CohortRow := {
  cweek : option string;
  cpriority : option string;
  crevenue : float
}.

Section Cohort.
Context {host : Host} {engine : Engine} {collator : Collator}.

Definition cohortKey (t : Task) : string :=
  weekKeyOf (Date_parse (createdAt t)) ++ "|" ++ priorityName (priority t).

Definition cohortMap (tasks : list Task) : list (string * float) :=
  fold_left
    (fun byKey t =>
       let key := cohortKey t in
       mapSet key
         (PrimFloat.add
            (match mapGet key byKey with Some v => v | None => zero end)
            (revenue t))
         byKey)
    tasks [].

(** [const [week, priority] = key.split('|')]: the first two parts. *)
Definition cohortRow (e : string * float) : CohortRow :=
  let parts := split "|"%char (fst e) in
  {| cweek := nth_error parts 0;
     cpriority := nth_error parts 1;
     crevenue := snd e |}.

(** The comparison of two weeks that may be undefined; both are there in
    every row the function builds. *)
Definition weekOrEmpty (r : CohortRow) : string :=
  match cweek r with
  | Some w => w
  | None => ""
  end.

Definition computeCohortRevenue (tasks : list Task) : list CohortRow :=
  Array_sort
    (fun a b => cmp2num (localeCompare (weekOrEmpty a) (weekOrEmpty b)))
    (map cohortRow (cohortMap tasks)).

End Cohort.

End Logic.

(* ================================================================== *)
(** * [src/hooks/useTasks.ts] *)
(* ================================================================== *)

Module Store.
Import JsNum JsDate JsArray Types.

(** The state the hook keeps: [tasks] and [lastDeleted]. *)
Record State := {
  tasks : list Task;
  lastDeleted : option Task
}.

(** ** Normalisation of the loaded records *)

(** A numeric field of a loaded record: absent, [null] or a number. *)
Inductive RawNumber := Absent | Null | Num (v : float).

(** [Number(x)]. *)
Definition Number (x : RawNumber) : float :=
  match x with
  | Absent => nan
  | Null => zero
  | Num v => v
  end.

(** A loaded record: every field but the priority and the status may be
    absent. *)
Record RawTask := {
  r_id : option string;
  r_title : option string;
  r_revenue : RawNumber;
  r_timeTaken : RawNumber;
  r_priority : Priority;
  r_status : Status;
  r_notes : option string;
  r_createdAt : option string;
  r_completedAt : option string
}.

Section Normalise.
Context {host : Host}.

(** The [created] date of the record at index [idx]: the parsed
    [createdAt] when there is one, and otherwise [idx + 1] days before
    [now].  Time values are integers below [2^53], on which the arithmetic
    of numbers is exact. *)
Definition createdOf (now : Z) (t : RawTask) (idx : nat) : option Z :=
  if truthyOpt (r_createdAt t)
  then match r_createdAt t with
       | Some s => Date_parse s
       | None => None
       end
  else TimeClip (now - (Z.of_nat idx + 1) * 24 * 3600 * 1000).

(** One record; [None] when [toISOString] throws on an invalid date.
    [uuid idx] is the identifier drawn for the record at [idx]. *)
Definition normalizeTask (uuid : nat -> string) (now : Z) (t : RawTask)
  (idx : nat) : option Task :=
  match createdOf now t idx with
  | None => None
  | Some created =>
      match (if truthyOpt (r_completedAt t) then Some (r_completedAt t)
             else if Status_eqb (r_status t) Done
             then option_map (fun c => Some (toISOString c))
                             (TimeClip (created + 24 * 3600 * 1000))
             else Some None) with
      | None => None
      | Some completed =>
          Some {| id := match r_id t with Some i => i | None => uuid idx end;
                  title := match r_title t with Some s => s | None => "" end;
                  revenue := if Number_isFinite (Number (r_revenue t))
                             then Number (r_revenue t) else zero;
                  timeTaken := if Number_isFinite (Number (r_timeTaken t))
                                  && PrimFloat.ltb zero (Number (r_timeTaken t))
                               then Number (r_timeTaken t) else one;
                  priority := r_priority t;
                  status := r_status t;
                  notes := r_notes t;
                  createdAt := toISOString created;
                  completedAt := completed |}
      end
  end.

(** All of [xs] when none is [None]. *)
Fixpoint sequence {A : Type} (xs : list (option A)) : option (list A) :=
  match xs with
  | [] => Some []
  | None :: _ => None
  | Some x :: xs' =>
      match sequence xs' with
      | Some l => Some (x :: l)
      | None => None
      end
  end.

Definition normalizeTasks (uuid : nat -> string) (now : Z)
  (input : list RawTask) : option (list Task) :=
  sequence (mapi (normalizeTask uuid now) input).

End Normalise.

(** ** The handlers *)

(** The argument of [addTask]: a task whose [id] may be absent. *)
Record NewTask := {
  n_id : option string;
  n_title : string;
  n_revenue : float;
  n_timeTaken : float;
  n_priority : Priority;
  n_status : Status;
  n_notes : option string;
  n_createdAt : string;
  n_completedAt : option string
}.

Definition addTask (uuid : string) (now : Z) (task : NewTask) (s : State)
  : State :=
  let id' := match n_id task with Some i => i | None => uuid end in
  let timeTaken' :=
    if PrimFloat.leb (n_timeTaken task) zero then one else n_timeTaken task in
  let createdAt' := toISOString now in
  let status' := n_status task in
  let completedAt' :=
    if Status_eqb status' Done then Some createdAt' else None in
  {| tasks := (tasks s ++
               [ {| id := id';
                    title := n_title task;
                    revenue := n_revenue task;
                    timeTaken := timeTaken';
                    priority := n_priority task;
                    status := n_status task;
                    notes := n_notes task;
                    createdAt := createdAt';
                    completedAt := completedAt' |} ])%list;
     lastDeleted := lastDeleted s |}.

(** A patch, [Partial<Task>]: for each key, [None] when it is absent.  A
    key of an optional field may be present with the value [undefined]. *)
Record Patch := {
  p_id : option string;
  p_title : option string;
  p_revenue : option float;
  p_timeTaken : option float;
  p_priority : option Priority;
  p_status : option Status;
  p_notes : option (option string);
  p_createdAt : option string;
  p_completedAt : option (option string)
}.

(** [x ?? y]. *)
Definition orElse {A : Type} (x : option A) (y : A) : A :=
  match x with
  | Some v => v
  | None => y
  end.

(** [{ ...t, ...patch }]. *)
Definition merge (t : Task) (patch : Patch) : Task :=
  {| id := orElse (p_id patch) (id t);
     title := orElse (p_title patch) (title t);
     revenue := orElse (p_revenue patch) (revenue t);
     timeTaken := orElse (p_timeTaken patch) (timeTaken t);
     priority := orElse (p_priority patch) (priority t);
     status := orElse (p_status patch) (status t);
     notes := orElse (p_notes patch) (notes t);
     createdAt := orElse (p_createdAt patch) (createdAt t);
     completedAt := orElse (p_completedAt patch) (completedAt t) |}.

Definition setCompletedAt (t : Task) (c : option string) : Task :=
  {| id := id t; title := title t; revenue := revenue t;
     timeTaken := timeTaken t; priority := priority t; status := status t;
     notes := notes t; createdAt := createdAt t; completedAt := c |}.

Definition setTimeTaken (t : Task) (v : float) : Task :=
  {| id := id t; title := title t; revenue := revenue t;
     timeTaken := v; priority := priority t; status := status t;
     notes := notes t; createdAt := createdAt t;
     completedAt := completedAt t |}.

(** The first [map] of [updateTask], on one task. *)
Definition applyPatch (now : Z) (id0 : string) (patch : Patch) (t : Task)
  : Task :=
  if negb (String.eqb (id t) id0) then t
  else
    let merged := merge t patch in
    if negb (Status_eqb (status t) Done)
       && Status_eqb (status merged) Done
       && negb (truthyOpt (completedAt merged))
    then setCompletedAt merged (Some (toISOString now))
    else merged.

(** The second [map] of [updateTask], on one task. *)
Definition reclamp (id0 : string) (patch : Patch) (t : Task) : Task :=
  if String.eqb (id t) id0
     && PrimFloat.leb (orElse (p_timeTaken patch) (timeTaken t)) zero
  then setTimeTaken t one
  else t.

Definition updateTask (now : Z) (id0 : string) (patch : Patch) (s : State)
  : State :=
  let next := map (applyPatch now id0 patch) (tasks s) in
  {| tasks := map (reclamp id0 patch) next;
     lastDeleted := lastDeleted s |}.

Definition deleteTask (id0 : string) (s : State) : State :=
  let target := find (fun t => String.eqb (id t) id0) (tasks s) in
  {| tasks := filter (fun t => negb (String.eqb (id t) id0)) (tasks s);
     lastDeleted := target |}.

Definition undoDelete (s : State) : State :=
  match lastDeleted s with
  | None => s
  | Some t => {| tasks := (tasks s ++ [t])%list; lastDeleted := None |}
  end.

Definition dismissLastDeleted (s : State) : State :=
  {| tasks := tasks s; lastDeleted := None |}.

(** ** The memoised views *)

Section Views.
Context {engine : Engine} {collator : Collator}.

Definition derivedSorted (s : State) : list DerivedTask :=
  Logic.sortTasks (map Logic.withDerived (tasks s)).

End Views.

Record Metrics := {
  totalRevenue : float;
  totalTimeTaken : float;
  timeEfficiencyPct : float;
  revenuePerHour : float;
  averageROI : float;
  performanceGrade : Logic.Grade
}.

Definition INITIAL_METRICS : Metrics :=
  {| totalRevenue := zero;
     totalTimeTaken := zero;
     timeEfficiencyPct := zero;
     revenuePerHour := zero;
     averageROI := zero;
     performanceGrade := Logic.NeedsImprovement |}.

Definition metrics (s : State) : Metrics :=
  match tasks s with
  | [] => INITIAL_METRICS
  | _ =>
      let averageROI' := Logic.computeAverageROI (tasks s) in
      {| totalRevenue := Logic.computeTotalRevenue (tasks s);
         totalTimeTaken :=
           fold_left (fun acc t => PrimFloat.add acc (timeTaken t)) (tasks s) zero;
         timeEfficiencyPct := Logic.computeTimeEfficiency (tasks s);
         revenuePerHour := Logic.computeRevenuePerHour (tasks s);
         averageROI := averageROI';
         performanceGrade := Logic.computePerformanceGrade averageROI' |}
  end.

End Store.

(* ================================================================== *)
(** * The order of the numbers and the sign of a difference *)
(* ================================================================== *)

(** The comparisons of the primitive numbers are specified on their binary
    expansions ([Prim2SF]).  This part reads that specification as a
    lexicographic order and shows that the difference of two different
    numbers is never zero and has the sign of their comparison (gradual
    underflow), which is what a comparator written [a - b] relies on. *)

Module FloatOrder.
Import JsNum.

(** The order of the numbers, read on their binary expansions. *)
Definition rank (f : spec_float) : Z * Z * Z :=
  match f with
  | S754_zero _ => (0, 0, 0)
  | S754_infinity s => (if s then -2 else 2, 0, 0)
  | S754_nan => (0, 0, 0)
  | S754_finite s m e => if s then (-1, - e, Z.neg m) else (1, e, Z.pos m)
  end.

Definition lexcmp (k k' : Z * Z * Z) : comparison :=
  let '(a, b, c) := k in
  let '(a', b', c') := k' in
  match a ?= a' with
  | Eq => match b ?= b' with Eq => c ?= c' | r => r end
  | r => r
  end.

Definition lexlt (k k' : Z * Z * Z) : Prop :=
  let '(a, b, c) := k in
  let '(a', b', c') := k' in
  a < a' \/ (a = a' /\ (b < b' \/ (b = b' /\ c < c'))).

Lemma lexcmp_Lt k k' : lexcmp k k' = Lt <-> lexlt k k'.
Proof.
  destruct k as [[a b] c], k' as [[a' b'] c']; simpl.
  destruct (Z.compare_spec a a'), (Z.compare_spec b b'), (Z.compare_spec c c');
    split; intros; try discriminate; try lia; reflexivity.
Qed.

Lemma lexcmp_Gt k k' : lexcmp k k' = Gt <-> lexlt k' k.
Proof.
  destruct k as [[a b] c], k' as [[a' b'] c']; simpl.
  destruct (Z.compare_spec a a'), (Z.compare_spec b b'), (Z.compare_spec c c');
    split; intros; try discriminate; try lia; reflexivity.
Qed.

Lemma lexcmp_Eq k k' : lexcmp k k' = Eq <-> k = k'.
Proof.
  destruct k as [[a b] c], k' as [[a' b'] c']; simpl.
  destruct (Z.compare_spec a a'), (Z.compare_spec b b'), (Z.compare_spec c c');
    split; intros; try discriminate; try reflexivity; try congruence;
    match goal with H : (_, _, _) = (_, _, _) |- _ => inversion H; lia end.
Qed.

Lemma SFcompare_rank x y :
  x <> S754_nan -> y <> S754_nan ->
  SFcompare x y = Some (lexcmp (rank x) (rank y)).
Proof.
  intros Hx Hy.
  destruct x as [sx|sx| |sx mx ex], y as [sy|sy| |sy my ey]; try congruence;
    try destruct sx; try destruct sy; try reflexivity.
  all: simpl.
  all: try (rewrite Z.compare_opp;
    destruct (Z.compare_spec ex ey) as [E|E|E]; 
    destruct (Z.compare_spec ey ex) as [E'|E'|E']; try lia; try reflexivity;
    rewrite Pos.compare_cont_spec; simpl; reflexivity).
  all: try (destruct (ex ?= ey); try reflexivity; rewrite Pos.compare_cont_spec; reflexivity).
Qed.

(** ** The sign of a difference *)

Lemma digits2_bounds p :
  2 ^ (Z.pos (digits2_pos p) - 1) <= Z.pos p < 2 ^ Z.pos (digits2_pos p).
Proof.
  induction p as [p IH|p IH|]; simpl digits2_pos.
  - rewrite Pos2Z.inj_succ. change (Z.pos p~1) with (2 * Z.pos p + 1).
    replace (Z.succ (Z.pos (digits2_pos p)) - 1) with (Z.succ (Z.pos (digits2_pos p) - 1)) by lia.
    rewrite !Z.pow_succ_r by lia. lia.
  - rewrite Pos2Z.inj_succ. change (Z.pos p~0) with (2 * Z.pos p).
    replace (Z.succ (Z.pos (digits2_pos p)) - 1) with (Z.succ (Z.pos (digits2_pos p) - 1)) by lia.
    rewrite !Z.pow_succ_r by lia. lia.
  - simpl. lia.
Qed.

Lemma shr_1_m r : 0 <= shr_m r -> shr_m (shr_1 r) = shr_m r / 2.
Proof.
  destruct r as [m r s]; simpl. intros H.
  destruct m as [|[p|p|]|p]; simpl; try lia.
  - reflexivity.
  - change (Z.pos p~1) with (2 * Z.pos p + 1). Z.to_euclidean_division_equations; lia.
  - change (Z.pos p~0) with (2 * Z.pos p). Z.to_euclidean_division_equations; lia.
  - reflexivity.
Qed.

Lemma iter_pos_shr_1 n : forall r,
  0 <= shr_m r ->
  0 <= shr_m (iter_pos shr_1 n r) /\
  shr_m (iter_pos shr_1 n r) = shr_m r / 2 ^ Z.pos n.
Proof.
  assert (step : forall r, 0 <= shr_m r -> 0 <= shr_m (shr_1 r)).
  { intros r H. rewrite shr_1_m by exact H. apply Z.div_pos; lia. }
  assert (pw : forall k, 0 < 2 ^ Z.pos k) by (intros; apply Z.pow_pos_nonneg; lia).
  induction n as [n IH|n IH|]; intros r H; simpl iter_pos.
  - destruct (IH (shr_1 r) (step r H)) as [H1 E1].
    destruct (IH _ H1) as [H2 E2]. split; [exact H2|].
    rewrite E2, E1, shr_1_m by exact H.
    pose proof (pw n).
    rewrite !Z.div_div by lia.
    f_equal. replace (Z.pos n~1) with (1 + (Z.pos n + Z.pos n)) by lia.
    rewrite !Z.pow_add_r by lia. rewrite Z.pow_1_r. lia.
  - destruct (IH r H) as [H1 E1].
    destruct (IH _ H1) as [H2 E2]. split; [exact H2|].
    rewrite E2, E1.
    pose proof (pw n).
    rewrite !Z.div_div by lia.
    f_equal. replace (Z.pos n~0) with (Z.pos n + Z.pos n) by lia.
    rewrite !Z.pow_add_r by lia. lia.
  - split; [apply step; exact H|]. rewrite shr_1_m by exact H. reflexivity.
Qed.

Definition emin64 : Z := -1074.

Lemma shr_fexp_pos m e l :
  0 < m -> emin64 <= e ->
  0 < shr_m (fst (shr_fexp prec emax m e l)) /\
  emin64 <= snd (shr_fexp prec emax m e l).
Proof.
  intros Hm He. unfold shr_fexp, shr.
  assert (Hr : shr_m (shr_record_of_loc m l) = m) by (destruct l as [|[]]; reflexivity).
  destruct m as [|p|p]; try lia. simpl Zdigits2.
  pose proof (digits2_bounds p) as Hd.
  unfold fexp, SpecFloat.emin, prec, emax, emin64 in *.
  set (d := Z.pos (digits2_pos p)) in *.
  destruct (Z.max (d + e - 53) (3 - 1024 - 53) - e) as [|n|n] eqn:En; simpl fst; simpl snd.
  - rewrite Hr. lia.
  - destruct (iter_pos_shr_1 n (shr_record_of_loc (Z.pos p) l)) as [_ E]; [rewrite Hr; lia|].
    rewrite E, Hr. split; [|lia].
    assert (Z.pos n = d - 53) as -> by lia.
    assert (2 ^ (d - 1) = 2 ^ 52 * 2 ^ (d - 53)) as Hp.
    { rewrite <- Z.pow_add_r by lia. f_equal. lia. }
    assert (0 < 2 ^ (d - 53)) by (apply Z.pow_pos_nonneg; lia).
    apply Z.lt_le_trans with (2 ^ 52); [reflexivity|].
    apply Z.div_le_lower_bound; lia.
  - rewrite Hr. lia.
Qed.

(** A result that is not zero and carries the sign [s]. *)
Definition signed (s : bool) (r : spec_float) : Prop :=
  match r with
  | S754_finite s' _ _ | S754_infinity s' => s' = s
  | _ => False
  end.

Lemma binary_round_aux_signed s m e l :
  0 < m -> emin64 <= e -> signed s (binary_round_aux prec emax s m e l).
Proof.
  intros Hm He. unfold binary_round_aux.
  pose proof (shr_fexp_pos m e l Hm He) as [H1 H2].
  destruct (shr_fexp prec emax m e l) as [mrs' e']. simpl fst in *; simpl snd in *.
  assert (Hr : 0 < round_nearest_even (shr_m mrs') (loc_of_shr_record mrs')).
  { unfold round_nearest_even.
    destruct (loc_of_shr_record mrs') as [|[]]; try lia.
    destruct (Z.even (shr_m mrs')); lia. }
  pose proof (shr_fexp_pos _ e' loc_Exact Hr H2) as [H3 H4].
  destruct (shr_fexp prec emax _ e' loc_Exact) as [mrs'' e''].
  simpl fst in *; simpl snd in *.
  destruct (shr_m mrs'') as [|q|q]; try lia.
  destruct (e'' <=? emax - prec); reflexivity.
Qed.

Lemma iter_xO m d : Z.pos (Pos.iter xO m d) = Z.pos m * 2 ^ Z.pos d.
Proof.
  induction d as [|d IH] using Pos.peano_ind.
  - simpl. lia.
  - rewrite Pos.iter_succ. change (Z.pos (Pos.iter xO m d)~0) with (2 * Z.pos (Pos.iter xO m d)).
    rewrite IH, Pos2Z.inj_succ, Z.pow_succ_r by lia. lia.
Qed.

Lemma shl_align_fst m e e' :
  e' <= e -> Z.pos (fst (shl_align m e e')) = Z.pos m * 2 ^ (e - e').
Proof.
  intros H. unfold shl_align.
  destruct (e' - e) as [|d|d] eqn:E; simpl fst; try lia.
  - replace (e - e') with 0 by lia. lia.
  - rewrite iter_xO. f_equal. f_equal. lia.
Qed.

Lemma binary_round_signed s p e :
  emin64 <= e -> signed s (binary_round prec emax s p e).
Proof.
  intros He. unfold binary_round.
  destruct (shl_align p e _) as [mz ez] eqn:E.
  apply binary_round_aux_signed; [lia|].
  unfold shl_align in E.
  destruct (fexp prec emax (Z.pos (digits2_pos p) + e) - e) eqn:E';
    inversion E; subst; try exact He.
  unfold fexp, SpecFloat.emin, prec, emax, emin64 in *. lia.
Qed.

Lemma binary_normalize_sign m e :
  emin64 <= e ->
  SFcompare (binary_normalize prec emax m e false) (S754_zero false) = Some (m ?= 0).
Proof.
  intros He. destruct m as [|p|p]; simpl binary_normalize.
  - reflexivity.
  - pose proof (binary_round_signed false p e He) as H.
    destruct (binary_round prec emax false p e); simpl in H; try contradiction; subst; reflexivity.
  - pose proof (binary_round_signed true p e He) as H.
    destruct (binary_round prec emax true p e); simpl in H; try contradiction; subst; reflexivity.
Qed.

(** What validity says of a finite number. *)
Lemma bounded_inv m e :
  bounded prec emax m e = true ->
  emin64 <= e /\ Z.pos m < 2 ^ 53 /\ (emin64 < e -> 2 ^ 52 <= Z.pos m).
Proof.
  unfold bounded, canonical_mantissa, fexp, SpecFloat.emin, prec, emax, emin64.
  intros H. apply andb_true_iff in H. destruct H as [H _].
  apply Z.eqb_eq in H.
  pose proof (digits2_bounds m) as [L U].
  set (d := Z.pos (digits2_pos m)) in *.
  assert (d <= 53) by lia.
  split; [lia|]. split.
  - apply Z.lt_le_trans with (2 ^ d); [exact U|]. apply Z.pow_le_mono_r; lia.
  - intros He. assert (d = 53) as Hd by lia. rewrite Hd in L. exact L.
Qed.

Lemma aligned_cmp mx ex my ey :
  bounded prec emax mx ex = true -> bounded prec emax my ey = true ->
  (Z.pos mx * 2 ^ (ex - Z.min ex ey) ?= Z.pos my * 2 ^ (ey - Z.min ex ey)) =
  match ex ?= ey with Eq => (Z.pos mx ?= Z.pos my) | r => r end.
Proof.
  intros Hx Hy.
  destruct (bounded_inv _ _ Hx) as (Ex & Ux & Lx).
  destruct (bounded_inv _ _ Hy) as (Ey & Uy & Ly).
  destruct (Z.compare_spec ex ey) as [E|E|E].
  - subst. rewrite Z.min_id, Z.sub_diag. change (2 ^ 0) with 1. rewrite !Z.mul_1_r. reflexivity.
  - rewrite Z.min_l by lia. rewrite Z.sub_diag. change (2 ^ 0) with 1. rewrite Z.mul_1_r.
    apply Z.compare_lt_iff.
    assert (2 <= 2 ^ (ey - ex)).
    { change 2 with (2 ^ 1) at 1. apply Z.pow_le_mono_r; lia. }
    specialize (Ly ltac:(lia)). nia.
  - rewrite Z.min_r by lia. rewrite Z.sub_diag. change (2 ^ 0) with 1. rewrite Z.mul_1_r.
    apply Z.compare_gt_iff.
    assert (2 <= 2 ^ (ex - ey)).
    { change 2 with (2 ^ 1) at 1. apply Z.pow_le_mono_r; lia. }
    specialize (Lx ltac:(lia)). nia.
Qed.

Lemma SFsub_sign x y :
  valid_binary x = true -> valid_binary y = true ->
  x <> S754_nan -> y <> S754_nan ->
  SFcompare x y <> Some Eq ->
  SFcompare (SF64sub x y) (S754_zero false) = SFcompare x y.
Proof.
  intros Vx Vy Nx Ny Hne.
  destruct x as [sx|sx| |sx mx ex], y as [sy|sy| |sy my ey]; try congruence;
    try (destruct sx, sy; simpl in *; congruence).
  simpl in Vx, Vy. unfold SF64sub, SFsub.
  destruct (bounded_inv _ _ Vx) as (Ex & _).
  destruct (bounded_inv _ _ Vy) as (Ey & _).
  rewrite binary_normalize_sign by lia.
  rewrite !shl_align_fst by lia.
  pose proof (aligned_cmp mx ex my ey Vx Vy) as A.
  set (a := Z.pos mx * 2 ^ (ex - Z.min ex ey)) in *.
  set (b := Z.pos my * 2 ^ (ey - Z.min ex ey)) in *.
  assert (0 < a) by (apply Z.mul_pos_pos; [lia|apply Z.pow_pos_nonneg; lia]).
  assert (0 < b) by (apply Z.mul_pos_pos; [lia|apply Z.pow_pos_nonneg; lia]).
  change (Z.pos mx ?= Z.pos my) with (mx ?= my)%positive in A.
  destruct sx, sy; unfold cond_Zopp; simpl SFcompare; f_equal;
    try rewrite Pos.compare_cont_spec;
    destruct (Z.compare_spec a b) as [E|E|E];
    destruct (ex ?= ey); destruct (mx ?= my)%positive; simpl; try discriminate;
    first [apply Z.compare_eq_iff | apply Z.compare_lt_iff | apply Z.compare_gt_iff]; lia.
Qed.


Lemma isNaN_spec x : isNaN x = true <-> Prim2SF x = S754_nan.
Proof.
  unfold isNaN. rewrite eqb_spec. unfold SFeqb.
  destruct (Prim2SF x) as [s|s| |s m e] eqn:E.
  - simpl. split; discriminate.
  - destruct s; simpl; split; discriminate.
  - simpl. split; reflexivity.
  - rewrite SFcompare_rank by discriminate.
    assert (lexcmp (rank (S754_finite s m e)) (rank (S754_finite s m e)) = Eq) as ->
      by (apply lexcmp_Eq; reflexivity).
    simpl. split; discriminate.
Qed.

Lemma not_NaN x : isNaN x = false -> Prim2SF x <> S754_nan.
Proof. intros H E. apply isNaN_spec in E. congruence. Qed.

(** The key of a number: its place in the order. *)
Definition fkey (x : float) : Z * Z * Z := rank (Prim2SF x).

Lemma compare_fkey x y :
  isNaN x = false -> isNaN y = false ->
  SFcompare (Prim2SF x) (Prim2SF y) = Some (lexcmp (fkey x) (fkey y)).
Proof. intros Hx Hy. apply SFcompare_rank; apply not_NaN; assumption. Qed.

Lemma ltb_fkey x y :
  isNaN x = false -> isNaN y = false ->
  PrimFloat.ltb x y = true <-> lexlt (fkey x) (fkey y).
Proof.
  intros Hx Hy. rewrite ltb_spec. unfold SFltb.
  rewrite compare_fkey by assumption. rewrite <- lexcmp_Lt.
  destruct (lexcmp (fkey x) (fkey y)); split; congruence.
Qed.

Lemma eqb_fkey x y :
  isNaN x = false -> isNaN y = false ->
  PrimFloat.eqb x y = true <-> fkey x = fkey y.
Proof.
  intros Hx Hy. rewrite eqb_spec. unfold SFeqb.
  rewrite compare_fkey by assumption. rewrite <- lexcmp_Eq.
  destruct (lexcmp (fkey x) (fkey y)); split; congruence.
Qed.

Lemma lexlt_trichotomy k k' : lexlt k k' \/ k = k' \/ lexlt k' k.
Proof.
  destruct k as [[a b] c], k' as [[a' b'] c']; simpl.
  destruct (Z.lt_trichotomy a a') as [|[|]];
  destruct (Z.lt_trichotomy b b') as [|[|]];
  destruct (Z.lt_trichotomy c c') as [|[|]]; subst; auto; try (left; lia); try (right; right; lia).
Qed.

Lemma lexlt_trans k1 k2 k3 : lexlt k1 k2 -> lexlt k2 k3 -> lexlt k1 k3.
Proof.
  destruct k1 as [[a1 b1] c1], k2 as [[a2 b2] c2], k3 as [[a3 b3] c3]; simpl. lia.
Qed.

Lemma lexlt_irrefl k : ~ lexlt k k.
Proof. destruct k as [[a b] c]; simpl. lia. Qed.

(** The sign of [x - y] for two different numbers. *)
Lemma jsSign_sub x y :
  isNaN x = false -> isNaN y = false -> PrimFloat.eqb x y = false ->
  jsSign (PrimFloat.sub x y) = if PrimFloat.ltb x y then Lt else Gt.
Proof.
  intros Nx Ny Hne. unfold jsSign.
  pose proof (not_NaN x Nx) as Hx. pose proof (not_NaN y Ny) as Hy.
  rewrite eqb_spec in Hne. unfold SFeqb in Hne.
  rewrite !ltb_spec, sub_spec. unfold SFltb.
  change (Prim2SF zero) with (S754_zero false).
  assert (Hc : SFcompare (Prim2SF x) (Prim2SF y) <> Some Eq).
  { intros H. rewrite H in Hne. discriminate. }
  pose proof (SFsub_sign _ _ (Prim2SF_valid x) (Prim2SF_valid y) Hx Hy Hc) as S.
  rewrite S.
  assert (R : SFcompare (S754_zero false) (SF64sub (Prim2SF x) (Prim2SF y)) =
              option_map CompOpp (SFcompare (Prim2SF x) (Prim2SF y))).
  { rewrite <- S.
    destruct (SF64sub (Prim2SF x) (Prim2SF y)) as [s|s| |s m e];
      try destruct s; reflexivity. }
  rewrite R.
  rewrite SFcompare_rank in * by assumption.
  simpl. destruct (lexcmp (rank (Prim2SF x)) (rank (Prim2SF y))); simpl; congruence.
Qed.

Lemma leb_fkey x y :
  isNaN x = false -> isNaN y = false ->
  PrimFloat.leb x y = true <-> lexcmp (fkey x) (fkey y) <> Gt.
Proof.
  intros Hx Hy. rewrite leb_spec. unfold SFleb.
  rewrite compare_fkey by assumption.
  destruct (lexcmp (fkey x) (fkey y)); split; congruence.
Qed.

(** The difference of two numbers that compare equal is a zero or, for
    two infinities, [NaN]: neither negative nor positive. *)
Lemma SFsub_equal x y :
  SFcompare x y = Some Eq ->
  SFltb (SF64sub x y) (S754_zero false) = false
  /\ SFltb (S754_zero false) (SF64sub x y) = false.
Proof.
  destruct x as [sx|sx| |sx mx ex], y as [sy|sy| |sy my ey]; simpl;
    try discriminate; try (destruct sx; discriminate);
    try (destruct sy; discriminate).
  - destruct sx, sy; intros _; split; reflexivity.
  - destruct sx, sy; intros H; try discriminate; split; reflexivity.
  - intros H.
    assert (E : sx = sy /\ ex = ey /\ mx = my).
    { destruct sx, sy; try discriminate;
        destruct (Z.compare_spec ex ey); try discriminate;
        rewrite Pos.compare_cont_spec in H; simpl in H;
        destruct (Pos.compare_spec mx my); try discriminate; auto. }
    destruct E as (-> & -> & ->).
    unfold SF64sub, SFsub. rewrite Z.min_id, Z.sub_diag.
    split; reflexivity.
Qed.

(** The sign of [x - y] is the comparison of [x] and [y]. *)
Lemma jsSign_sub_lexcmp x y :
  isNaN x = false -> isNaN y = false ->
  jsSign (PrimFloat.sub x y) = lexcmp (fkey x) (fkey y).
Proof.
  intros Nx Ny.
  destruct (PrimFloat.eqb x y) eqn:E.
  - pose proof (proj1 (eqb_fkey x y Nx Ny) E) as K.
    rewrite (proj2 (lexcmp_Eq _ _) K).
    rewrite eqb_spec in E. unfold SFeqb in E.
    assert (C : SFcompare (Prim2SF x) (Prim2SF y) = Some Eq).
    { destruct (SFcompare (Prim2SF x) (Prim2SF y)) as [[]|]; congruence. }
    destruct (SFsub_equal _ _ C) as [L G].
    unfold jsSign. rewrite !ltb_spec, sub_spec.
    change (Prim2SF zero) with (S754_zero false). rewrite L, G. reflexivity.
  - rewrite jsSign_sub by assumption.
    destruct (PrimFloat.ltb x y) eqn:L.
    + symmetry. apply lexcmp_Lt. apply ltb_fkey; assumption.
    + destruct (lexcmp (fkey x) (fkey y)) eqn:C; [| |reflexivity].
      * exfalso. apply lexcmp_Eq in C.
        apply (eqb_fkey x y Nx Ny) in C. congruence.
      * exfalso. apply lexcmp_Lt in C.
        apply (ltb_fkey x y Nx Ny) in C. congruence.
Qed.

(** The comparison of keys is a total order. *)
Lemma lexcmp_antisym k k' : lexcmp k' k = CompOpp (lexcmp k k').
Proof.
  destruct (lexcmp k k') eqn:C; simpl.
  - apply lexcmp_Eq in C. subst. apply lexcmp_Eq. reflexivity.
  - apply lexcmp_Gt. apply lexcmp_Lt. exact C.
  - apply lexcmp_Lt. apply lexcmp_Gt. exact C.
Qed.

Lemma lexcmp_le_trans k1 k2 k3 :
  lexcmp k1 k2 <> Gt -> lexcmp k2 k3 <> Gt -> lexcmp k1 k3 <> Gt.
Proof.
  intros H1 H2 H3.
  apply lexcmp_Gt in H3.
  destruct (lexcmp k1 k2) eqn:C1; [| |congruence];
  destruct (lexcmp k2 k3) eqn:C2; try congruence.
  - apply lexcmp_Eq in C1, C2. subst. exact (lexlt_irrefl _ H3).
  - apply lexcmp_Eq in C1. subst. apply lexcmp_Lt in C2.
    exact (lexlt_irrefl _ (lexlt_trans _ _ _ C2 H3)).
  - apply lexcmp_Eq in C2. subst. apply lexcmp_Lt in C1.
    exact (lexlt_irrefl _ (lexlt_trans _ _ _ C1 H3)).
  - apply lexcmp_Lt in C1, C2.
    exact (lexlt_irrefl _ (lexlt_trans _ _ _ (lexlt_trans _ _ _ C1 C2) H3)).
Qed.

(** ** Results that are numbers *)

(** Rounding a mantissa that is not negative never gives [NaN]. *)
Lemma shr_fexp_nonneg m e l :
  0 <= m -> 0 <= shr_m (fst (shr_fexp prec emax m e l)).
Proof.
  intros Hm. unfold shr_fexp, shr.
  assert (Hr : shr_m (shr_record_of_loc m l) = m)
    by (destruct l as [|[]]; reflexivity).
  destruct (fexp prec emax (Zdigits2 m + e) - e) as [|n|n]; simpl fst;
    try (rewrite Hr; exact Hm).
  apply iter_pos_shr_1. rewrite Hr. exact Hm.
Qed.

Lemma binary_round_aux_not_nan s m e l :
  0 <= m -> binary_round_aux prec emax s m e l <> S754_nan.
Proof.
  intros Hm. unfold binary_round_aux.
  pose proof (shr_fexp_nonneg m e l Hm) as H1.
  destruct (shr_fexp prec emax m e l) as [mrs' e']. simpl fst in H1.
  assert (Hr : 0 <= round_nearest_even (shr_m mrs') (loc_of_shr_record mrs')).
  { unfold round_nearest_even.
    destruct (loc_of_shr_record mrs') as [|[]]; try lia.
    destruct (Z.even (shr_m mrs')); lia. }
  pose proof (shr_fexp_nonneg _ e' loc_Exact Hr) as H2.
  destruct (shr_fexp prec emax _ e' loc_Exact) as [mrs'' e''].
  simpl fst in H2.
  destruct (shr_m mrs'') as [|q|q]; try lia; try discriminate.
  destruct (e'' <=? emax - prec); discriminate.
Qed.

Lemma binary_round_not_nan s p e : binary_round prec emax s p e <> S754_nan.
Proof.
  unfold binary_round. destruct (shl_align p e _) as [mz ez].
  apply binary_round_aux_not_nan. lia.
Qed.

Lemma binary_normalize_not_nan m e sz :
  binary_normalize prec emax m e sz <> S754_nan.
Proof.
  destruct m; simpl; [discriminate| |]; apply binary_round_not_nan.
Qed.

Lemma SF64mul_not_nan x s m e :
  x <> S754_nan -> SF64mul x (S754_finite s m e) <> S754_nan.
Proof.
  intros Hx. destruct x as [sx|sx| |sx mx ex]; simpl; try discriminate;
    try congruence.
  apply binary_round_aux_not_nan. lia.
Qed.

Lemma SF64div_not_nan x s m e :
  x <> S754_nan -> SF64div x (S754_finite s m e) <> S754_nan.
Proof.
  intros Hx. destruct x as [sx|sx| |sx mx ex]; simpl; try discriminate;
    try congruence.
  unfold SF64div, SFdiv, SFdiv_core_binary.
  match goal with |- context [Z.div_eucl ?a ?b] =>
    pose proof (Z.div_pos a b) as Hq; unfold Z.div in Hq;
    destruct (Z.div_eucl a b) as [q r] eqn:E
  end.
  apply binary_round_aux_not_nan. apply Hq; [|lia].
  destruct (ex - e - _) as [|k|k]; try lia.
  apply Z.shiftl_nonneg. lia.
Qed.

Lemma SF2Prim_not_NaN w : w <> S754_nan -> isNaN (SF2Prim w) = false.
Proof.
  intros Hw.
  destruct (isNaN (SF2Prim w)) eqn:E; [|reflexivity].
  exfalso. apply isNaN_spec in E.
  destruct w as [s|s| |s m e]; try congruence.
  - destruct s; vm_compute in E; discriminate.
  - destruct s; vm_compute in E; discriminate.
  - unfold SF2Prim in E.
    set (pm := of_uint63 (Uint63.of_Z (Z.pos m))) in *.
    assert (F : Prim2SF (Z.ldexp pm e) <> S754_nan).
    { unfold Z.ldexp. rewrite ldshiftexp_spec. unfold SFldexp.
      unfold pm. rewrite of_uint63_spec.
      pose proof (binary_normalize_not_nan
                    (Uint63.to_Z (Uint63.of_Z (Z.pos m))) 0 false) as N.
      destruct (binary_normalize prec emax _ 0 false); try congruence.
      apply binary_round_not_nan. }
    destruct s; [|exact (F E)].
    rewrite opp_spec in E.
    destruct (Prim2SF (Z.ldexp pm e)); simpl in E; congruence.
Qed.

Lemma Z2float_not_NaN z : isNaN (Z2float z) = false.
Proof. apply SF2Prim_not_NaN. apply binary_normalize_not_nan. Qed.

Lemma Math_round_not_NaN x : isNaN x = false -> isNaN (Math_round x) = false.
Proof.
  intros H. unfold Math_round.
  destruct (Prim2SF x) as [s|s| |s m e]; try exact H.
  destruct (0 <=? e); [exact H|].
  destruct (_ =? 0); [destruct s; reflexivity|apply Z2float_not_NaN].
Qed.

Lemma isNaN_false_iff x : isNaN x = false <-> Prim2SF x <> S754_nan.
Proof.
  split; [apply not_NaN|].
  intros H. destruct (isNaN x) eqn:E; [|reflexivity].
  apply isNaN_spec in E. contradiction.
Qed.

Lemma finite_not_NaN x : Number_isFinite x = true -> isNaN x = false.
Proof.
  unfold Number_isFinite. intros H. apply andb_true_iff in H.
  destruct H as [_ H]. apply isNaN_false_iff. intros E.
  rewrite ltb_spec, E in H. discriminate.
Qed.

Lemma hundred_finite : exists m e, Prim2SF 100%float = S754_finite false m e.
Proof. do 2 eexists. vm_compute. reflexivity. Qed.

Lemma mul_100_not_NaN x :
  isNaN x = false -> isNaN (PrimFloat.mul x 100%float) = false.
Proof.
  intros H. apply isNaN_false_iff. rewrite mul_spec.
  destruct hundred_finite as (m & e & ->).
  apply SF64mul_not_nan. apply not_NaN. exact H.
Qed.

Lemma div_100_not_NaN x :
  isNaN x = false -> isNaN (PrimFloat.div x 100%float) = false.
Proof.
  intros H. apply isNaN_false_iff. rewrite div_spec.
  destruct hundred_finite as (m & e & ->).
  apply SF64div_not_nan. apply not_NaN. exact H.
Qed.

End FloatOrder.

(* ================================================================== *)
(** * The format of [toISOString] is read back by [Date.parse] *)
(* ================================================================== *)

Lemma string_app_assoc (a b c : string) :
  ((a ++ b) ++ c = a ++ (b ++ c))%string.
Proof.
  induction a as [|x a IH]; simpl; [reflexivity|]. rewrite IH. reflexivity.
Qed.

Lemma string_app_nil_r (a : string) : (a ++ "" = a)%string.
Proof.
  induction a as [|x a IH]; simpl; [reflexivity|]. rewrite IH. reflexivity.
Qed.

Module JsDateFacts.
Import JsDate.

Lemma digitVal_digit n : digitVal (digit n) = Some (n mod 10).
Proof.
  unfold digitVal, digit.
  assert (H : 0 <= n mod 10 < 10) by (apply Z.mod_pos_bound; lia).
  rewrite nat_ascii_embedding by lia.
  rewrite Nat2Z.inj_add, Z2Nat.id by lia. simpl Z.of_nat.
  replace ((48 <=? 48 + n mod 10) && (48 + n mod 10 <=? 57)) with true.
  - f_equal. lia.
  - symmetry. apply andb_true_iff. split; apply Z.leb_le; lia.
Qed.

(** A digit is no other character. *)
Lemma digit_other n c : digitVal c = None -> Ascii.eqb (digit n) c = false.
Proof.
  intros H. destruct (Ascii.eqb (digit n) c) eqn:E; [|reflexivity].
  apply Ascii.eqb_eq in E. rewrite <- E, digitVal_digit in H. discriminate.
Qed.

Lemma civil_from_days_range z :
  let '(y, m, d) := civil_from_days z in 1 <= m <= 12 /\ 1 <= d <= 31.
Proof.
  unfold civil_from_days.
  repeat match goal with |- context [if ?c then _ else _] => destruct c eqn:? end;
  Z.to_euclidean_division_equations; lia.
Qed.

Lemma days_from_civil_from_days z :
  let '(y, m, d) := civil_from_days z in days_from_civil y m d = z.
Proof.
  unfold civil_from_days, days_from_civil.
  repeat match goal with |- context [if ?c then _ else _] => destruct c eqn:? end;
  Z.to_euclidean_division_equations; lia.
Qed.

(** The years of the time values. *)
Lemma getUTCFullYear_range t :
  Z.abs t <= 8640000000000000 -> -999999 <= getUTCFullYear t <= 999999.
Proof.
  intros Ht. unfold getUTCFullYear, Day, msPerDay.
  assert (Hd : -100000000 <= t / 86400000 <= 100000000)
    by (Z.to_euclidean_division_equations; lia).
  set (z := t / 86400000) in *. clearbody z. clear Ht.
  unfold civil_from_days. cbn [fst].
  repeat match goal with |- context [if ?c then _ else _] => destruct c eqn:? end;
  Z.to_euclidean_division_equations; lia.
Qed.

Lemma fixedDigits_snoc w n rest :
  (fixedDigits (S w) n ++ rest
   = fixedDigits w (n / 10) ++ String (digit n) rest)%string.
Proof. cbn [fixedDigits]. rewrite string_app_assoc. reflexivity. Qed.

(** Reading back the digits that [fixedDigits] wrote. *)
Lemma digits_fixedDigits w : forall v acc rest k,
  digits (w + k) acc (fixedDigits w v ++ rest)
  = digits k (acc * 10 ^ Z.of_nat w + v mod 10 ^ Z.of_nat w) rest.
Proof.
  induction w as [|w IH]; intros v acc rest k.
  - simpl. f_equal. rewrite Z.mod_1_r. lia.
  - rewrite fixedDigits_snoc.
    replace (S w + k)%nat with (w + S k)%nat by lia.
    rewrite IH. cbn [digits]. rewrite digitVal_digit. f_equal.
    rewrite Nat2Z.inj_succ, Z.pow_succ_r by lia.
    assert (P : 0 < 10 ^ Z.of_nat w) by (apply Z.pow_pos_nonneg; lia).
    pose proof (Z.rem_mul_r v 10 (10 ^ Z.of_nat w) ltac:(lia) P) as M.
    rewrite M. lia.
Qed.

Lemma digits_fixed w v rest :
  0 <= v < 10 ^ Z.of_nat w ->
  digits w 0 (fixedDigits w v ++ rest) = Some (v, rest).
Proof.
  intros Hv. replace w with (w + 0)%nat at 1 by lia.
  rewrite digits_fixedDigits. cbn [digits].
  rewrite Z.mod_small by exact Hv. reflexivity.
Qed.

Lemma lit_fixedDigits c w : forall v rest,
  digitVal c = None -> lit c (fixedDigits (S w) v ++ rest) = None.
Proof.
  induction w as [|w IH]; intros v rest Hc; rewrite fixedDigits_snoc.
  - cbn [fixedDigits append lit]. rewrite (digit_other _ _ Hc). reflexivity.
  - apply IH. exact Hc.
Qed.

Lemma between_in lo hi n : lo <= n <= hi -> between lo hi n = true.
Proof.
  intros H. unfold between. apply andb_true_iff. split; apply Z.leb_le; lia.
Qed.

(** The year, as [toISOString] writes it, reads back. *)
Lemma parseYear_written y rest :
  -999999 <= y <= 999999 ->
  parseYear ((if (0 <=? y) && (y <=? 9999) then fixedDigits 4 y
              else (if y <? 0 then "-" else "+") ++ fixedDigits 6 (Z.abs y))
             ++ rest)
  = Some (y, rest).
Proof.
  intros Hy. unfold parseYear.
  destruct ((0 <=? y) && (y <=? 9999)) eqn:E.
  - apply andb_true_iff in E. destruct E as [E1 E2].
    apply Z.leb_le in E1, E2.
    rewrite !lit_fixedDigits by reflexivity.
    apply digits_fixed. change (10 ^ Z.of_nat 4) with 10000. lia.
  - destruct (Z.ltb_spec y 0) as [Hn|Hn].
    + cbn [append lit]. change (Ascii.eqb "-" "+") with false.
      change (Ascii.eqb "-" "-") with true. cbv iota.
      rewrite digits_fixed
        by (change (10 ^ Z.of_nat 6) with 1000000; lia).
      cbn [bind]. destruct (Z.eqb_spec (Z.abs y) 0); [lia|].
      f_equal. f_equal. lia.
    + cbn [append lit]. change (Ascii.eqb "+" "+") with true. cbv iota.
      rewrite digits_fixed
        by (change (10 ^ Z.of_nat 6) with 1000000; lia).
      f_equal. f_equal. lia.
Qed.

Lemma parseFormat_toISOString t :
  Z.abs t <= 8640000000000000 -> parseFormat (toISOString t) = Some (false, t).
Proof.
  intros Ht.
  pose proof (getUTCFullYear_range t Ht) as Hy.
  pose proof (civil_from_days_range (Day t)) as R.
  pose proof (days_from_civil_from_days (Day t)) as RT.
  unfold toISOString. cbv zeta.
  unfold getUTCFullYear, getUTCMonth, getUTCDate in *.
  destruct (civil_from_days (Day t)) as [[y m] d] eqn:Ec.
  cbn [fst snd] in *.
  assert (W : 0 <= TimeWithinDay t < 86400000)
    by (apply Z.mod_pos_bound; reflexivity).
  assert (Et : t = Day t * 86400000 + TimeWithinDay t).
  { unfold Day, TimeWithinDay, msPerDay. rewrite Z.mul_comm.
    apply Z.div_mod. lia. }
  set (w := TimeWithinDay t) in *.
  replace (m - 1 + 1) with m by lia.
  set (h := w / 3600000). set (mi := (w / 60000) mod 60).
  set (se := (w / 1000) mod 60). set (ms := w mod 1000).
  assert (Hh : 0 <= h <= 23)
    by (unfold h; Z.to_euclidean_division_equations; lia).
  assert (Hmi : 0 <= mi <= 59)
    by (unfold mi; Z.to_euclidean_division_equations; lia).
  assert (Hse : 0 <= se <= 59)
    by (unfold se; Z.to_euclidean_division_equations; lia).
  assert (Hms : 0 <= ms <= 999)
    by (unfold ms; Z.to_euclidean_division_equations; lia).
  assert (Hw : h * 3600000 + mi * 60000 + (se * 1000 + ms) = w)
    by (unfold h, mi, se, ms; Z.to_euclidean_division_equations; lia).
  assert (Ex : dateExists y m d = true).
  { unfold dateExists. rewrite RT, Ec, !Z.eqb_refl. reflexivity. }
  unfold parseFormat, parseDate.
  rewrite parseYear_written by exact Hy.
  cbn [bind append lit]. change (Ascii.eqb "-" "-") with true. cbv iota.
  rewrite digits_fixed by (change (10 ^ Z.of_nat 2) with 100; lia).
  cbn [bind]. rewrite between_in by lia.
  cbn [append lit]. change (Ascii.eqb "-" "-") with true. cbv iota.
  rewrite digits_fixed by (change (10 ^ Z.of_nat 2) with 100; lia).
  cbn [bind]. rewrite between_in by lia. rewrite Ex. cbn [andb bind].
  unfold parseTime.
  cbn [append lit bind]. change (Ascii.eqb "T" "T") with true. cbv iota.
  cbn [bind].
  rewrite digits_fixed by (change (10 ^ Z.of_nat 2) with 100; lia).
  cbn [bind append lit]. change (Ascii.eqb ":" ":") with true. cbv iota.
  cbn [bind].
  rewrite digits_fixed by (change (10 ^ Z.of_nat 2) with 100; lia).
  cbn [bind]. unfold parseSeconds.
  cbn [append lit]. change (Ascii.eqb ":" ":") with true. cbv iota.
  rewrite digits_fixed by (change (10 ^ Z.of_nat 2) with 100; lia).
  cbn [bind]. rewrite (between_in 0 59 se) by lia.
  cbn [append lit]. change (Ascii.eqb "." ".") with true. cbv iota.
  rewrite digits_fixed by (change (10 ^ Z.of_nat 3) with 1000; lia).
  cbn [bind]. rewrite (between_in 0 23 h), (between_in 0 59 mi) by lia.
  cbn [andb orb bind]. 
  change (parseZone "Z") with (Some (Some 0)). cbn [bind].
  f_equal. f_equal. rewrite RT. unfold msPerDay. lia.
Qed.

(** [Date.parse(x.toISOString())] is the time value of [x], on every
    host. *)
Lemma toISOString_parse {host : Host} t :
  Z.abs t <= 8640000000000000 -> Date_parse (toISOString t) = Some t.
Proof.
  intros Ht. unfold Date_parse. rewrite (parseFormat_toISOString t Ht).
  unfold TimeClip. destruct (Z.leb_spec (Z.abs t) 8640000000000000);
    [reflexivity|lia].
Qed.

(** A timestamp is never the empty string. *)
Lemma toISOString_truthy t : String.eqb (toISOString t) "" = false.
Proof.
  unfold toISOString.
  destruct ((0 <=? getUTCFullYear t) && (getUTCFullYear t <=? 9999));
    [|destruct (getUTCFullYear t <? 0)]; reflexivity.
Qed.

(** Every valid date is a time value. *)
Lemma Date_parse_in_range {host : Host} s t :
  Date_parse s = Some t -> Z.abs t <= 8640000000000000.
Proof.
  assert (H : forall x, TimeClip x = Some t -> Z.abs t <= 8640000000000000).
  { unfold TimeClip. intros x.
    destruct (Z.leb_spec (Z.abs x) 8640000000000000); intros E;
      inversion E; subst; assumption. }
  unfold Date_parse. destruct (parseFormat s) as [[[|] x]|].
  - apply H.
  - apply H.
  - apply legacyParse_clipped.
Qed.

End JsDateFacts.

(* ================================================================== *)
(** * The host used for evaluation *)
(* ================================================================== *)

Lemma utcHost_clipped (s : string) (t : Z) :
  @None Z = Some t -> Z.abs t <= 8640000000000000.
Proof. discriminate. Qed.

(** A host in the UTC zone that reads the date-time string format
    only. *)
#[export] Instance utcHost : JsDate.Host := {|
  JsDate.UTC_of_local := fun t => t;
  JsDate.legacyParse := fun _ => None;
  JsDate.legacyParse_clipped := utcHost_clipped
|}.

(* ================================================================== *)
(** * The collation used for evaluation *)
(* ================================================================== *)

(** The ordering of strings by code points is a collation. *)
Lemma String_compare_refl (a : string) : String.compare a a = Eq.
Proof.
  induction a as [|c a IH]; simpl; [reflexivity|].
  unfold Ascii.compare. rewrite N.compare_refl. exact IH.
Qed.

Lemma String_compare_le_trans (a b c : string) :
  String.compare a b <> Gt -> String.compare b c <> Gt ->
  String.compare a c <> Gt.
Proof.
  revert b c. induction a as [|x a IH]; intros [|y b] [|z c]; simpl;
    try congruence.
  unfold Ascii.compare.
  destruct (N.compare_spec (N_of_ascii x) (N_of_ascii y)) as [E1|E1|E1];
  destruct (N.compare_spec (N_of_ascii y) (N_of_ascii z)) as [E2|E2|E2];
  destruct (N.compare_spec (N_of_ascii x) (N_of_ascii z)) as [E3|E3|E3];
    try congruence; try lia.
  apply IH.
Qed.

#[export] Instance codePointCollator : JsArray.Collator := {|
  JsArray.localeCompare := String.compare;
  JsArray.localeCompare_antisym := fun a b => String.compare_antisym b a;
  JsArray.localeCompare_trans := String_compare_le_trans
|}.

(* ================================================================== *)
(** * Properties of the metric functions *)
(* ================================================================== *)

Import JsNum JsDate JsArray Types Logic Store.

(** 100 / 3 gives 33.33, the number nearest to it. *)
Example computeROI_100_3 :
  computeROI 100%float 3%float = Some 0x1.0aa3d70a3d70ap+5%float.
Proof. vm_compute. reflexivity. Qed.

Example computeROI_zero_time : computeROI 100%float zero = None.
Proof. vm_compute. reflexivity. Qed.

Example computeROI_nan : computeROI nan one = None.
Proof. vm_compute. reflexivity. Qed.

(** The product by 100 may overflow: the result is then [Infinity], a
    number that is neither [null] nor finite. *)
Example computeROI_overflow :
  computeROI 0x1p+1023%float one = Some infinity.
Proof. vm_compute. reflexivity. Qed.

(** C6.  [computeROI r t] is [null] exactly when [t <= 0], or [r], [t] or
    [r / t] is not finite; in every other case it is
    [Math.round(r / t * 100) / 100]. *)
Theorem computeROI_null_iff (r t : float) :
  (computeROI r t = None <->
     PrimFloat.leb t zero = true
     \/ Number_isFinite r = false
     \/ Number_isFinite t = false
     \/ Number_isFinite (PrimFloat.div r t) = false)
  /\ (computeROI r t <> None ->
      computeROI r t =
        Some (PrimFloat.div
                (Math_round (PrimFloat.mul (PrimFloat.div r t) 100%float))
                100%float)).
Proof.
  unfold computeROI.
  destruct (Number_isFinite r) eqn:Hr; simpl.
  - destruct (Number_isFinite t) eqn:Ht; simpl.
    + destruct (PrimFloat.leb t zero) eqn:Hle; simpl.
      * split; [split; auto | congruence].
      * destruct (Number_isFinite (PrimFloat.div r t)) eqn:Hv; simpl.
        -- split; [|reflexivity].
           split; [discriminate|].
           intros [H|[H|[H|H]]]; discriminate.
        -- split; [split; auto | congruence].
    + split; [split; auto | congruence].
  - split; [split; auto | congruence].
Qed.

(* ================================================================== *)
(** * Properties of the task store *)
(* ================================================================== *)

Definition emptyStore : State := {| tasks := []; lastDeleted := None |}.

(** A task as a form would submit it. *)
Definition newTask (i : option string) (ttl : string) (rev time : float)
  (st : Status) : NewTask :=
  {| n_id := i; n_title := ttl; n_revenue := rev; n_timeTaken := time;
     n_priority := Medium; n_status := st; n_notes := None;
     n_createdAt := ""; n_completedAt := None |}.

Definition emptyPatch : Patch :=
  {| p_id := None; p_title := None; p_revenue := None; p_timeTaken := None;
     p_priority := None; p_status := None; p_notes := None;
     p_createdAt := None; p_completedAt := None |}.

(** 14 November 2023, 22:13:20 UTC. *)
Definition clock : Z := 1700000000000.

(** The scenario of the specification: a task created with [timeTaken]
    0 is stored with 1. *)
Example addTask_clamps_zero :
  map timeTaken
      (tasks (addTask "u1" clock (newTask (Some "A") "A" 100%float zero Todo)
                      emptyStore))
  = [one].
Proof. vm_compute. reflexivity. Qed.

(** Every task that [addTask] stores has a timestamp for [createdAt]. *)
Lemma addTask_createdAt uuid now task s :
  map createdAt (tasks (addTask uuid now task s))
  = (map createdAt (tasks s) ++ [toISOString now])%list
  /\ truthy (toISOString now) = true.
Proof.
  split.
  - unfold addTask. simpl. rewrite map_app. reflexivity.
  - unfold truthy. rewrite JsDateFacts.toISOString_truthy. reflexivity.
Qed.

(** ** The clamp of [timeTaken] *)

Lemma tasks_updateTask now id0 patch s :
  tasks (updateTask now id0 patch s)
  = map (fun t => reclamp id0 patch (applyPatch now id0 patch t)) (tasks s).
Proof. unfold updateTask. simpl. apply map_map. Qed.

Lemma applyPatch_other now id0 patch t :
  String.eqb (id t) id0 = false -> applyPatch now id0 patch t = t.
Proof. intros H. unfold applyPatch. rewrite H. reflexivity. Qed.

Lemma reclamp_other id0 patch t :
  String.eqb (id t) id0 = false -> reclamp id0 patch t = t.
Proof. intros H. unfold reclamp. rewrite H. reflexivity. Qed.

Lemma id_applyPatch now id0 patch t :
  id (applyPatch now id0 patch t)
  = if String.eqb (id t) id0 then orElse (p_id patch) (id t) else id t.
Proof.
  unfold applyPatch. destruct (String.eqb (id t) id0); simpl; [|reflexivity].
  match goal with |- context [if ?c then _ else _] => destruct c end;
    reflexivity.
Qed.

Lemma timeTaken_applyPatch now id0 patch t :
  timeTaken (applyPatch now id0 patch t)
  = if String.eqb (id t) id0 then orElse (p_timeTaken patch) (timeTaken t)
    else timeTaken t.
Proof.
  unfold applyPatch. destruct (String.eqb (id t) id0); simpl; [|reflexivity].
  match goal with |- context [if ?c then _ else _] => destruct c end;
    reflexivity.
Qed.

Lemma createdAt_applyPatch now id0 patch t :
  createdAt (applyPatch now id0 patch t)
  = if String.eqb (id t) id0 then orElse (p_createdAt patch) (createdAt t)
    else createdAt t.
Proof.
  unfold applyPatch. destruct (String.eqb (id t) id0); simpl; [|reflexivity].
  match goal with |- context [if ?c then _ else _] => destruct c end;
    reflexivity.
Qed.

Lemma id_reclamp id0 patch t : id (reclamp id0 patch t) = id t.
Proof.
  unfold reclamp.
  match goal with |- context [if ?c then _ else _] => destruct c end;
    reflexivity.
Qed.

Lemma createdAt_reclamp id0 patch t :
  createdAt (reclamp id0 patch t) = createdAt t.
Proof.
  unfold reclamp.
  match goal with |- context [if ?c then _ else _] => destruct c end;
    reflexivity.
Qed.

(** C10.  The clamp fires only on a value that compares [<= 0]: a value
    [v] for which [v <= 0] is false is stored as it is, by [addTask] when
    it is the task's [timeTaken], and by [updateTask] in every task the
    update matches when it is the patched or the resulting [timeTaken].
    [NaN] is such a value. *)
Theorem clamp_only_when_le_zero (v : float) :
  PrimFloat.leb v zero = false ->
  (forall uuid now task s,
      n_timeTaken task = v ->
      map timeTaken (tasks (addTask uuid now task s))
      = (map timeTaken (tasks s) ++ [v])%list)
  /\ (forall now id0 patch s t,
      In t (tasks s) -> id t = id0 ->
      orElse (p_timeTaken patch) (timeTaken t) = v ->
      timeTaken (reclamp id0 patch (applyPatch now id0 patch t)) = v
      /\ In (reclamp id0 patch (applyPatch now id0 patch t))
            (tasks (updateTask now id0 patch s))).
Proof.
  intros Hv. split.
  - intros uuid now task s E. unfold addTask. simpl.
    rewrite map_app. simpl. rewrite E, Hv. reflexivity.
  - intros now id0 patch s t Hin Hid E. split.
    + assert (Hm : timeTaken (applyPatch now id0 patch t) = v).
      { rewrite timeTaken_applyPatch, Hid, String.eqb_refl. exact E. }
      unfold reclamp.
      assert (Ho : orElse (p_timeTaken patch)
                          (timeTaken (applyPatch now id0 patch t)) = v).
      { destruct (p_timeTaken patch) as [w|]; simpl in *; [exact E|exact Hm]. }
      rewrite Ho, Hv, andb_false_r. exact Hm.
    + rewrite tasks_updateTask.
      apply (in_map (fun t => reclamp id0 patch (applyPatch now id0 patch t))).
      exact Hin.
Qed.

(** [NaN <= 0] is false, so a [NaN] goes through both handlers. *)
Lemma clamp_lets_NaN_through :
  PrimFloat.leb nan zero = false
  /\ map timeTaken
         (tasks (addTask "u1" clock (newTask (Some "A") "A" 100%float nan Todo)
                         emptyStore))
     = [nan].
Proof.
  split; [reflexivity|].
  exact (proj1 (clamp_only_when_le_zero nan eq_refl) "u1" clock
               (newTask (Some "A") "A" 100%float nan Todo) emptyStore eq_refl).
Defined.

(** C2.  [timeTaken] does not stay above 0 through every sequence of
    [addTask] and [updateTask]: a patch that renames the task escapes the
    second pass of [updateTask], which looks for the old [id], and a
    [NaN] escapes the comparison in both handlers. *)
Theorem timeTaken_invariant_broken :
  let s1 := addTask "u1" clock (newTask (Some "a") "A" 100%float 5%float Todo)
                    emptyStore in
  let patch :=
    {| p_id := Some "b"; p_title := None; p_revenue := None;
       p_timeTaken := Some (-5)%float; p_priority := None; p_status := None;
       p_notes := None; p_createdAt := None; p_completedAt := None |} in
  let s2 := updateTask clock "a" patch s1 in
  map timeTaken (tasks s1) = [5%float]
  /\ map id (tasks s2) = ["b"]
  /\ map timeTaken (tasks s2) = [(-5)%float]
  /\ PrimFloat.ltb zero (-5)%float = false
  /\ map timeTaken
         (tasks (addTask "u2" clock (newTask None "B" 100%float nan Todo) s2))
     = [(-5)%float; nan]
  /\ PrimFloat.ltb zero nan = false.
Proof. vm_compute. repeat split; reflexivity. Qed.

(** Where the invariant does hold: the numbers are not [NaN] and the patch
    does not rename the task. *)
Definition positiveTime (t : Task) : Prop :=
  PrimFloat.ltb zero (timeTaken t) = true.

Lemma not_le_zero_positive v :
  isNaN v = false -> PrimFloat.leb v zero = false ->
  PrimFloat.ltb zero v = true.
Proof.
  intros Hn Hle.
  apply (FloatOrder.ltb_fkey zero v eq_refl Hn).
  apply FloatOrder.lexcmp_Gt.
  destruct (FloatOrder.lexcmp (FloatOrder.fkey v) (FloatOrder.fkey zero)) eqn:C;
    [| |reflexivity];
    exfalso;
    assert (L : PrimFloat.leb v zero = true)
      by (apply (FloatOrder.leb_fkey v zero Hn eq_refl); rewrite C; discriminate);
    congruence.
Qed.

Lemma addTask_keeps_positive uuid now task s :
  isNaN (n_timeTaken task) = false ->
  Forall positiveTime (tasks s) ->
  Forall positiveTime (tasks (addTask uuid now task s)).
Proof.
  intros Hn Hs. unfold addTask. simpl. apply Forall_app. split; [exact Hs|].
  constructor; [|constructor]. unfold positiveTime. simpl.
  destruct (PrimFloat.leb (n_timeTaken task) zero) eqn:E; [reflexivity|].
  apply not_le_zero_positive; assumption.
Qed.

Lemma updateTask_keeps_positive now id0 patch s :
  p_id patch = None ->
  (forall v, p_timeTaken patch = Some v -> isNaN v = false) ->
  Forall positiveTime (tasks s) ->
  Forall positiveTime (tasks (updateTask now id0 patch s)).
Proof.
  intros Hid Hn Hs. rewrite tasks_updateTask.
  apply Forall_forall. intros t' Ht'. apply in_map_iff in Ht'.
  destruct Ht' as (t & <- & Ht).
  rewrite Forall_forall in Hs. specialize (Hs t Ht). unfold positiveTime in *.
  destruct (String.eqb (id t) id0) eqn:E.
  - assert (Em : id (applyPatch now id0 patch t) = id0).
    { rewrite id_applyPatch, E, Hid. simpl. apply String.eqb_eq. exact E. }
    assert (Tm : timeTaken (applyPatch now id0 patch t)
                 = orElse (p_timeTaken patch) (timeTaken t)).
    { rewrite timeTaken_applyPatch, E. reflexivity. }
    unfold reclamp. rewrite Em, String.eqb_refl. simpl andb.
    assert (Eo : orElse (p_timeTaken patch)
                        (timeTaken (applyPatch now id0 patch t))
                 = orElse (p_timeTaken patch) (timeTaken t)).
    { destruct (p_timeTaken patch); [reflexivity|exact Tm]. }
    rewrite Eo.
    destruct (PrimFloat.leb (orElse (p_timeTaken patch) (timeTaken t)) zero)
      eqn:L; [reflexivity|].
    rewrite Tm. apply not_le_zero_positive; [|exact L].
    destruct (p_timeTaken patch) as [v|] eqn:Ep; simpl.
    + apply Hn. reflexivity.
    + destruct (isNaN (timeTaken t)) eqn:N; [|reflexivity].
      exfalso. apply FloatOrder.isNaN_spec in N.
      rewrite ltb_spec, N in Hs.
      destruct (Prim2SF zero); discriminate.
  - rewrite applyPatch_other, reclamp_other by exact E. exact Hs.
Qed.

(** ** Update leaves [id] and [createdAt] alone unless the patch names them *)

Definition sampleTask (i ttl : string) : Task :=
  {| id := i; title := ttl; revenue := 100%float; timeTaken := 2%float;
     priority := Medium; status := Todo; notes := None;
     createdAt := "2024-01-01T00:00:00.000Z"; completedAt := None |}.

Definition renamePatch : Patch :=
  {| p_id := Some "b"; p_title := None; p_revenue := None;
     p_timeTaken := None; p_priority := None; p_status := None;
     p_notes := None; p_createdAt := Some "1999-12-31T00:00:00.000Z";
     p_completedAt := None |}.

(** A patch with the keys [id] and [createdAt] overwrites both fields. *)
Lemma updateTask_overwrites_id_createdAt :
  let s := {| tasks := [sampleTask "a" "A"]; lastDeleted := None |} in
  map id (tasks (updateTask clock "a" renamePatch s)) = ["b"]
  /\ map createdAt (tasks (updateTask clock "a" renamePatch s))
     = ["1999-12-31T00:00:00.000Z"]
  /\ map id (tasks (updateTask clock "a" renamePatch s)) <> map id (tasks s)
  /\ map createdAt (tasks (updateTask clock "a" renamePatch s))
     <> map createdAt (tasks s).
Proof. vm_compute. repeat split; discriminate. Qed.

(** C5, amended.  [updateTask] keeps every task in its place.  A task the
    update does not match is unchanged altogether.  In the task it
    matches, a key of the patch overwrites the field: [id] and
    [createdAt] become those of the patch when the patch has the key,
    and are unchanged when it has not.  So the [id]s of the store are
    unchanged by a patch without the key [id], and the [createdAt]s by a
    patch without the key [createdAt]. *)
Theorem updateTask_keeps_id_createdAt now id0 patch s :
  (forall i t,
     nth_error (tasks s) i = Some t ->
     exists t',
       nth_error (tasks (updateTask now id0 patch s)) i = Some t'
       /\ (id t <> id0 -> t' = t)
       /\ (id t = id0 ->
           id t' = match p_id patch with
                   | Some v => v
                   | None => id t
                   end
           /\ createdAt t' = match p_createdAt patch with
                             | Some c => c
                             | None => createdAt t
                             end))
  /\ List.length (tasks (updateTask now id0 patch s)) = List.length (tasks s)
  /\ (p_id patch = None ->
      map id (tasks (updateTask now id0 patch s)) = map id (tasks s))
  /\ (p_createdAt patch = None ->
      map createdAt (tasks (updateTask now id0 patch s))
      = map createdAt (tasks s)).
Proof.
  rewrite tasks_updateTask. split; [|split; [|split]].
  - intros i t Hi.
    exists (reclamp id0 patch (applyPatch now id0 patch t)).
    split; [rewrite nth_error_map, Hi; reflexivity|].
    split.
    + intros H. apply String.eqb_neq in H.
      rewrite applyPatch_other by exact H. apply reclamp_other. exact H.
    + intros H. apply String.eqb_eq in H.
      rewrite id_reclamp, id_applyPatch, createdAt_reclamp,
        createdAt_applyPatch, H.
      split; [destruct (p_id patch)|destruct (p_createdAt patch)];
        reflexivity.
  - apply length_map.
  - intros H. rewrite map_map. apply map_ext. intros t.
    rewrite id_reclamp, id_applyPatch, H. simpl.
    destruct (String.eqb (id t) id0); reflexivity.
  - intros H. rewrite map_map. apply map_ext. intros t.
    rewrite createdAt_reclamp, createdAt_applyPatch, H. simpl.
    destruct (String.eqb (id t) id0); reflexivity.
Qed.

Lemma updateTask_keeps_id_createdAt_witness :
  let s := {| tasks := [sampleTask "a" "A"; sampleTask "c" "C"];
              lastDeleted := None |} in
  let patch :=
    {| p_id := None; p_title := Some "renamed"; p_revenue := None;
       p_timeTaken := Some zero; p_priority := None; p_status := Some Done;
       p_notes := None; p_createdAt := Some "1999-12-31T00:00:00.000Z";
       p_completedAt := None |} in
  map id (tasks (updateTask clock "a" patch s)) = ["a"; "c"]
  /\ (exists t',
        nth_error (tasks (updateTask clock "a" patch s)) 0 = Some t'
        /\ id t' = "a" /\ createdAt t' = "1999-12-31T00:00:00.000Z")
  /\ nth_error (tasks (updateTask clock "a" patch s)) 1
     = Some (sampleTask "c" "C").
Proof.
  intros s patch.
  destruct (updateTask_keeps_id_createdAt clock "a" patch s)
    as (P & _ & I & _).
  split; [exact (I eq_refl)|]. split.
  - destruct (P 0%nat (sampleTask "a" "A") eq_refl) as (t' & E & _ & M).
    exists t'. split; [exact E|]. exact (M eq_refl).
  - destruct (P 1%nat (sampleTask "c" "C") eq_refl) as (t' & E & O & _).
    rewrite E. f_equal. apply O. discriminate.
Defined.

(** ** Delete and undo *)

Lemma filter_all {A : Type} (p : A -> bool) (l : list A) :
  (forall x, In x l -> p x = true) -> filter p l = l.
Proof.
  induction l as [|x l IH]; simpl; intros H; [reflexivity|].
  rewrite (H x) by (left; reflexivity).
  f_equal. apply IH. intros y Hy. apply H. right. exact Hy.
Qed.

Lemma find_none_iff {A : Type} (p : A -> bool) (l : list A) :
  (forall x, In x l -> p x = false) -> List.find p l = None.
Proof.
  induction l as [|x l IH]; simpl; intros H; [reflexivity|].
  rewrite (H x) by (left; reflexivity).
  apply IH. intros y Hy. apply H. right. exact Hy.
Qed.

(** Deleting an [id] that is not there clears a staged record. *)
Lemma deleteTask_missing_clears_buffer :
  let s := {| tasks := [sampleTask "a" "A"];
              lastDeleted := Some (sampleTask "b" "B") |} in
  (forall t, In t (tasks s) -> id t <> "zzz")
  /\ tasks (deleteTask "zzz" s) = tasks s
  /\ lastDeleted (deleteTask "zzz" s) = None
  /\ lastDeleted (deleteTask "zzz" s) <> lastDeleted s.
Proof.
  simpl. repeat split; try discriminate.
  intros t [E|[]] H. subst t. discriminate.
Qed.

(** C3, amended.  For an [id] that no task of the collection has,
    [deleteTask] leaves the collection as it is and sets [lastDeleted] to
    [null]. *)
Theorem deleteTask_missing_id id0 s :
  (forall t, In t (tasks s) -> id t <> id0) ->
  tasks (deleteTask id0 s) = tasks s
  /\ lastDeleted (deleteTask id0 s) = None.
Proof.
  intros H.
  assert (Hf : forall t, In t (tasks s) -> String.eqb (id t) id0 = false).
  { intros t Ht. apply String.eqb_neq. apply H. exact Ht. }
  unfold deleteTask. simpl. split.
  - apply filter_all. intros t Ht. rewrite (Hf t Ht). reflexivity.
  - unfold find. apply find_none_iff. exact Hf.
Qed.

Lemma deleteTask_missing_id_witness :
  tasks (deleteTask "zzz" {| tasks := [sampleTask "a" "A"];
                             lastDeleted := Some (sampleTask "b" "B") |})
  = [sampleTask "a" "A"]
  /\ lastDeleted (deleteTask "zzz" {| tasks := [sampleTask "a" "A"];
                                      lastDeleted := Some (sampleTask "b" "B") |})
     = None.
Proof.
  apply (deleteTask_missing_id "zzz"
           {| tasks := [sampleTask "a" "A"];
              lastDeleted := Some (sampleTask "b" "B") |}).
  intros t [E|[]]. subst t. simpl. discriminate.
Defined.

Lemma find_unique_id (l : list Task) (a : Task) :
  NoDup (map id l) -> In a l ->
  List.find (fun t => String.eqb (id t) (id a)) l = Some a.
Proof.
  induction l as [|x l IH]; simpl; intros Hnd Hin; [contradiction|].
  inversion Hnd as [|? ? Hx Hl]; subst.
  destruct Hin as [E|Hin].
  - subst x. rewrite String.eqb_refl. reflexivity.
  - destruct (String.eqb (id x) (id a)) eqn:E.
    + apply String.eqb_eq in E. exfalso. apply Hx. rewrite E.
      apply in_map. exact Hin.
    + apply IH; assumption.
Qed.

Lemma filter_unique_id (l : list Task) (a : Task) :
  NoDup (map id l) -> In a l ->
  ~ In a (filter (fun t => negb (String.eqb (id t) (id a))) l)
  /\ Permutation (filter (fun t => negb (String.eqb (id t) (id a))) l ++ [a]) l.
Proof.
  intros Hnd Hin. split.
  - intros H. apply filter_In in H. destruct H as [_ H].
    rewrite String.eqb_refl in H. discriminate.
  - induction l as [|x l IH]; simpl in *; [contradiction|].
    inversion Hnd as [|? ? Hx Hl]; subst.
    destruct Hin as [E|Hin].
    + subst x. rewrite String.eqb_refl. simpl.
      rewrite filter_all.
      * apply Permutation_sym. apply Permutation_cons_append.
      * intros t Ht. destruct (String.eqb (id t) (id a)) eqn:E; [|reflexivity].
        apply String.eqb_eq in E. exfalso. apply Hx. rewrite <- E.
        apply in_map. exact Ht.
    + destruct (String.eqb (id x) (id a)) eqn:E.
      * apply String.eqb_eq in E. exfalso. apply Hx. rewrite E.
        apply in_map. exact Hin.
      * simpl. apply perm_skip. apply IH; assumption.
Qed.

(** Two tasks added under one [id]: deleting it removes both, and undo
    brings back the first only. *)
Lemma undoDelete_loses_duplicates :
  let s := addTask "u2" clock (newTask (Some "a") "second" 50%float 1%float Todo)
             (addTask "u1" clock (newTask (Some "a") "first" 100%float 2%float Todo)
                emptyStore) in
  let s' := undoDelete (deleteTask "a" s) in
  map title (tasks s) = ["first"; "second"]
  /\ map title (tasks (deleteTask "a" s)) = []
  /\ map title (tasks s') = ["first"]
  /\ ~ Permutation (tasks s') (tasks s).
Proof.
  simpl. repeat split.
  intros H. apply Permutation_length in H. simpl in H. discriminate.
Qed.

(** C8, amended.  In a store whose tasks have pairwise different [id]s,
    deleting a task [a] of the collection stages [a] in [lastDeleted] and
    removes it; [undoDelete] then appends [a] at the end of the collection
    and clears [lastDeleted], and the collection has its contents from
    before the deletion. *)
Theorem delete_then_undo s a :
  NoDup (map id (tasks s)) -> In a (tasks s) ->
  let s1 := deleteTask (id a) s in
  let s2 := undoDelete s1 in
  lastDeleted s1 = Some a
  /\ ~ In a (tasks s1)
  /\ tasks s2 = (tasks s1 ++ [a])%list
  /\ lastDeleted s2 = None
  /\ Permutation (tasks s2) (tasks s).
Proof.
  intros Hnd Hin s1 s2.
  assert (F : lastDeleted s1 = Some a).
  { unfold s1, deleteTask, find. simpl. apply find_unique_id; assumption. }
  destruct (filter_unique_id (tasks s) a Hnd Hin) as [Hout Hperm].
  assert (E : s2 = {| tasks := (tasks s1 ++ [a])%list; lastDeleted := None |}).
  { unfold s2, undoDelete. rewrite F. reflexivity. }
  split; [exact F|]. split; [exact Hout|].
  rewrite E. simpl. repeat split. exact Hperm.
Qed.

Lemma delete_then_undo_witness :
  let s := {| tasks := [sampleTask "a" "A"; sampleTask "b" "B";
                        sampleTask "c" "C"];
              lastDeleted := None |} in
  lastDeleted (deleteTask "b" s) = Some (sampleTask "b" "B")
  /\ tasks (undoDelete (deleteTask "b" s))
     = [sampleTask "a" "A"; sampleTask "c" "C"; sampleTask "b" "B"]
  /\ lastDeleted (undoDelete (deleteTask "b" s)) = None.
Proof.
  intros s.
  assert (Hnd : NoDup (map id (tasks s))).
  { simpl. repeat constructor; simpl; intuition discriminate. }
  assert (Hin : In (sampleTask "b" "B") (tasks s)).
  { simpl. right. left. reflexivity. }
  pose proof (delete_then_undo s (sampleTask "b" "B") Hnd Hin) as H.
  simpl in H. destruct H as (H1 & _ & H3 & H4 & _).
  repeat split; assumption.
Defined.

(* ================================================================== *)
(** * Properties of the normalisation *)
(* ================================================================== *)

Lemma nth_error_mapiFrom {A B : Type} (f : A -> nat -> B) (l : list A) :
  forall k i,
    nth_error (mapiFrom f k l) i
    = option_map (fun x => f x (k + i)%nat) (nth_error l i).
Proof.
  induction l as [|x l IH]; intros k i.
  - destruct i; reflexivity.
  - destruct i as [|i]; simpl.
    + rewrite Nat.add_0_r. reflexivity.
    + rewrite IH. rewrite Nat.add_succ_r. reflexivity.
Qed.

Lemma nth_error_mapi {A B : Type} (f : A -> nat -> B) (l : list A) i :
  nth_error (mapi f l) i = option_map (fun x => f x i) (nth_error l i).
Proof. unfold mapi. rewrite nth_error_mapiFrom. reflexivity. Qed.

Lemma sequence_nth_error {A : Type} (xs : list (option A)) :
  forall l i o,
    sequence xs = Some l -> nth_error xs i = Some o ->
    exists x, o = Some x /\ nth_error l i = Some x.
Proof.
  induction xs as [|[x|] xs IH]; intros l i o Hs Hn.
  - destruct i; discriminate.
  - simpl in Hs. destruct (sequence xs) as [l'|] eqn:E; [|discriminate].
    inversion Hs; subst l. destruct i as [|i]; simpl in *.
    + inversion Hn; subst. exists x. split; reflexivity.
    + apply (IH l' i o eq_refl Hn).
  - discriminate.
Qed.

Lemma sequence_all_some {A : Type} (xs : list (option A)) :
  (forall i o, nth_error xs i = Some o -> o <> None) ->
  exists l, sequence xs = Some l /\ List.length l = List.length xs.
Proof.
  induction xs as [|[x|] xs IH]; intros H.
  - exists []. split; reflexivity.
  - destruct IH as (l & E & L).
    { intros i o Hi. apply (H (S i) o). exact Hi. }
    exists (x :: l). simpl. rewrite E, L. split; reflexivity.
  - exfalso. apply (H 0%nat None); reflexivity.
Qed.

Section NormaliseFacts.
Context {host : Host}.

(** A record that [normalizeTask] accepts: its [created] date is valid,
    and so is the day after it when the completion date is inferred. *)
Definition normalizes (now : Z) (t : RawTask) (idx : nat) : Prop :=
  exists c, createdOf now t idx = Some c
    /\ (truthyOpt (r_completedAt t) = false -> r_status t = Done ->
        TimeClip (c + 24 * 3600 * 1000) <> None).

Lemma normalizeTask_some uuid now t idx c :
  createdOf now t idx = Some c ->
  (truthyOpt (r_completedAt t) = false -> r_status t = Done ->
   TimeClip (c + 24 * 3600 * 1000) <> None) ->
  exists t', normalizeTask uuid now t idx = Some t'
             /\ createdAt t' = toISOString c.
Proof.
  intros Hc Hd. unfold normalizeTask. rewrite Hc.
  change (24 * 3600 * 1000) with 86400000 in *.
  destruct (truthyOpt (r_completedAt t)) eqn:Et.
  - eexists. split; reflexivity.
  - destruct (r_status t) eqn:Es; simpl;
      try (eexists; split; reflexivity).
    destruct (TimeClip (c + 86400000)) as [d|] eqn:Ed.
    + simpl. eexists. split; reflexivity.
    + exfalso. apply Hd; reflexivity.
Qed.

Lemma normalizeTask_createdAt uuid now t idx t' :
  normalizeTask uuid now t idx = Some t' ->
  exists c, createdOf now t idx = Some c /\ createdAt t' = toISOString c.
Proof.
  unfold normalizeTask. destruct (createdOf now t idx) as [c|]; [|discriminate].
  intros H. exists c. split; [reflexivity|].
  destruct (if truthyOpt (r_completedAt t) then _ else _) as [cc|];
    [|discriminate].
  inversion H. reflexivity.
Qed.

Lemma createdOf_missing now t idx c :
  truthyOpt (r_createdAt t) = false ->
  createdOf now t idx = Some c ->
  c = now - (Z.of_nat idx + 1) * 86400000.
Proof.
  unfold createdOf, TimeClip. intros ->.
  match goal with |- context [if ?b then _ else _] => destruct b end;
    intros H; inversion H; lia.
Qed.

Lemma createdOf_in_range now t idx c :
  createdOf now t idx = Some c -> Z.abs c <= 8640000000000000.
Proof.
  unfold createdOf. destruct (truthyOpt (r_createdAt t)).
  - destruct (r_createdAt t) as [s|]; [|discriminate].
    apply JsDateFacts.Date_parse_in_range.
  - unfold TimeClip.
    match goal with |- context [Z.abs ?x <=? _] =>
      destruct (Z.leb_spec (Z.abs x) 8640000000000000)
    end; intros E; inversion E; subst; assumption.
Qed.


End NormaliseFacts.

Definition rawTask (i : option string) (created : option string) : RawTask :=
  {| r_id := i; r_title := Some "t"; r_revenue := Num 10%float;
     r_timeTaken := Num 2%float; r_priority := Low; r_status := Todo;
     r_notes := None; r_createdAt := created; r_completedAt := None |}.



(* ================================================================== *)
(** * Sorting with a consistent comparator *)
(* ================================================================== *)

(** Two comparisons in sequence: the second breaks the ties of the first. *)
Definition thenBy {A : Type} (c1 c2 : A -> A -> comparison) (x y : A)
  : comparison :=
  match c1 x y with
  | Eq => c2 x y
  | r => r
  end.

(** All that consistency says of three values. *)
Ltac consistency c Ha Ht x y z :=
  pose proof (Ha x y); pose proof (Ha x z); pose proof (Ha y z);
  pose proof (Ht x y z); pose proof (Ht x z y); pose proof (Ht y x z);
  pose proof (Ht y z x); pose proof (Ht z x y); pose proof (Ht z y x);
  destruct (c x y), (c y x), (c x z), (c z x), (c y z), (c z y);
  simpl in *; try congruence; exfalso;
  repeat match goal with
         | H : ?a <> Gt -> _ |- _ =>
             first [ specialize (H ltac:(discriminate)) | clear H ]
         end;
  congruence.

Lemma consistent_Eq_left {A : Type} (c : A -> A -> comparison) x y z :
  consistent c -> c x y = Eq -> c x z = c y z.
Proof. intros [Ha Ht] E. consistency c Ha Ht x y z. Qed.

Lemma consistent_Eq_right {A : Type} (c : A -> A -> comparison) x y z :
  consistent c -> c y z = Eq -> c x y = c x z.
Proof. intros [Ha Ht] E. consistency c Ha Ht x y z. Qed.

Lemma consistent_Lt_trans {A : Type} (c : A -> A -> comparison) x y z :
  consistent c -> c x y = Lt -> c y z = Lt -> c x z = Lt.
Proof. intros [Ha Ht] E1 E2. consistency c Ha Ht x y z. Qed.

Lemma consistent_thenBy {A : Type} (c1 c2 : A -> A -> comparison) :
  consistent c1 -> consistent c2 -> consistent (thenBy c1 c2).
Proof.
  intros H1 H2. split.
  - intros x y. unfold thenBy. rewrite (proj1 H1 x y).
    destruct (c1 x y); simpl; [apply (proj1 H2)|reflexivity|reflexivity].
  - intros x y z. unfold thenBy.
    destruct (c1 x y) eqn:Cxy; [| |congruence].
    + rewrite (consistent_Eq_left c1 x y z H1 Cxy).
      destruct (c1 y z); [apply (proj2 H2)|discriminate|congruence].
    + destruct (c1 y z) eqn:Cyz; [| |congruence].
      * rewrite <- (consistent_Eq_right c1 x y z H1 Cyz), Cxy. discriminate.
      * rewrite (consistent_Lt_trans c1 x y z H1 Cxy Cyz). discriminate.
Qed.

(** A comparison read through a key, and one read backwards. *)
Lemma consistent_on {A B : Type} (f : A -> B) (c : B -> B -> comparison) :
  consistent c -> consistent (fun x y => c (f x) (f y)).
Proof. intros [Ha Ht]. split; intros; [apply Ha|eapply Ht; eassumption]. Qed.

Lemma consistent_flip {A : Type} (c : A -> A -> comparison) :
  consistent c -> consistent (fun x y => c y x).
Proof.
  intros [Ha Ht]. split; intros; [apply Ha|]. eapply Ht; eassumption.
Qed.

Lemma consistent_lexcmp : consistent FloatOrder.lexcmp.
Proof.
  split; [intros; apply FloatOrder.lexcmp_antisym|].
  exact FloatOrder.lexcmp_le_trans.
Qed.

Lemma consistent_localeCompare {collator : Collator} :
  consistent localeCompare.
Proof.
  split; [intros; apply localeCompare_antisym|exact localeCompare_trans].
Qed.

Section SortFacts.
Context {engine : Engine} {A : Type}.
Variable cmp : A -> A -> float.

Lemma insertBy_perm x l : Permutation (insertBy cmp x l) (x :: l).
Proof.
  induction l as [|h t IH]; simpl; [apply Permutation_refl|].
  destruct (jsSign (cmp x h)); try apply Permutation_refl.
  apply Permutation_trans with (h :: x :: t).
  - apply perm_skip. exact IH.
  - apply perm_swap.
Qed.

Lemma sortBy_perm l : Permutation (sortBy cmp l) l.
Proof.
  induction l as [|x l IH]; simpl; [apply perm_nil|].
  apply Permutation_trans with (x :: sortBy cmp l).
  - apply insertBy_perm.
  - apply perm_skip. exact IH.
Qed.

Lemma sortBy_length l : List.length (sortBy cmp l) = List.length l.
Proof. apply Permutation_length. apply sortBy_perm. Qed.

(** On the values that satisfy [P] the comparator has the sign of a
    consistent comparison [c]. *)
Variable P : A -> Prop.
Variable c : A -> A -> comparison.
Hypothesis c_consistent : consistent c.
Hypothesis cmp_sign : forall x y, P x -> P y -> jsSign (cmp x y) = c x y.

(** Every element is at or before each element behind it. *)
Definition ordered (l : list A) : Prop :=
  StronglySorted (fun x y => c x y <> Gt) l.

Lemma insertBy_ordered x l :
  P x -> Forall P l -> ordered l -> ordered (insertBy cmp x l).
Proof.
  intros Px. induction l as [|h t IH]; intros Pl Hs; simpl.
  - constructor; constructor.
  - inversion Pl as [|? ? Ph Pt]; subst.
    inversion Hs as [|? ? Hst Hh]; subst.
    rewrite (cmp_sign x h Px Ph).
    destruct (c x h) eqn:Cxh.
    + constructor; [exact Hs|].
      constructor; [congruence|].
      apply Forall_forall. intros y Hy.
      rewrite Forall_forall in Hh.
      apply (proj2 c_consistent x h y); [congruence|apply Hh; exact Hy].
    + constructor; [exact Hs|].
      constructor; [congruence|].
      apply Forall_forall. intros y Hy.
      rewrite Forall_forall in Hh.
      apply (proj2 c_consistent x h y); [congruence|apply Hh; exact Hy].
    + constructor; [apply IH; assumption|].
      apply Forall_forall. intros y Hy.
      apply (Permutation_in _ (insertBy_perm x t)) in Hy.
      destruct Hy as [E|Hy].
      * subst y. rewrite (proj1 c_consistent x h), Cxh. discriminate.
      * rewrite Forall_forall in Hh. apply Hh. exact Hy.
Qed.

Lemma sortBy_ordered l : Forall P l -> ordered (sortBy cmp l).
Proof.
  induction l as [|x l IH]; intros Pl; simpl; [constructor|].
  inversion Pl as [|? ? Px Pl']; subst.
  apply insertBy_ordered; [exact Px| |apply IH; exact Pl'].
  apply Forall_forall. intros y Hy.
  apply (Permutation_in _ (sortBy_perm l)) in Hy.
  rewrite Forall_forall in Pl'. apply Pl'. exact Hy.
Qed.

Lemma sortBy_fixed l : Forall P l -> ordered l -> sortBy cmp l = l.
Proof.
  induction l as [|x l IH]; intros Pl Hs; simpl; [reflexivity|].
  inversion Pl as [|? ? Px Pl']; subst.
  inversion Hs as [|? ? Hst Hx]; subst.
  rewrite (IH Pl' Hst).
  destruct l as [|h t]; [reflexivity|]. simpl.
  inversion Pl' as [|? ? Ph _]; subst.
  inversion Hx as [|? ? Hxh _]; subst.
  rewrite (cmp_sign x h Px Ph).
  destruct (c x h); congruence.
Qed.

Lemma sortBy_idempotent l :
  Forall P l -> sortBy cmp (sortBy cmp l) = sortBy cmp l.
Proof.
  intros Pl. apply sortBy_fixed; [|apply sortBy_ordered; exact Pl].
  apply Forall_forall. intros y Hy.
  apply (Permutation_in _ (sortBy_perm l)) in Hy.
  rewrite Forall_forall in Pl. apply Pl. exact Hy.
Qed.

Lemma ordered_nth l :
  ordered l ->
  forall i j x y, (i < j)%nat ->
    nth_error l i = Some x -> nth_error l j = Some y -> c x y <> Gt.
Proof.
  induction 1 as [|h t Hs IH Hh]; intros i j x y Hij Hi Hj.
  - destruct i; discriminate.
  - destruct j as [|j]; [lia|]. simpl in Hj.
    destruct i as [|i]; simpl in Hi.
    + inversion Hi; subst. rewrite Forall_forall in Hh. apply Hh.
      apply nth_error_In with j. exact Hj.
    + apply (IH i j); [lia|assumption|assumption].
Qed.

(** With such a comparator every engine returns what [sortBy] does. *)
Lemma Array_sort_sortBy l : Forall P l -> Array_sort cmp l = sortBy cmp l.
Proof.
  intros H. apply (Array_sort_consistent A cmp c l c_consistent).
  intros x y Hx Hy. rewrite Forall_forall in H. apply cmp_sign; auto.
Qed.

Lemma Array_sort_ordered l : Forall P l -> ordered (Array_sort cmp l).
Proof.
  intros H. rewrite (Array_sort_sortBy l H). apply sortBy_ordered. exact H.
Qed.

Lemma Array_sort_idempotent l :
  Forall P l -> Array_sort cmp (Array_sort cmp l) = Array_sort cmp l.
Proof.
  intros H. rewrite (Array_sort_sortBy l H).
  assert (H' : Forall P (sortBy cmp l)).
  { apply Forall_forall. intros y Hy.
    apply (Permutation_in _ (sortBy_perm l)) in Hy.
    rewrite Forall_forall in H. apply H. exact Hy. }
  rewrite (Array_sort_sortBy _ H'). apply sortBy_idempotent. exact H.
Qed.

End SortFacts.

(** ** The engine used for evaluation *)

#[export] Instance insertionSort : Engine := {|
  Array_sort := @sortBy;
  Array_sort_perm := @sortBy_perm;
  Array_sort_consistent := fun A cmp c l _ _ => eq_refl
|}.


(* ================================================================== *)
(** * Properties of the analytics *)
(* ================================================================== *)

Definition doneTask (i : string) (rev : float) (created completed : string)
  (p : Priority) : Task :=
  {| id := i; title := i; revenue := rev; timeTaken := 2%float;
     priority := p; status := Done; notes := None;
     createdAt := created; completedAt := Some completed |}.

(** ** Weekly throughput *)

(** Monday 8 January 2024 is in week 2, Monday 4 March 2024 in week 10. *)
Example getWeekNumber_examples :
  getWeekNumber (Date_parse "2024-01-08T10:00:00.000Z") = 2%float
  /\ getWeekNumber (Date_parse "2024-03-04T10:00:00.000Z") = 10%float
  /\ weekKeyOf (Date_parse "2024-03-04T10:00:00.000Z") = "2024-W10".
Proof. vm_compute. repeat split; reflexivity. Qed.

(** C1.  The weeks of [computeThroughputByWeek] do not come out in
    chronological order: the week number is not padded, so the key of
    week 10 sorts before the key of week 2 of the same year. *)
Theorem throughput_week10_before_week2 :
  let january := doneTask "a" 100%float "2024-01-01T00:00:00.000Z"
                          "2024-01-08T10:00:00.000Z" High in
  let march := doneTask "b" 200%float "2024-01-01T00:00:00.000Z"
                        "2024-03-04T10:00:00.000Z" High in
  computeThroughputByWeek [january; march]
  = [ {| week := "2024-W10"; tcount := 1%float; trevenue := 200%float |};
      {| week := "2024-W2"; tcount := 1%float; trevenue := 100%float |} ]
  /\ localeCompare "2024-W10" "2024-W2" = Lt
  /\ Date_parse "2024-01-08T10:00:00.000Z" = Some 1704708000000
  /\ Date_parse "2024-03-04T10:00:00.000Z" = Some 1709546400000.
Proof. vm_compute. repeat split; reflexivity. Qed.

(** ** Velocity *)

Section VelocityFacts.
Context {host : Host} {engine : Engine}.

(** The days of the completed tasks of one priority, in the order of the
    tasks. *)
Definition bucket (tasks : list Task) (k : Priority) : list float :=
  map (fun t => daysBetween (createdAt t) (orElse (completedAt t) ""))
      (filter (fun t => truthyOpt (completedAt t)
                        && Priority_eqb (priority t) k) tasks).

Lemma lookup_push r k v k' :
  lookup (push r k v) k'
  = if Priority_eqb k k' then (lookup r k' ++ [v])%list else lookup r k'.
Proof. destruct k, k'; reflexivity. Qed.

Lemma fold_collect l : forall acc k,
  lookup (fold_left collect l acc) k = (lookup acc k ++ bucket l k)%list.
Proof.
  induction l as [|t l IH]; intros acc k.
  - unfold bucket. simpl. rewrite app_nil_r. reflexivity.
  - simpl fold_left. rewrite IH. unfold bucket, collect. simpl filter.
    destruct (completedAt t) as [c|] eqn:Ec; simpl; [|reflexivity].
    destruct (truthy c); simpl; [|reflexivity].
    rewrite lookup_push.
    destruct (Priority_eqb (priority t) k); simpl; [|reflexivity].
    rewrite Ec. simpl. rewrite <- app_assoc. reflexivity.
Qed.

Lemma velocityGroups_bucket tasks k :
  lookup (velocityGroups tasks) k = bucket tasks k.
Proof.
  unfold velocityGroups. rewrite fold_collect. destruct k; reflexivity.
Qed.

Lemma lookup_velocity tasks k :
  lookup (computeVelocityByPriority tasks) k
  = velocityOf (lookup (velocityGroups tasks) k).
Proof. destruct k; reflexivity. Qed.

Lemma sortedDays_sign x y :
  isNaN x = false -> isNaN y = false ->
  jsSign (PrimFloat.sub x y)
  = FloatOrder.lexcmp (FloatOrder.fkey x) (FloatOrder.fkey y).
Proof. apply FloatOrder.jsSign_sub_lexcmp. Qed.

Lemma medianDays_velocityOf g :
  medianDays (velocityOf g)
  = match sortedDays g with
    | [] => zero
    | _ => nth (Nat.div (List.length (sortedDays g)) 2) (sortedDays g) nan
    end.
Proof. reflexivity. Qed.

Lemma sortedDays_perm g : Permutation (sortedDays g) g.
Proof. apply Array_sort_perm. Qed.

(** On numbers the comparator [a - b] is consistent, and the sorted copy
    is in ascending order on every engine. *)
Lemma sortedDays_ascending g :
  Forall (fun d => isNaN d = false) g ->
  StronglySorted (fun a b => PrimFloat.leb a b = true) (sortedDays g).
Proof.
  intros Hn.
  pose proof (Array_sort_ordered (fun a b => PrimFloat.sub a b)
                (fun d => isNaN d = false)
                (fun a b => FloatOrder.lexcmp (FloatOrder.fkey a)
                                              (FloatOrder.fkey b))
                (consistent_on FloatOrder.fkey _ consistent_lexcmp)
                sortedDays_sign g Hn) as Ho.
  assert (Hn' : Forall (fun d => isNaN d = false) (sortedDays g)).
  { apply Forall_forall. intros y Hy.
    rewrite Forall_forall in Hn. apply Hn.
    apply (Permutation_in _ (sortedDays_perm g)). exact Hy. }
  unfold ordered in Ho. fold (sortedDays g) in Ho.
  induction Ho as [|h t Hs IH Hh]; [constructor|].
  inversion Hn' as [|? ? Nh Nt]; subst.
  constructor; [apply IH; exact Nt|].
  rewrite Forall_forall in *. intros y Hy.
  apply FloatOrder.leb_fkey; [exact Nh|apply Nt; exact Hy|].
  apply Hh. exact Hy.
Qed.

(** C9, amended.  On every host and engine, an empty bucket gives
    [avgDays] 0 and [medianDays] 0; and for a bucket whose [daysBetween]
    values are numbers (no [NaN]: the dates of its tasks are valid), the
    sorted copy is the bucket in ascending order and [medianDays] is its
    element at index [floor(n / 2)], which for an even [n] is the upper
    of the two middle values. *)
Theorem velocity_median tasks k :
  let g := bucket tasks k in
  let arr := sortedDays g in
  let v := lookup (computeVelocityByPriority tasks) k in
  (g = [] -> avgDays v = zero /\ medianDays v = zero)
  /\ (Forall (fun d => isNaN d = false) g ->
      Permutation arr g
      /\ StronglySorted (fun a b => PrimFloat.leb a b = true) arr
      /\ (g <> [] -> medianDays v = nth (Nat.div (List.length g) 2) arr nan)
      /\ forall m, List.length g = (2 * m)%nat -> (0 < m)%nat ->
           PrimFloat.leb (nth (m - 1) arr nan) (medianDays v) = true).
Proof.
  intros g arr v.
  assert (Hperm : Permutation arr g) by apply sortedDays_perm.
  assert (Hv : v = velocityOf g).
  { unfold v. rewrite lookup_velocity, velocityGroups_bucket. reflexivity. }
  assert (Hmed : g <> [] ->
            medianDays v = nth (Nat.div (List.length g) 2) arr nan).
  { intros Hg. rewrite Hv, medianDays_velocityOf. fold arr.
    assert (L : List.length arr = List.length g)
      by (apply Permutation_length; exact Hperm).
    rewrite L.
    destruct arr as [|a arr'] eqn:Ea; [|reflexivity].
    destruct g; [congruence|discriminate L]. }
  split.
  { intros Hg. rewrite Hv. unfold velocityOf. cbv zeta.
    assert (E : sortedDays g = []).
    { apply Permutation_nil. apply Permutation_sym.
      pose proof Hperm as Hp. rewrite Hg in Hp. exact Hp. }
    rewrite E. split; reflexivity. }
  intros Hn.
  pose proof (sortedDays_ascending g Hn) as Hs. fold arr in Hs.
  split; [exact Hperm|]. split; [exact Hs|]. split; [exact Hmed|].
  intros m Hl Hm.
  assert (Hg : g <> []) by (intros E; rewrite E in Hl; simpl in Hl; lia).
  rewrite (Hmed Hg), Hl.
  replace (Nat.div (2 * m) 2) with m
    by (symmetry; rewrite Nat.mul_comm; apply Nat.div_mul; lia).
  assert (L : List.length arr = (2 * m)%nat).
  { rewrite <- Hl. apply Permutation_length. exact Hperm. }
  assert (Hnth : forall l : list float,
            StronglySorted (fun a b => PrimFloat.leb a b = true) l ->
            forall i j, (i < j)%nat -> (j < List.length l)%nat ->
              PrimFloat.leb (nth i l nan) (nth j l nan) = true).
  { clear. induction 1 as [|h t Hs IH Hh]; intros i j Hij Hj;
      [simpl in Hj; lia|].
    destruct j as [|j]; [lia|]. simpl in Hj.
    destruct i as [|i]; simpl.
    - rewrite Forall_forall in Hh. apply Hh. apply nth_In. lia.
    - apply IH; lia. }
  apply Hnth; [exact Hs|lia|lia].
Qed.

End VelocityFacts.

(** Two High tasks, done after 3 days and after 1 day: the median is 3,
    the upper of the two middle values, not the lower one. *)
Lemma median_of_two_is_upper :
  let tasks :=
    [ doneTask "a" 100%float "2024-01-01T00:00:00.000Z"
               "2024-01-04T00:00:00.000Z" High;
      doneTask "b" 200%float "2024-01-01T00:00:00.000Z"
               "2024-01-02T00:00:00.000Z" High ] in
  bucket tasks High = [3%float; 1%float]
  /\ sortedDays (bucket tasks High) = [1%float; 3%float]
  /\ medianDays (lookup (computeVelocityByPriority tasks) High) = 3%float
  /\ PrimFloat.eqb 3%float 1%float = false.
Proof. vm_compute. repeat split; reflexivity. Qed.

Definition velocitySample : list Task :=
  [ doneTask "a" 100%float "2024-01-01T00:00:00.000Z"
             "2024-01-04T00:00:00.000Z" High;
    doneTask "b" 200%float "2024-01-01T00:00:00.000Z"
             "2024-01-02T00:00:00.000Z" High;
    doneTask "c" 200%float "2024-01-01T00:00:00.000Z"
             "2024-01-09T00:00:00.000Z" Low ].

Lemma velocity_median_witness :
  StronglySorted (fun a b => PrimFloat.leb a b = true)
                 (sortedDays (bucket velocitySample High))
  /\ medianDays (lookup (computeVelocityByPriority velocitySample) High)
     = nth 1 (sortedDays (bucket velocitySample High)) nan
  /\ PrimFloat.leb (nth 0 (sortedDays (bucket velocitySample High)) nan)
                   (medianDays (lookup (computeVelocityByPriority velocitySample)
                                       High))
     = true
  /\ avgDays (lookup (computeVelocityByPriority velocitySample) Medium) = zero
  /\ medianDays (lookup (computeVelocityByPriority velocitySample) Medium)
     = zero.
Proof.
  assert (N : Forall (fun d => isNaN d = false) (bucket velocitySample High)).
  { repeat constructor. }
  destruct (velocity_median velocitySample High) as (_ & H).
  destruct (H N) as (_ & S & M & U).
  destruct (velocity_median velocitySample Medium) as (E & _).
  destruct (E eq_refl) as [Ea Em].
  split; [exact S|].
  split; [apply M; discriminate|].
  split; [exact (U 1%nat eq_refl (Nat.lt_0_succ 0))|].
  split; assumption.
Defined.

(* ================================================================== *)
(** * Properties of the ranking *)
(* ================================================================== *)

Lemma computeROI_not_NaN r t v : computeROI r t = Some v -> isNaN v = false.
Proof.
  unfold computeROI.
  destruct (negb (Number_isFinite r)); [discriminate|].
  destruct (negb (Number_isFinite t) || PrimFloat.leb t zero); [discriminate|].
  destruct (Number_isFinite (PrimFloat.div r t)) eqn:Hv; simpl;
    [|discriminate].
  intros H. inversion H; subst v.
  apply FloatOrder.div_100_not_NaN. apply FloatOrder.Math_round_not_NaN.
  apply FloatOrder.mul_100_not_NaN. apply FloatOrder.finite_not_NaN. exact Hv.
Qed.

Lemma antisym_thenBy {A : Type} (c1 c2 : A -> A -> comparison) :
  (forall x y, c1 y x = CompOpp (c1 x y)) ->
  (forall x y, c2 y x = CompOpp (c2 x y)) ->
  forall x y, thenBy c1 c2 y x = CompOpp (thenBy c1 c2 x y).
Proof.
  intros H1 H2 x y. unfold thenBy. rewrite (H1 x y).
  destruct (c1 x y); simpl; [apply H2|reflexivity|reflexivity].
Qed.

(** ** Arrays on the heap *)

Lemma deref_app_old {A : Type} (h : Heap A) (a : list A) (q : Ref) :
  (q < List.length h)%nat -> deref (h ++ [a])%list q = deref h q.
Proof. intros H. unfold deref. apply app_nth1. exact H. Qed.

Lemma deref_app_new {A : Type} (h : Heap A) (a : list A) :
  deref (h ++ [a])%list (List.length h) = a.
Proof.
  unfold deref. rewrite app_nth2 by lia. rewrite Nat.sub_diag. reflexivity.
Qed.

Lemma deref_store_same {A : Type} (h : Heap A) : forall (r : Ref) (a : list A),
  (r < List.length h)%nat -> deref (store h r a) r = a.
Proof.
  induction h as [|x h IH]; intros r a H; simpl in H; [lia|].
  destruct r as [|r]; [reflexivity|]. apply IH. lia.
Qed.

Lemma deref_store_other {A : Type} (h : Heap A) :
  forall (r q : Ref) (a : list A),
    q <> r -> deref (store h r a) q = deref h q.
Proof.
  induction h as [|x h IH]; intros r q a H; [reflexivity|].
  destruct r as [|r], q as [|q]; try reflexivity; [congruence|].
  apply IH. congruence.
Qed.

Section RankingFacts.
Context {engine : Engine} {collator : Collator}.

(** The numbers of a derived task are numbers: [roi] is [null] or is not
    [NaN], and [priorityWeight] is not [NaN]. *)
Definition numeric (d : DerivedTask) : Prop :=
  isNaN (orNegInfinity (roi d)) = false
  /\ isNaN (priorityWeight d) = false.

Definition roiKey (d : DerivedTask) : Z * Z * Z :=
  FloatOrder.fkey (orNegInfinity (roi d)).

Definition weightKey (d : DerivedTask) : Z * Z * Z :=
  FloatOrder.fkey (priorityWeight d).

(** The keys of the comparator, in its order. *)
Definition byRoi (a b : DerivedTask) : comparison :=
  FloatOrder.lexcmp (roiKey b) (roiKey a).

Definition byWeight (a b : DerivedTask) : comparison :=
  FloatOrder.lexcmp (weightKey b) (weightKey a).

Definition byCreatedAt (a b : DerivedTask) : comparison :=
  localeCompare (createdAt (task b)) (createdAt (task a)).

(** The comparator skips [createdAt] when one of the two is empty. *)
Definition byCreatedAtIfBoth (a b : DerivedTask) : comparison :=
  if truthy (createdAt (task a)) && truthy (createdAt (task b))
  then byCreatedAt a b else Eq.

Definition byTitle (a b : DerivedTask) : comparison :=
  localeCompare (title (task a)) (title (task b)).

Definition byId (a b : DerivedTask) : comparison :=
  localeCompare (id (task a)) (id (task b)).

(** The sign of the comparator. *)
Definition rankSign : DerivedTask -> DerivedTask -> comparison :=
  thenBy byRoi (thenBy byWeight (thenBy byCreatedAtIfBoth
                                        (thenBy byTitle byId))).

(** The order [sortTasks] sorts by when every [createdAt] is there:
    [roi] descending, then [priorityWeight] descending, then [createdAt]
    descending, then [title] and [id] ascending. *)
Definition rankCompare : DerivedTask -> DerivedTask -> comparison :=
  thenBy byRoi (thenBy byWeight (thenBy byCreatedAt (thenBy byTitle byId))).

Lemma consistent_byRoi : consistent byRoi.
Proof.
  apply consistent_flip. apply (consistent_on roiKey). apply consistent_lexcmp.
Qed.

Lemma consistent_rankCompare : consistent rankCompare.
Proof.
  unfold rankCompare.
  repeat apply consistent_thenBy.
  - apply consistent_byRoi.
  - apply consistent_flip. apply (consistent_on weightKey).
    apply consistent_lexcmp.
  - apply consistent_flip.
    apply (consistent_on (fun d => createdAt (task d))).
    apply consistent_localeCompare.
  - apply (consistent_on (fun d => title (task d))).
    apply consistent_localeCompare.
  - apply (consistent_on (fun d => id (task d))).
    apply consistent_localeCompare.
Qed.

Lemma rankSign_antisym x y : rankSign y x = CompOpp (rankSign x y).
Proof.
  unfold rankSign. revert x y. repeat apply antisym_thenBy.
  - intros x y. apply FloatOrder.lexcmp_antisym.
  - intros x y. apply FloatOrder.lexcmp_antisym.
  - intros x y. unfold byCreatedAtIfBoth. rewrite andb_comm.
    destruct (truthy (createdAt (task x)) && truthy (createdAt (task y)));
      [apply localeCompare_antisym|reflexivity].
  - intros x y. apply localeCompare_antisym.
  - intros x y. apply localeCompare_antisym.
Qed.

Lemma jsSign_cmp2num c : jsSign (cmp2num c) = c.
Proof. destruct c; reflexivity. Qed.

(** The sign of a guarded difference: [if (b !== a) return b - a]. *)
Lemma guarded_difference a b :
  isNaN a = false -> isNaN b = false ->
  (strictNe b a = true ->
   jsSign (PrimFloat.sub b a)
   = FloatOrder.lexcmp (FloatOrder.fkey b) (FloatOrder.fkey a)
   /\ FloatOrder.lexcmp (FloatOrder.fkey b) (FloatOrder.fkey a) <> Eq)
  /\ (strictNe b a = false ->
      FloatOrder.lexcmp (FloatOrder.fkey b) (FloatOrder.fkey a) = Eq).
Proof.
  intros Na Nb. unfold strictNe. split; intros H.
  - split; [apply FloatOrder.jsSign_sub_lexcmp; assumption|].
    intros E. apply FloatOrder.lexcmp_Eq in E.
    apply (FloatOrder.eqb_fkey b a Nb Na) in E. rewrite E in H. discriminate.
  - apply FloatOrder.lexcmp_Eq. apply FloatOrder.eqb_fkey; try assumption.
    destruct (PrimFloat.eqb b a); [reflexivity|discriminate].
Qed.

(** On tasks whose numbers are numbers the comparator has the sign
    [rankSign]. *)
Lemma compareTasks_sign a b :
  numeric a -> numeric b -> jsSign (compareTasks a b) = rankSign a b.
Proof.
  intros (Ra & Wa) (Rb & Wb).
  unfold compareTasks, rankSign, thenBy, byRoi, byWeight, byCreatedAtIfBoth,
    byCreatedAt, byTitle, byId, roiKey, weightKey.
  destruct (guarded_difference _ _ Ra Rb) as [R1 R2].
  destruct (strictNe (orNegInfinity (roi b)) (orNegInfinity (roi a))).
  { destruct (R1 eq_refl) as [S N]. rewrite S.
    destruct (FloatOrder.lexcmp
                (FloatOrder.fkey (orNegInfinity (roi b)))
                (FloatOrder.fkey (orNegInfinity (roi a))));
      [elim N; reflexivity|reflexivity|reflexivity]. }
  rewrite (R2 eq_refl).
  destruct (guarded_difference _ _ Wa Wb) as [W1 W2].
  destruct (strictNe (priorityWeight b) (priorityWeight a)).
  { destruct (W1 eq_refl) as [S N]. rewrite S.
    destruct (FloatOrder.lexcmp
                (FloatOrder.fkey (priorityWeight b))
                (FloatOrder.fkey (priorityWeight a)));
      [elim N; reflexivity|reflexivity|reflexivity]. }
  rewrite (W2 eq_refl).
  destruct (if truthy (createdAt (task a)) && truthy (createdAt (task b))
            then localeCompare (createdAt (task b)) (createdAt (task a))
            else Eq); try reflexivity.
  destruct (localeCompare (title (task a)) (title (task b)));
    try reflexivity.
  apply jsSign_cmp2num.
Qed.

Lemma compareTasks_antisym x y :
  numeric x -> numeric y ->
  jsSign (compareTasks y x) = CompOpp (jsSign (compareTasks x y)).
Proof.
  intros Hx Hy. rewrite !compareTasks_sign by assumption.
  apply rankSign_antisym.
Qed.

Lemma compareTasks_byRoi x y :
  numeric x -> numeric y -> byRoi x y <> Eq ->
  jsSign (compareTasks x y) = byRoi x y.
Proof.
  intros Hx Hy H. rewrite compareTasks_sign by assumption.
  unfold rankSign, thenBy. destruct (byRoi x y); congruence.
Qed.

(** A task without [roi] ranks behind a task with a finite [roi]. *)
Lemma null_roi_ranks_last x y v :
  numeric y -> roi x = None -> roi y = Some v ->
  Number_isFinite v = true -> byRoi x y = Gt.
Proof.
  intros (Ry & _) Hx Hy Hv. unfold byRoi, roiKey.
  rewrite Hx, Hy in *. simpl orNegInfinity in *.
  unfold Number_isFinite in Hv. apply andb_true_iff in Hv.
  destruct Hv as [Hlo _].
  apply (FloatOrder.ltb_fkey neg_infinity v eq_refl Ry) in Hlo.
  apply FloatOrder.lexcmp_Gt. exact Hlo.
Qed.

(** [sortTasks] returns a permutation of its argument, whatever the
    tasks are. *)
Lemma sortTasks_perm l : Permutation (sortTasks l) l.
Proof. apply Array_sort_perm. Qed.

(** What [withDerived] returns has numbers for numbers. *)
Lemma withDerived_numeric (t : Task) : numeric (withDerived t).
Proof.
  unfold numeric, withDerived. simpl. split.
  - destruct (computeROI (revenue t) (timeTaken t)) as [v|] eqn:E;
      [apply (computeROI_not_NaN _ _ _ E)|reflexivity].
  - destruct (priority t); reflexivity.
Qed.

(** The derived tasks on which the comparator is consistent: no number
    is [NaN] and no [createdAt] is empty. *)
Definition ranked (d : DerivedTask) : Prop :=
  numeric d /\ truthy (createdAt (task d)) = true.

Lemma compareTasks_rankCompare x y :
  ranked x -> ranked y -> jsSign (compareTasks x y) = rankCompare x y.
Proof.
  intros (Nx & Cx) (Ny & Cy).
  rewrite compareTasks_sign by assumption.
  unfold rankSign, rankCompare, thenBy, byCreatedAtIfBoth.
  rewrite Cx, Cy. reflexivity.
Qed.

(** The comparator is then consistent and the result is the list in the
    order [rankCompare], which every stable sort returns. *)
Lemma sortTasks_ordered l :
  Forall (fun d => numeric d /\ truthy (createdAt (task d)) = true) l ->
  ordered rankCompare (sortTasks l).
Proof.
  apply (Array_sort_ordered compareTasks ranked rankCompare
           consistent_rankCompare compareTasks_rankCompare).
Qed.

Lemma sortTasks_idempotent l :
  Forall ranked l -> sortTasks (sortTasks l) = sortTasks l.
Proof.
  apply (Array_sort_idempotent compareTasks ranked rankCompare
           consistent_rankCompare compareTasks_rankCompare).
Qed.

Lemma sortTasks_null_last l :
  Forall ranked l ->
  forall i j x y v,
    nth_error (sortTasks l) i = Some x ->
    nth_error (sortTasks l) j = Some y ->
    roi x = None -> roi y = Some v -> Number_isFinite v = true ->
    (j < i)%nat.
Proof.
  intros Hl i j x y v Hi Hj Hx Hy Hv.
  pose proof (sortTasks_ordered l Hl) as Ho.
  assert (Ny : numeric y).
  { rewrite Forall_forall in Hl. apply Hl.
    apply (Permutation_in _ (sortTasks_perm l)).
    apply nth_error_In with j. exact Hj. }
  pose proof (null_roi_ranks_last x y v Ny Hx Hy Hv) as G.
  destruct (Nat.lt_trichotomy i j) as [L|[E|L]]; [| |exact L].
  - exfalso.
    apply (ordered_nth rankCompare (sortTasks l) Ho i j x y L Hi Hj).
    unfold rankCompare, thenBy. rewrite G. reflexivity.
  - subst j. congruence.
Qed.

(** C7, amended.  On every engine, [sortTasks] returns a new array and
    changes no array of the heap, its argument included; the array it
    returns holds a permutation of the elements of the argument, in the
    same number.  When moreover no [roi] is [NaN] and no [createdAt] is
    empty, the comparator is consistent: sorting the result again leaves
    it as it is, and a task whose [roi] is [null] comes after every task
    whose [roi] is finite. *)
Theorem sortTasks_spec (h : Heap DerivedTask) (tasks : Ref) :
  (tasks < List.length h)%nat ->
  let l := deref h tasks in
  let h' := fst (sortTasksIn h tasks) in
  let sorted := snd (sortTasksIn h tasks) in
  sorted <> tasks
  /\ (forall q, (q < List.length h)%nat -> deref h' q = deref h q)
  /\ deref h' sorted = sortTasks l
  /\ Permutation (sortTasks l) l
  /\ List.length (sortTasks l) = List.length l
  /\ (Forall (fun d => numeric d /\ truthy (createdAt (task d)) = true) l ->
      sortTasks (sortTasks l) = sortTasks l
      /\ forall i j x y v,
           nth_error (sortTasks l) i = Some x ->
           nth_error (sortTasks l) j = Some y ->
           roi x = None -> roi y = Some v -> Number_isFinite v = true ->
           (j < i)%nat).
Proof.
  intros Hr. cbv zeta.
  unfold sortTasksIn, spread, sortInPlace. cbn [fst snd].
  split; [lia|]. split; [|split; [|split; [|split]]].
  - intros q Hq. rewrite deref_store_other by lia.
    apply deref_app_old. exact Hq.
  - rewrite deref_store_same by (rewrite length_app; simpl; lia).
    rewrite deref_app_new. reflexivity.
  - apply sortTasks_perm.
  - apply Permutation_length. apply sortTasks_perm.
  - intros Hl. split; [apply sortTasks_idempotent; exact Hl|].
    apply sortTasks_null_last. exact Hl.
Qed.

End RankingFacts.

(** A derived task as a caller may build it. *)
Definition derived (i : string) (r : option float) : DerivedTask :=
  {| task := sampleTask i i; roi := r; priorityWeight := 2%float |}.

(** A [roi] that is [NaN] compares equal to every other: the task without
    [roi] stays before the task whose [roi] is 5. *)
Lemma sortTasks_null_before_finite :
  let l := [derived "a" None; derived "b" (Some nan);
            derived "c" (Some 5%float)] in
  nth_error (sortTasks l) 0 = Some (derived "a" None)
  /\ roi (derived "a" None) = None
  /\ nth_error (sortTasks l) 2 = Some (derived "c" (Some 5%float))
  /\ roi (derived "c" (Some 5%float)) = Some 5%float
  /\ Number_isFinite 5%float = true
  /\ ~ (2 < 0)%nat.
Proof.
  cbv zeta. repeat split; try (vm_compute; reflexivity). intros H. inversion H.
Qed.

Definition rankingSample : list Task :=
  [ {| id := "t1"; title := "no time"; revenue := 100%float;
       timeTaken := zero; priority := High; status := Todo; notes := None;
       createdAt := "2024-01-03T00:00:00.000Z"; completedAt := None |};
    {| id := "t2"; title := "slow"; revenue := 100%float;
       timeTaken := 4%float; priority := Low; status := Todo; notes := None;
       createdAt := "2024-01-01T00:00:00.000Z"; completedAt := None |};
    {| id := "t3"; title := "fast"; revenue := 300%float;
       timeTaken := 2%float; priority := Medium; status := Todo;
       notes := None;
       createdAt := "2024-01-02T00:00:00.000Z"; completedAt := None |} ].

Example sortTasks_sample :
  map (fun d => id (task d)) (sortTasks (map withDerived rankingSample))
  = ["t3"; "t2"; "t1"]
  /\ map roi (sortTasks (map withDerived rankingSample))
     = [Some 150%float; Some 25%float; None].
Proof. vm_compute. split; reflexivity. Qed.

(** The sample as the array at reference 0 of a heap of two arrays. *)
Lemma sortTasks_spec_witness :
  let h := [map withDerived rankingSample; []] in
  snd (sortTasksIn h 0%nat) = 2%nat
  /\ deref (fst (sortTasksIn h 0%nat)) 0%nat = map withDerived rankingSample
  /\ map (fun d => id (task d)) (deref (fst (sortTasksIn h 0%nat)) 2%nat)
     = ["t3"; "t2"; "t1"]
  /\ sortTasks (sortTasks (map withDerived rankingSample))
     = sortTasks (map withDerived rankingSample).
Proof.
  intros h.
  destruct (sortTasks_spec h 0%nat) as (_ & F & S & _ & _ & I);
    [simpl; lia|].
  split; [reflexivity|]. split; [apply (F 0%nat); simpl; lia|].
  split.
  { change (snd (sortTasksIn h 0%nat)) with 2%nat in S. rewrite S.
    vm_compute. reflexivity. }
  apply I. repeat constructor.
Defined.

(* ================================================================== *)
(** * The store as a state machine *)
(* ================================================================== *)

(** The calls a view can make on the hook. *)
Inductive Op :=
| OpAdd (uuid : string) (now : Z) (task : NewTask)
| OpUpdate (now : Z) (id0 : string) (patch : Patch)
| OpDelete (id0 : string)
| OpUndo
| OpDismiss.

Definition step (s : State) (o : Op) : State :=
  match o with
  | OpAdd uuid now task => addTask uuid now task s
  | OpUpdate now id0 patch => updateTask now id0 patch s
  | OpDelete id0 => deleteTask id0 s
  | OpUndo => undoDelete s
  | OpDismiss => dismissLastDeleted s
  end.

(** The state after a sequence of calls. *)
Definition run (ops : list Op) (s : State) : State := fold_left step ops s.

(** A property of every task the state holds, staged or not. *)
Definition everyTask (P : Task -> Prop) (s : State) : Prop :=
  Forall P (tasks s) /\ (forall t, lastDeleted s = Some t -> P t).

(** The task [addTask] appends. *)
Definition addedTask (uuid : string) (now : Z) (task : NewTask) : Task :=
  {| id := match n_id task with Some i => i | None => uuid end;
     title := n_title task;
     revenue := n_revenue task;
     timeTaken := if PrimFloat.leb (n_timeTaken task) zero then one
                  else n_timeTaken task;
     priority := n_priority task;
     status := n_status task;
     notes := n_notes task;
     createdAt := toISOString now;
     completedAt := if Status_eqb (n_status task) Done
                    then Some (toISOString now) else None |}.

Lemma addTask_addedTask uuid now task s :
  addTask uuid now task s
  = {| tasks := (tasks s ++ [addedTask uuid now task])%list;
       lastDeleted := lastDeleted s |}.
Proof. reflexivity. Qed.

(** What a call has to respect for a property of tasks to be kept: the
    task it adds has the property, and the task it rewrites keeps it. *)
Definition respects (P : Task -> Prop) (o : Op) : Prop :=
  match o with
  | OpAdd uuid now task => P (addedTask uuid now task)
  | OpUpdate now id0 patch =>
      forall t, P t -> P (reclamp id0 patch (applyPatch now id0 patch t))
  | _ => True
  end.

Lemma find_some_in {A : Type} (p : A -> bool) (l : list A) x :
  List.find p l = Some x -> In x l /\ p x = true.
Proof. apply find_some. Qed.

Lemma step_everyTask (P : Task -> Prop) s o :
  respects P o -> everyTask P s -> everyTask P (step s o).
Proof.
  intros Ho [Ht Hl]. destruct o as [uuid now task|now id0 patch|id0| |]; simpl.
  - rewrite addTask_addedTask. split; simpl; [|exact Hl].
    apply Forall_app. split; [exact Ht|]. constructor; [exact Ho|constructor].
  - split; [|exact Hl]. rewrite tasks_updateTask.
    apply Forall_forall. intros t' Ht'. apply in_map_iff in Ht'.
    destruct Ht' as (t & <- & Hin). apply Ho.
    rewrite Forall_forall in Ht. apply Ht. exact Hin.
  - split; simpl.
    + apply Forall_forall. intros t Hin. apply filter_In in Hin.
      rewrite Forall_forall in Ht. apply Ht. apply Hin.
    + intros t E. unfold find in E. apply find_some_in in E.
      rewrite Forall_forall in Ht. apply Ht. apply E.
  - unfold undoDelete. destruct (lastDeleted s) as [t|] eqn:E.
    + split; simpl; [|discriminate].
      apply Forall_app. split; [exact Ht|].
      constructor; [apply Hl; reflexivity|constructor].
    + split; [exact Ht|]. rewrite E. discriminate.
  - split; simpl; [exact Ht|discriminate].
Qed.

Lemma run_everyTask (P : Task -> Prop) ops : forall s,
  Forall (respects P) ops -> everyTask P s -> everyTask P (run ops s).
Proof.
  induction ops as [|o ops IH]; intros s Ho Hs; simpl; [exact Hs|].
  inversion Ho; subst. apply IH; [assumption|].
  apply step_everyTask; assumption.
Qed.

Lemma everyTask_empty (P : Task -> Prop) : everyTask P emptyStore.
Proof. split; [constructor|discriminate]. Qed.

(** ** A task that is Done has a completion date *)

Definition completedIfDone (t : Task) : Prop :=
  status t = Done -> truthyOpt (completedAt t) = true.

Lemma truthy_toISOString t : truthy (toISOString t) = true.
Proof. unfold truthy. rewrite JsDateFacts.toISOString_truthy. reflexivity. Qed.

Lemma Status_eqb_eq a b : Status_eqb a b = true <-> a = b.
Proof. destruct a, b; simpl; split; congruence. Qed.

Lemma status_reclamp id0 patch t : status (reclamp id0 patch t) = status t.
Proof.
  unfold reclamp.
  match goal with |- context [if ?c then _ else _] => destruct c end;
    reflexivity.
Qed.

Lemma completedAt_reclamp id0 patch t :
  completedAt (reclamp id0 patch t) = completedAt t.
Proof.
  unfold reclamp.
  match goal with |- context [if ?c then _ else _] => destruct c end;
    reflexivity.
Qed.

Lemma applyPatch_completedIfDone now id0 patch t :
  p_completedAt patch = None ->
  completedIfDone t -> completedIfDone (applyPatch now id0 patch t).
Proof.
  intros Hp Ht. unfold applyPatch. cbv zeta.
  destruct (String.eqb (id t) id0); cbn [negb]; [|exact Ht].
  assert (Hc : completedAt (merge t patch) = completedAt t)
    by (simpl; rewrite Hp; reflexivity).
  set (m := merge t patch) in *.
  destruct (Status_eqb (status t) Done) eqn:Es,
           (Status_eqb (status m) Done) eqn:Em,
           (truthyOpt (completedAt m)) eqn:Ec; cbn [negb andb];
    unfold completedIfDone; intros H;
    try exact Ec;
    try (apply Status_eqb_eq in H; congruence);
    try (simpl; apply truthy_toISOString).
  apply Status_eqb_eq in Es. rewrite Hc in *. rewrite (Ht Es) in Ec.
  discriminate.
Qed.

(** Which calls keep it: every call but an update whose patch has the key
    [completedAt]. *)
Definition leavesCompletedAt (o : Op) : Prop :=
  match o with
  | OpUpdate _ _ patch => p_completedAt patch = None
  | _ => True
  end.

Lemma leavesCompletedAt_respects o :
  leavesCompletedAt o -> respects completedIfDone o.
Proof.
  destruct o as [uuid now task|now id0 patch|id0| |]; simpl; try tauto.
  - intros _. unfold completedIfDone, addedTask. simpl. intros H.
    apply Status_eqb_eq in H. rewrite H. simpl. apply truthy_toISOString.
  - intros Hp t Ht. unfold completedIfDone.
    rewrite status_reclamp, completedAt_reclamp.
    apply applyPatch_completedIfDone; assumption.
Qed.

(** What [updateTask] does to the completion date of the task it
    matches, for a patch without the key [completedAt]: a date that is set
    stays, and a missing one is stamped on the move to Done. *)
Lemma updateTask_completedAt now id0 patch t :
  p_completedAt patch = None ->
  completedAt (reclamp id0 patch (applyPatch now id0 patch t))
  = if String.eqb (id t) id0
       && negb (Status_eqb (status t) Done)
       && Status_eqb (orElse (p_status patch) (status t)) Done
       && negb (truthyOpt (completedAt t))
    then Some (toISOString now)
    else completedAt t.
Proof.
  intros Hp. rewrite completedAt_reclamp. unfold applyPatch. cbv zeta.
  destruct (String.eqb (id t) id0); cbn [negb andb]; [|reflexivity].
  assert (Hc : completedAt (merge t patch) = completedAt t)
    by (simpl; rewrite Hp; reflexivity).
  assert (Hs : status (merge t patch) = orElse (p_status patch) (status t))
    by reflexivity.
  rewrite Hc, Hs.
  destruct (negb (Status_eqb (status t) Done)
            && Status_eqb (orElse (p_status patch) (status t)) Done
            && negb (truthyOpt (completedAt t))); [reflexivity|exact Hc].
Qed.

(** X1.  Starting from a store in which every task that is Done has a
    completion date, every sequence of calls in which no patch carries the
    key [completedAt] leads to such a store.  On the way, [addTask] gives
    a task created Done the time of the call; and [updateTask] with such
    a patch leaves the [completedAt] of every task as it is, but for a
    matched task that moves to Done without a date, which gets the time of
    the call. *)
Theorem done_tasks_keep_completedAt ops s :
  Forall leavesCompletedAt ops ->
  everyTask completedIfDone s ->
  everyTask completedIfDone (run ops s)
  /\ (forall uuid now task,
        n_status task = Done ->
        completedAt (addedTask uuid now task) = Some (toISOString now))
  /\ (forall now id0 patch s0,
        p_completedAt patch = None ->
        map completedAt (tasks (updateTask now id0 patch s0))
        = map (fun t =>
                 if String.eqb (id t) id0
                    && negb (Status_eqb (status t) Done)
                    && Status_eqb (orElse (p_status patch) (status t)) Done
                    && negb (truthyOpt (completedAt t))
                 then Some (toISOString now)
                 else completedAt t)
              (tasks s0)).
Proof.
  intros Ho Hs. split; [|split].
  - apply run_everyTask; [|exact Hs].
    apply Forall_forall. intros o Hin. apply leavesCompletedAt_respects.
    rewrite Forall_forall in Ho. apply Ho. exact Hin.
  - intros uuid now task Hd. unfold addedTask. simpl. rewrite Hd.
    reflexivity.
  - intros now id0 patch s0 Hp. rewrite tasks_updateTask, map_map.
    apply map_ext. intros t. apply updateTask_completedAt. exact Hp.
Qed.

Definition donePatch : Patch :=
  {| p_id := None; p_title := None; p_revenue := None; p_timeTaken := None;
     p_priority := None; p_status := Some Done; p_notes := None;
     p_createdAt := None; p_completedAt := None |}.

Definition sampleOps : list Op :=
  [ OpAdd "u1" clock (newTask None "A" 100%float 2%float Todo);
    OpAdd "u2" clock (newTask None "B" 50%float 1%float Done);
    OpUpdate (clock + 5000) "u1" donePatch;
    OpDelete "u2";
    OpUndo ].

Lemma done_tasks_keep_completedAt_witness :
  everyTask completedIfDone (run sampleOps emptyStore)
  /\ map completedAt (tasks (run sampleOps emptyStore))
     = [Some "2023-11-14T22:13:25.000Z"; Some "2023-11-14T22:13:20.000Z"].
Proof.
  split; [|vm_compute; reflexivity].
  apply (done_tasks_keep_completedAt sampleOps emptyStore).
  - repeat constructor.
  - apply everyTask_empty.
Defined.

(** ** The time taken stays positive *)

(** Which calls keep it: the numbers they bring are not [NaN] and no patch
    renames the task. *)
Definition bringsNumbers (o : Op) : Prop :=
  match o with
  | OpAdd _ _ task => isNaN (n_timeTaken task) = false
  | OpUpdate _ _ patch =>
      p_id patch = None
      /\ (forall v, p_timeTaken patch = Some v -> isNaN v = false)
  | _ => True
  end.

Lemma bringsNumbers_respects o : bringsNumbers o -> respects positiveTime o.
Proof.
  destruct o as [uuid now task|now id0 patch|id0| |]; simpl; try tauto.
  - intros Hn.
    pose proof (addTask_keeps_positive uuid now task emptyStore Hn
                  (Forall_nil _)) as H.
    inversion H; subst. assumption.
  - intros [Hid Hn] t Ht.
    pose proof (updateTask_keeps_positive now id0 patch
                  {| tasks := [t]; lastDeleted := None |} Hid Hn
                  (Forall_cons _ Ht (Forall_nil _))) as H.
    inversion H; subst. assumption.
Qed.

(** X2.  Starting from a store in which every [timeTaken] is above zero,
    every sequence of calls whose numbers are not [NaN] and whose patches
    do not rename a task leads to such a store. *)
Theorem timeTaken_stays_positive ops s :
  Forall bringsNumbers ops ->
  everyTask positiveTime s ->
  everyTask positiveTime (run ops s).
Proof.
  intros Ho Hs. apply run_everyTask; [|exact Hs].
  apply Forall_forall. intros o Hin. apply bringsNumbers_respects.
  rewrite Forall_forall in Ho. apply Ho. exact Hin.
Qed.

Definition zeroTimePatch : Patch :=
  {| p_id := None; p_title := None; p_revenue := None;
     p_timeTaken := Some zero; p_priority := None; p_status := None;
     p_notes := None; p_createdAt := None; p_completedAt := None |}.

Definition timeOps : list Op :=
  [ OpAdd "u1" clock (newTask None "A" 100%float (-3)%float Todo);
    OpAdd "u2" clock (newTask None "B" 50%float 4%float Todo);
    OpUpdate clock "u2" zeroTimePatch;
    OpDelete "u1";
    OpUndo ].

Lemma timeTaken_stays_positive_witness :
  everyTask positiveTime (run timeOps emptyStore)
  /\ map timeTaken (tasks (run timeOps emptyStore)) = [one; one].
Proof.
  split; [|vm_compute; reflexivity].
  apply timeTaken_stays_positive.
  - unfold timeOps. repeat constructor; simpl; try reflexivity.
    intros v E. injection E as <-. reflexivity.
  - apply everyTask_empty.
Defined.

(** ** Identifiers stay distinct *)

(** The identifiers the state holds, the staged task included. *)
Definition ids (s : State) : list string :=
  map id (tasks s ++ match lastDeleted s with
                     | Some t => [t]
                     | None => []
                     end)%list.

(** A call that cannot make two tasks share an identifier: it adds a task
    under an identifier the state does not hold, and it does not rename. *)
Definition fresh (s : State) (o : Op) : Prop :=
  match o with
  | OpAdd uuid now task => ~ In (id (addedTask uuid now task)) (ids s)
  | OpUpdate _ _ patch => p_id patch = None
  | _ => True
  end.

Fixpoint allFresh (ops : list Op) (s : State) : Prop :=
  match ops with
  | [] => True
  | o :: ops' => fresh s o /\ allFresh ops' (step s o)
  end.

Lemma ids_updateTask now id0 patch s :
  p_id patch = None -> ids (updateTask now id0 patch s) = ids s.
Proof.
  intros Hid. unfold ids. rewrite !map_app. f_equal.
  rewrite tasks_updateTask, map_map. apply map_ext. intros t.
  rewrite id_reclamp, id_applyPatch, Hid. simpl.
  destruct (String.eqb (id t) id0); reflexivity.
Qed.

Lemma NoDup_map_filter {A B : Type} (f : A -> B) (p : A -> bool) l :
  NoDup (map f l) -> NoDup (map f (filter p l)).
Proof.
  induction l as [|a l IH]; simpl; intros H; [constructor|].
  inversion H as [|? ? Hn Hd]; subst.
  destruct (p a); simpl; [constructor|]; auto.
  intros Hin. apply Hn. apply in_map_iff in Hin.
  destruct Hin as (x & E & Hx). apply filter_In in Hx.
  apply in_map_iff. exists x. tauto.
Qed.

Lemma NoDup_snoc {A : Type} (l : list A) (a : A) :
  NoDup l -> ~ In a l -> NoDup (l ++ [a]).
Proof.
  intros Hl Ha. apply (Permutation_NoDup (l := a :: l)).
  - apply Permutation_cons_append.
  - constructor; assumption.
Qed.

Lemma ids_deleteTask id0 s : NoDup (ids s) -> NoDup (ids (deleteTask id0 s)).
Proof.
  unfold ids. rewrite !map_app. intros H. apply NoDup_app_remove_r in H.
  simpl tasks. simpl lastDeleted. unfold find.
  destruct (List.find (fun t => String.eqb (id t) id0) (tasks s))
    as [t|] eqn:E.
  - apply find_some_in in E. destruct E as [_ E]. apply String.eqb_eq in E.
    simpl. apply NoDup_snoc; [apply NoDup_map_filter; exact H|].
    intros Hin. apply in_map_iff in Hin. destruct Hin as (x & Ex & Hx).
    apply filter_In in Hx. destruct Hx as [_ Hx].
    rewrite Ex, E, String.eqb_refl in Hx. discriminate.
  - simpl. rewrite app_nil_r. apply NoDup_map_filter. exact H.
Qed.

Lemma step_ids s o : fresh s o -> NoDup (ids s) -> NoDup (ids (step s o)).
Proof.
  intros Ho Hs. destruct o as [uuid now task|now id0 patch|id0| |]; simpl.
  - rewrite addTask_addedTask. unfold ids in *. simpl tasks. simpl lastDeleted.
    simpl in Ho.
    apply (Permutation_NoDup
             (l := ((ids s) ++ [id (addedTask uuid now task)])%list)).
    + unfold ids. rewrite !map_app. simpl.
      rewrite <- !app_assoc. apply Permutation_app_head.
      apply Permutation_app_comm.
    + apply NoDup_snoc; assumption.
  - rewrite ids_updateTask by exact Ho. exact Hs.
  - apply ids_deleteTask. exact Hs.
  - unfold undoDelete, ids in *. destruct (lastDeleted s) as [t|] eqn:E.
    + simpl. rewrite app_nil_r. exact Hs.
    + rewrite E. exact Hs.
  - unfold ids in *. simpl. rewrite app_nil_r, map_app in *.
    apply NoDup_app_remove_r in Hs. exact Hs.
Qed.

(** X3.  Starting from a store whose tasks, the staged one included, have
    distinct identifiers, every sequence of calls that adds tasks under
    identifiers the store does not hold at that moment, and that does not
    rename, leads to such a store. *)
Theorem ids_stay_distinct ops : forall s,
  allFresh ops s -> NoDup (ids s) -> NoDup (ids (run ops s)).
Proof.
  induction ops as [|o ops IH]; intros s Ho Hs; simpl; [exact Hs|].
  destruct Ho as [Ho Hops]. apply IH; [exact Hops|].
  apply step_ids; assumption.
Qed.

Lemma ids_stay_distinct_witness :
  NoDup (ids (run sampleOps emptyStore))
  /\ ids (run sampleOps emptyStore) = ["u1"; "u2"].
Proof.
  split; [|vm_compute; reflexivity].
  apply ids_stay_distinct.
  - vm_compute. repeat split; try tauto.
    intros [H|H]; [discriminate|contradiction].
  - constructor.
Defined.

(** Reusing the identifier of the staged task is what breaks it: delete,
    add a task under the same identifier, undo. *)
Example staged_id_reused :
  ids (run [ OpAdd "u1" clock (newTask None "A" 100%float 2%float Todo);
             OpDelete "u1";
             OpAdd "x" clock (newTask (Some "u1") "B" 1%float 1%float Todo);
             OpUndo ] emptyStore)
  = ["u1"; "u1"].
Proof. vm_compute. reflexivity. Qed.

(** ** Updating a task that is not there *)

(** X4.  [updateTask] with an identifier no task has changes nothing:
    neither the list nor the staged task (where [deleteTask] with such an
    identifier empties the undo buffer). *)
Theorem updateTask_absent_id now id0 patch s :
  ~ In id0 (map id (tasks s)) -> updateTask now id0 patch s = s.
Proof.
  intros Hn. destruct s as [ts ld]. unfold updateTask. simpl in *. f_equal.
  rewrite map_map. rewrite <- (map_id ts) at 2. apply map_ext_in.
  intros t Ht.
  assert (E : String.eqb (id t) id0 = false).
  { apply String.eqb_neq. intros E. apply Hn. rewrite <- E.
    apply in_map. exact Ht. }
  rewrite applyPatch_other, reclamp_other by exact E. reflexivity.
Qed.

Lemma updateTask_absent_id_witness :
  updateTask clock "zz" donePatch
    {| tasks := [sampleTask "a" "A"]; lastDeleted := Some (sampleTask "b" "B") |}
  = {| tasks := [sampleTask "a" "A"]; lastDeleted := Some (sampleTask "b" "B") |}.
Proof.
  apply updateTask_absent_id. simpl. intros [H|H]; [discriminate|contradiction].
Defined.

(** ** Deleting twice *)

Lemma filter_filter_same {A : Type} (p : A -> bool) (l : list A) :
  filter p (filter p l) = filter p l.
Proof.
  apply filter_all. intros x Hx. apply filter_In in Hx. apply Hx.
Qed.

(** X5.  [deleteTask] removes every task that has the identifier.  A second
    [deleteTask] with the same identifier therefore finds none, and empties
    the undo buffer: after it, [undoDelete] restores nothing. *)
Theorem deleteTask_twice id0 s :
  (forall t, In t (tasks (deleteTask id0 s)) -> id t <> id0)
  /\ deleteTask id0 (deleteTask id0 s) = dismissLastDeleted (deleteTask id0 s)
  /\ undoDelete (deleteTask id0 (deleteTask id0 s))
     = dismissLastDeleted (deleteTask id0 s).
Proof.
  assert (H1 : forall t, In t (tasks (deleteTask id0 s)) -> id t <> id0).
  { simpl. intros t Ht. apply filter_In in Ht. destruct Ht as [_ Ht].
    apply String.eqb_neq. destruct (String.eqb (id t) id0);
      [discriminate|reflexivity]. }
  assert (H2 : deleteTask id0 (deleteTask id0 s)
               = dismissLastDeleted (deleteTask id0 s)).
  { unfold deleteTask at 1. unfold dismissLastDeleted. f_equal.
    - simpl. apply filter_filter_same.
    - unfold find. apply find_none_iff. intros t Ht.
      apply String.eqb_neq. apply H1. exact Ht. }
  repeat split; [exact H1|exact H2|].
  rewrite H2. reflexivity.
Qed.

(** ** What the loader guarantees *)

(** A task as the views expect it. *)
Definition wellFormed (t : Task) : Prop :=
  Number_isFinite (revenue t) = true
  /\ Number_isFinite (timeTaken t) = true
  /\ positiveTime t
  /\ truthy (createdAt t) = true
  /\ completedIfDone t.

Section LoaderFacts.
Context {host : Host}.

Lemma normalizeTask_wellFormed uuid now t idx t' :
  normalizeTask uuid now t idx = Some t' -> wellFormed t'.
Proof.
  unfold normalizeTask. destruct (createdOf now t idx) as [c|]; [|discriminate].
  match goal with
  | |- match ?x with _ => _ end = _ -> _ => destruct x as [completed|] eqn:Ec
  end; [|discriminate].
  intros H. injection H as <-. unfold wellFormed, positiveTime. simpl.
  repeat split.
  - destruct (Number_isFinite (Number (r_revenue t))) eqn:E;
      [exact E|reflexivity].
  - destruct (Number_isFinite (Number (r_timeTaken t))) eqn:E; simpl;
      [|reflexivity].
    destruct (PrimFloat.ltb zero (Number (r_timeTaken t)));
      [exact E|reflexivity].
  - destruct (Number_isFinite (Number (r_timeTaken t))) eqn:E; simpl;
      [|reflexivity].
    destruct (PrimFloat.ltb zero (Number (r_timeTaken t))) eqn:L;
      [exact L|reflexivity].
  - apply truthy_toISOString.
  - unfold completedIfDone. simpl. intros Hd.
    destruct (truthyOpt (r_completedAt t)) eqn:Et.
    + injection Ec as <-. exact Et.
    + rewrite Hd in Ec. cbn [Status_eqb] in Ec.
      destruct (TimeClip (c + 24 * 3600 * 1000)) as [c'|];
        cbn [option_map] in Ec; [|discriminate Ec].
      injection Ec as <-. simpl. apply truthy_toISOString.
Qed.

Lemma sequence_mapiFrom {A B : Type} (P : B -> Prop) (f : A -> nat -> option B)
  (l : list A) :
  (forall x i y, f x i = Some y -> P y) ->
  forall k out,
    sequence (mapiFrom f k l) = Some out ->
    List.length out = List.length l /\ Forall P out.
Proof.
  intros Hf. induction l as [|x l IH]; intros k out; simpl.
  - intros H. injection H as <-. split; [reflexivity|constructor].
  - destruct (f x k) as [y|] eqn:E; [|discriminate].
    destruct (sequence (mapiFrom f (S k) l)) as [out'|] eqn:Es; [|discriminate].
    intros H. injection H as <-. destruct (IH _ _ Es) as [L F].
    split; [simpl; congruence|].
    constructor; [apply (Hf _ _ _ E)|exact F].
Qed.

(** X6.  On every host, when [normalizeTasks] returns, it returns one task
    per record, and every task has a finite revenue, a finite [timeTaken]
    above zero, a [createdAt] date and, if it is Done, a [completedAt]
    date, whatever the records held. *)
Theorem normalizeTasks_wellFormed uuid now input out :
  normalizeTasks uuid now input = Some out ->
  List.length out = List.length input /\ Forall wellFormed out.
Proof.
  unfold normalizeTasks, mapi. apply sequence_mapiFrom.
  intros t idx t'. apply normalizeTask_wellFormed.
Qed.

End LoaderFacts.

(** A record with no usable number and no date, Done. *)
Definition brokenRecord : RawTask :=
  {| r_id := None; r_title := None; r_revenue := Absent;
     r_timeTaken := Num (-2)%float; r_priority := High; r_status := Done;
     r_notes := None; r_createdAt := None; r_completedAt := None |}.

(** A record whose [createdAt] carries a UTC offset. *)
Definition offsetRecord : RawTask :=
  rawTask (Some "x") (Some "2024-01-08T10:00:00+02:00").

Definition loaded : list Task :=
  [ {| id := "u"; title := ""; revenue := zero; timeTaken := one;
       priority := High; status := Done; notes := None;
       createdAt := "2023-11-13T22:13:20.000Z";
       completedAt := Some "2023-11-14T22:13:20.000Z" |};
    {| id := "x"; title := "t"; revenue := 10%float; timeTaken := 2%float;
       priority := Low; status := Todo; notes := None;
       createdAt := "2024-01-08T08:00:00.000Z";
       completedAt := None |} ].

Lemma normalizeTasks_wellFormed_witness :
  normalizeTasks (fun _ => "u") clock [brokenRecord; offsetRecord]
  = Some loaded
  /\ List.length loaded = 2%nat /\ Forall wellFormed loaded.
Proof.
  assert (E : normalizeTasks (fun _ => "u") clock [brokenRecord; offsetRecord]
              = Some loaded)
    by (vm_compute; reflexivity).
  split; [exact E|].
  exact (normalizeTasks_wellFormed (fun _ => "u") clock
           [brokenRecord; offsetRecord] loaded E).
Defined.

(* ================================================================== *)
(** * Numbers: whole numbers, sums and signs *)
(* ================================================================== *)

Module FloatExact.
Import JsNum FloatOrder.

Lemma digits2_iter_xO p k :
  Z.pos (digits2_pos (Pos.iter xO p k)) = Z.pos (digits2_pos p) + Z.pos k.
Proof.
  induction k as [|k IH] using Pos.peano_ind.
  - simpl. lia.
  - rewrite Pos.iter_succ. simpl digits2_pos. rewrite Pos2Z.inj_succ, IH. lia.
Qed.

(** A mantissa of 53 digits at an exponent in range is kept as it is. *)
Lemma binary_round_aux_exact s m e :
  Z.pos (digits2_pos m) = 53 -> -1074 <= e <= 971 ->
  binary_round_aux prec emax s (Z.pos m) e loc_Exact = S754_finite s m e.
Proof.
  intros Hd He.
  assert (F : forall l, shr_fexp prec emax (Z.pos m) e l
                        = (shr_record_of_loc (Z.pos m) l, e)).
  { intros l. unfold shr_fexp, shr. simpl Zdigits2. rewrite Hd.
    unfold fexp, SpecFloat.emin, prec, emax.
    replace (Z.max (53 + e - 53) (3 - 1024 - 53) - e) with 0 by lia.
    reflexivity. }
  unfold binary_round_aux. rewrite F. simpl. rewrite F. simpl.
  unfold prec, emax. change (1024 - 53) with 971.
  destruct (Z.leb_spec e 971); [reflexivity|lia].
Qed.

(** A whole number below [2^53] is a number: it is only shifted to 53
    digits. *)
Lemma binary_round_small s p :
  Z.pos p < 2 ^ 53 ->
  exists m e, binary_round prec emax s p 0 = S754_finite s m e
              /\ bounded prec emax m e = true
              /\ -52 <= e <= 0
              /\ Z.pos m = Z.pos p * 2 ^ (- e).
Proof.
  intros Hp.
  pose proof (digits2_bounds p) as [L U].
  set (d := Z.pos (digits2_pos p)) in *.
  assert (Hd : 1 <= d <= 53).
  { split; [unfold d; lia|].
    destruct (Z_le_gt_dec d 53) as [|G]; [assumption|].
    assert (2 ^ 53 <= 2 ^ (d - 1)) by (apply Z.pow_le_mono_r; lia). lia. }
  unfold binary_round. fold d.
  unfold fexp, SpecFloat.emin, prec, emax.
  replace (Z.max (d + 0 - 53) (3 - 1024 - 53)) with (d - 53) by lia.
  unfold shl_align.
  destruct (d - 53 - 0) as [|k|k] eqn:E; try lia.
  - exists p, 0. split; [|split; [|split]].
    + apply binary_round_aux_exact; [fold d; lia|lia].
    + unfold bounded, canonical_mantissa, fexp, SpecFloat.emin, prec, emax.
      fold d. apply andb_true_iff. split; [apply Z.eqb_eq; lia|reflexivity].
    + lia.
    + change (2 ^ (- 0)) with 1. lia.
  - exists (Pos.iter xO p k), (d - 53).
    assert (D : Z.pos (digits2_pos (Pos.iter xO p k)) = 53).
    { rewrite digits2_iter_xO. fold d. lia. }
    split; [|split; [|split]].
    + apply binary_round_aux_exact; [exact D|lia].
    + unfold bounded, canonical_mantissa, fexp, SpecFloat.emin, prec, emax.
      rewrite D. apply andb_true_iff. split; [apply Z.eqb_eq; lia|].
      apply Z.leb_le. lia.
    + lia.
    + rewrite iter_xO. f_equal. f_equal. lia.
Qed.

(** The number of a whole number other than zero, below [2^53] in size. *)
Lemma Z2float_small z :
  z <> 0 -> Z.abs z < 2 ^ 53 ->
  exists m e, Prim2SF (Z2float z) = S754_finite (z <? 0) m e
              /\ -52 <= e <= 0 /\ Z.pos m = Z.abs z * 2 ^ (- e).
Proof.
  intros Hz Hs. unfold Z2float.
  destruct z as [|p|p]; [congruence| |]; simpl binary_normalize.
  - destruct (binary_round_small false p) as (m & e & E & B & R & V); [lia|].
    rewrite E. exists m, e. split; [apply Prim2SF_SF2Prim; exact B|].
    split; assumption.
  - destruct (binary_round_small true p) as (m & e & E & B & R & V); [lia|].
    rewrite E. exists m, e. split; [apply Prim2SF_SF2Prim; exact B|].
    split; assumption.
Qed.

(** The number of a positive integer below [2^53] is finite and positive. *)
Lemma Z2float_positive z :
  0 < z < 2 ^ 53 ->
  exists m e, Prim2SF (Z2float z) = S754_finite false m e.
Proof.
  intros Hz. destruct (Z2float_small z) as (m & e & E & _); [lia|lia|].
  replace (z <? 0) with false in E by (symmetry; apply Z.ltb_ge; lia).
  eauto.
Qed.

(** Whole numbers below [2^53] in size are numbers, exactly. *)
Lemma float2Z_Z2float z : Z.abs z < 2 ^ 53 -> float2Z (Z2float z) = z.
Proof.
  intros Hs. destruct (Z.eq_dec z 0) as [->|Hz]; [reflexivity|].
  destruct (Z2float_small z Hz Hs) as (m & e & E & R & V).
  unfold float2Z. rewrite E, V.
  assert (Hv : (if 0 <=? e then Z.abs z * 2 ^ (- e) * 2 ^ e
                else Z.abs z * 2 ^ (- e) / 2 ^ (- e)) = Z.abs z).
  { destruct (Z.leb_spec 0 e).
    - replace e with 0 by lia. change (2 ^ (- 0)) with 1.
      change (2 ^ 0) with 1. lia.
    - apply Z.div_mul. apply Z.pow_nonzero; lia. }
  rewrite Hv. destruct (Z.ltb_spec z 0); lia.
Qed.

Lemma Z2float_finite z : Z.abs z < 2 ^ 53 -> Number_isFinite (Z2float z) = true.
Proof.
  intros Hs. destruct (Z.eq_dec z 0) as [->|Hz]; [reflexivity|].
  destruct (Z2float_small z Hz Hs) as (m & e & E & _).
  unfold Number_isFinite. rewrite !ltb_spec, E.
  destruct (z <? 0); reflexivity.
Qed.

Lemma finite_cases x :
  Number_isFinite x = true ->
  (exists s, Prim2SF x = S754_zero s)
  \/ (exists s m e, Prim2SF x = S754_finite s m e).
Proof.
  unfold Number_isFinite. intros H. apply andb_true_iff in H.
  destruct H as [H1 H2]. rewrite ltb_spec in H1, H2.
  change (Prim2SF neg_infinity) with (S754_infinity true) in H1.
  change (Prim2SF infinity) with (S754_infinity false) in H2.
  destruct (Prim2SF x) as [s|s| |s m e].
  - left. eauto.
  - destruct s; discriminate.
  - discriminate.
  - right. eauto.
Qed.

(** ** Sums and quotients that are numbers *)

Lemma add_finite_not_NaN acc x :
  isNaN acc = false -> Number_isFinite x = true ->
  isNaN (PrimFloat.add acc x) = false.
Proof.
  intros Ha Hx. apply isNaN_false_iff. rewrite add_spec.
  pose proof (not_NaN acc Ha) as Na.
  destruct (finite_cases x Hx) as [[s ->]|(s & m & e & ->)];
    destruct (Prim2SF acc) as [sa|sa| |sa ma ea]; try congruence;
    unfold SF64add, SFadd; try discriminate.
  - destruct sa, s; discriminate.
  - apply binary_normalize_not_nan.
Qed.

Lemma sub_finite_not_NaN x y :
  Number_isFinite x = true -> Number_isFinite y = true ->
  isNaN (PrimFloat.sub x y) = false.
Proof.
  intros Hx Hy. apply isNaN_false_iff. rewrite sub_spec.
  destruct (finite_cases x Hx) as [[s ->]|(s & m & e & ->)];
    destruct (finite_cases y Hy) as [[s' ->]|(s' & m' & e' & ->)];
    unfold SF64sub, SFsub; try discriminate.
  - destruct s, s'; discriminate.
  - apply binary_normalize_not_nan.
Qed.

Lemma sum_finite_not_NaN l : forall acc,
  isNaN acc = false -> Forall (fun x => Number_isFinite x = true) l ->
  isNaN (fold_left PrimFloat.add l acc) = false.
Proof.
  induction l as [|x l IH]; intros acc Ha Hl; simpl; [exact Ha|].
  inversion Hl; subst. apply IH; [|assumption].
  apply add_finite_not_NaN; assumption.
Qed.

Lemma div_positive_int_not_NaN x z :
  isNaN x = false -> 0 < z < 2 ^ 53 ->
  isNaN (PrimFloat.div x (Z2float z)) = false.
Proof.
  intros Hx Hz. apply isNaN_false_iff. rewrite div_spec.
  destruct (Z2float_positive z Hz) as (m & e & ->).
  apply SF64div_not_nan. apply not_NaN. exact Hx.
Qed.

(** ** Numbers that are not negative *)

(** A zero of either sign, a positive number or [+Infinity]. *)
Definition notNegative (r : spec_float) : Prop :=
  match r with
  | S754_zero _ => True
  | S754_finite s _ _ | S754_infinity s => s = false
  | S754_nan => False
  end.

Lemma notNegative_ltb x :
  notNegative (Prim2SF x) -> PrimFloat.ltb x zero = false.
Proof.
  rewrite ltb_spec. change (Prim2SF zero) with (S754_zero false).
  destruct (Prim2SF x) as [s|s| |s m e]; simpl; intros H;
    try contradiction; subst; try reflexivity.
Qed.

Lemma notNegative_not_NaN x : notNegative (Prim2SF x) -> isNaN x = false.
Proof.
  intros H. apply isNaN_false_iff. intros E. rewrite E in H. exact H.
Qed.

Lemma ltb_notNegative x :
  isNaN x = false -> PrimFloat.ltb x zero = false -> notNegative (Prim2SF x).
Proof.
  intros Hn. apply not_NaN in Hn. rewrite ltb_spec.
  change (Prim2SF zero) with (S754_zero false).
  destruct (Prim2SF x) as [s|s| |s m e]; simpl; try congruence; try tauto;
    destruct s; simpl; intros H; try reflexivity; discriminate H.
Qed.

(** A finite number that is not [<= 0] is positive. *)
Lemma positive_cases t :
  Number_isFinite t = true -> PrimFloat.leb t zero = false ->
  exists m e, Prim2SF t = S754_finite false m e.
Proof.
  intros Hf Hl. rewrite leb_spec in Hl.
  change (Prim2SF zero) with (S754_zero false) in Hl.
  destruct (finite_cases t Hf) as [[s E]|(s & m & e & E)]; rewrite E in *.
  - destruct s; discriminate.
  - destruct s; [discriminate|eauto].
Qed.

(** Rounding keeps the sign it is given. *)
Lemma binary_round_aux_sign s m e l :
  match binary_round_aux prec emax s m e l with
  | S754_zero s' | S754_infinity s' | S754_finite s' _ _ => s' = s
  | S754_nan => True
  end.
Proof.
  unfold binary_round_aux.
  destruct (shr_fexp prec emax m e l) as [mrs' e'].
  destruct (shr_fexp prec emax _ e' loc_Exact) as [mrs'' e''].
  destruct (shr_m mrs'') as [|q|q]; try reflexivity.
  destruct (e'' <=? emax - prec); reflexivity.
Qed.

Lemma div_notNegative x m e :
  notNegative (Prim2SF x) ->
  notNegative (SF64div (Prim2SF x) (S754_finite false m e)).
Proof.
  intros Hx.
  pose proof (SF64div_not_nan (Prim2SF x) false m e) as N.
  destruct (Prim2SF x) as [sx|sx| |sx mx ex]; simpl in Hx; try contradiction.
  - exact I.
  - subst. reflexivity.
  - subst. specialize (N ltac:(discriminate)).
    unfold SF64div, SFdiv in *.
    destruct (SFdiv_core_binary prec emax (Z.pos mx) ex (Z.pos m) e)
      as [[mz ez] lz].
    pose proof (binary_round_aux_sign (xorb false false) mz ez lz) as S.
    destruct (binary_round_aux prec emax (xorb false false) mz ez lz);
      simpl; try exact I; try exact S. congruence.
Qed.

Lemma mul_notNegative x m e :
  notNegative (Prim2SF x) ->
  notNegative (SF64mul (Prim2SF x) (S754_finite false m e)).
Proof.
  intros Hx.
  pose proof (SF64mul_not_nan (Prim2SF x) false m e) as N.
  destruct (Prim2SF x) as [sx|sx| |sx mx ex]; simpl in Hx; try contradiction.
  - exact I.
  - subst. reflexivity.
  - subst. specialize (N ltac:(discriminate)).
    unfold SF64mul, SFmul in *.
    pose proof (binary_round_aux_sign (xorb false false) (Z.pos (mx * m))
                  (ex + e) loc_Exact) as S.
    destruct (binary_round_aux prec emax (xorb false false) (Z.pos (mx * m))
                (ex + e) loc_Exact);
      simpl; try exact I; try exact S. congruence.
Qed.

Lemma Math_round_notNegative x :
  notNegative (Prim2SF x) -> notNegative (Prim2SF (Math_round x)).
Proof.
  intros Hx. unfold Math_round.
  pose proof (Prim2SF_valid x) as V.
  destruct (Prim2SF x) as [s|s| |s m e] eqn:E; try (rewrite E; exact Hx).
  simpl in Hx. subst s.
  destruct (Z.leb_spec 0 e) as [|He]; [rewrite E; reflexivity|].
  simpl in V. apply bounded_inv in V. destruct V as (_ & Hm & _).
  set (r := (2 * Z.pos m + 2 ^ (- e)) / 2 ^ (1 - e)).
  assert (P : 0 < 2 ^ (- e)) by (apply Z.pow_pos_nonneg; lia).
  assert (Q : 2 ^ (1 - e) = 2 * 2 ^ (- e)).
  { replace (1 - e) with (Z.succ (- e)) by lia. apply Z.pow_succ_r. lia. }
  assert (Hr : 0 <= r <= Z.pos m).
  { unfold r. rewrite Q. split.
    - apply Z.div_pos; lia.
    - apply Z.lt_succ_r. apply Z.div_lt_upper_bound; [lia|].
      assert (1 <= 2 ^ (- e)) by lia. nia. }
  destruct (Z.eqb_spec r 0) as [|Hn]; [exact I|].
  destruct (Z2float_positive r) as (m' & e' & ->); [lia|reflexivity].
Qed.

End FloatExact.

Module FloatSums.
Import JsNum FloatOrder FloatExact.

(** ** Sums of whole numbers do not overflow *)

Lemma digits2_le p k : Z.pos p < 2 ^ k -> 0 <= k -> Z.pos (digits2_pos p) <= k.
Proof.
  intros Hp Hk. pose proof (digits2_bounds p) as [L _].
  destruct (Z_le_gt_dec (Z.pos (digits2_pos p)) k) as [|G]; [assumption|].
  assert (2 ^ k <= 2 ^ (Z.pos (digits2_pos p) - 1))
    by (apply Z.pow_le_mono_r; lia).
  lia.
Qed.

(** The shift to the exponent of the format: the mantissa does not grow,
    and the exponent is that of a number below [2^(k + e)]. *)
Lemma shr_fexp_le m e l k :
  0 < m < 2 ^ k -> 0 <= k -> emin64 <= e ->
  shr_m (fst (shr_fexp prec emax m e l)) <= m
  /\ snd (shr_fexp prec emax m e l) <= Z.max e (k + e - 53).
Proof.
  intros Hm Hk He. unfold shr_fexp, shr.
  assert (Hr : shr_m (shr_record_of_loc m l) = m)
    by (destruct l as [|[]]; reflexivity).
  destruct m as [|p|p]; try lia. simpl Zdigits2.
  pose proof (digits2_le p k ltac:(lia) Hk) as Hd.
  unfold fexp, SpecFloat.emin, prec, emax, emin64 in *.
  set (d := Z.pos (digits2_pos p)) in *.
  destruct (Z.max (d + e - 53) (3 - 1024 - 53) - e) as [|n|n] eqn:En;
    simpl fst; simpl snd.
  - rewrite Hr. lia.
  - destruct (iter_pos_shr_1 n (shr_record_of_loc (Z.pos p) l)) as [_ E];
      [rewrite Hr; lia|].
    rewrite E, Hr. split; [|lia].
    assert (0 < 2 ^ Z.pos n) by (apply Z.pow_pos_nonneg; lia).
    apply Z.div_le_upper_bound; [lia|nia].
  - rewrite Hr. lia.
Qed.

Lemma binary_round_aux_finite s m e l k :
  0 < m < 2 ^ k -> 53 <= k <= 400 -> emin64 <= e <= 0 ->
  exists m' e', binary_round_aux prec emax s m e l = S754_finite s m' e'.
Proof.
  intros Hm Hk He.
  pose proof (binary_round_aux_signed s m e l ltac:(lia) ltac:(lia)) as Hs.
  revert Hs. unfold binary_round_aux.
  pose proof (shr_fexp_pos m e l ltac:(lia) ltac:(lia)) as [P1 P2].
  pose proof (shr_fexp_le m e l k Hm ltac:(lia) ltac:(lia)) as [L1 L2].
  destruct (shr_fexp prec emax m e l) as [mrs' e'].
  simpl fst in *; simpl snd in *.
  set (m2 := round_nearest_even (shr_m mrs') (loc_of_shr_record mrs')).
  assert (Hr : 0 < m2 <= shr_m mrs' + 1).
  { unfold m2, round_nearest_even.
    destruct (loc_of_shr_record mrs') as [|[]]; try lia.
    destruct (Z.even (shr_m mrs')); lia. }
  assert (Hm2 : 0 < m2 < 2 ^ (k + 1)).
  { replace (k + 1) with (Z.succ k) by lia. rewrite Z.pow_succ_r by lia.
    lia. }
  pose proof (shr_fexp_le m2 e' loc_Exact (k + 1) Hm2 ltac:(lia) P2)
    as [_ L4].
  destruct (shr_fexp prec emax m2 e' loc_Exact) as [mrs'' e''].
  simpl snd in *.
  destruct (shr_m mrs'') as [|q|q]; simpl; try contradiction.
  unfold emax, prec in *. change (1024 - 53) with 971.
  destruct (Z.leb_spec e'' 971); [eauto|lia].
Qed.

Lemma binary_round_finite s p e :
  Z.pos p < 2 ^ 106 -> -52 <= e <= 0 ->
  exists m' e', binary_round prec emax s p e = S754_finite s m' e'.
Proof.
  intros Hp He. unfold binary_round.
  pose proof (digits2_le p 106 Hp ltac:(lia)) as Hd.
  pose proof (digits2_bounds p) as [L U].
  set (d := Z.pos (digits2_pos p)) in *.
  assert (D0 : 0 < d) by (unfold d; lia).
  clearbody d.
  assert (Hf : fexp prec emax (d + e) = d + e - 53).
  { unfold fexp, SpecFloat.emin, prec, emax. lia. }
  rewrite Hf.
  destruct (shl_align p e (d + e - 53)) as [mz ez] eqn:E.
  assert (B : Z.pos mz < 2 ^ 200 /\ emin64 <= ez <= 0).
  { unfold shl_align in E.
    destruct (d + e - 53 - e) as [|n|n] eqn:En; inversion E; subst.
    - split; [|unfold emin64; lia].
      apply Z.lt_trans with (2 ^ 106); [exact Hp|reflexivity].
    - split; [|unfold emin64; lia].
      apply Z.lt_trans with (2 ^ 106); [exact Hp|reflexivity].
    - split; [|unfold emin64; lia].
      unfold shift_pos. rewrite iter_xO.
      assert (Z.pos n <= 52) by lia.
      assert (0 < 2 ^ Z.pos n <= 2 ^ 52)
        by (split; [apply Z.pow_pos_nonneg; lia|apply Z.pow_le_mono_r; lia]).
      change (2 ^ 200) with (2 ^ 106 * 2 ^ 94).
      assert (2 ^ 52 < 2 ^ 94) by reflexivity. nia. }
  apply (binary_round_aux_finite s (Z.pos mz) ez loc_Exact 200); lia.
Qed.

(** The numbers of whole numbers from 0, below [2^53]. *)
Definition smallCount (x : spec_float) : Prop :=
  match x with
  | S754_zero _ => True
  | S754_finite s m e => s = false /\ Z.pos m < 2 ^ 53 /\ -52 <= e <= 0
  | _ => False
  end.

Lemma Z2float_smallCount z :
  0 <= z < 2 ^ 53 -> smallCount (Prim2SF (Z2float z)).
Proof.
  intros Hz. destruct (Z.eq_dec z 0) as [->|Hn]; [exact I|].
  pose proof (Prim2SF_valid (Z2float z)) as V.
  destruct (Z2float_small z Hn ltac:(lia)) as (m & e & E & R & _).
  rewrite E in *. simpl in V. apply bounded_inv in V.
  simpl. split; [apply Z.ltb_ge; lia|]. split; [apply V|exact R].
Qed.

(** The sum of two of them is a finite number. *)
Lemma add_smallCount x y :
  smallCount (Prim2SF x) -> smallCount (Prim2SF y) ->
  Number_isFinite (PrimFloat.add x y) = true.
Proof.
  intros Hx Hy. unfold Number_isFinite. rewrite !ltb_spec, add_spec.
  change (Prim2SF neg_infinity) with (S754_infinity true).
  change (Prim2SF infinity) with (S754_infinity false).
  destruct (Prim2SF x) as [sx|sx| |sx mx ex]; simpl in Hx; try contradiction;
    destruct (Prim2SF y) as [sy|sy| |sy my ey]; simpl in Hy;
      try contradiction.
  - destruct sx, sy; reflexivity.
  - destruct Hy as (-> & _). reflexivity.
  - destruct Hx as (-> & _). reflexivity.
  - destruct Hx as (-> & Mx & Ex), Hy as (-> & My & Ey).
    unfold SF64add, SFadd. simpl cond_Zopp.
    set (ez := Z.min ex ey).
    pose proof (shl_align_fst mx ex ez ltac:(unfold ez; lia)) as Ax.
    pose proof (shl_align_fst my ey ez ltac:(unfold ez; lia)) as Ay.
    assert (Px : 0 < 2 ^ (ex - ez) <= 2 ^ 52)
      by (split; [apply Z.pow_pos_nonneg; unfold ez; lia
                 |apply Z.pow_le_mono_r; unfold ez; lia]).
    assert (Py : 0 < 2 ^ (ey - ez) <= 2 ^ 52)
      by (split; [apply Z.pow_pos_nonneg; unfold ez; lia
                 |apply Z.pow_le_mono_r; unfold ez; lia]).
    simpl Z.add. 
    destruct (binary_round_finite false
                (fst (shl_align mx ex ez) + fst (shl_align my ey ez)) ez)
      as (m' & e' & E).
    + rewrite Pos2Z.inj_add, Ax, Ay.
      change (2 ^ 106) with (2 ^ 53 * 2 ^ 52 + 2 ^ 53 * 2 ^ 52). nia.
    + unfold ez. lia.
    + simpl binary_normalize. rewrite E. reflexivity.
Qed.

(** A finite number over a number that is neither [NaN] nor a zero. *)
Lemma div_by_nonzero_not_NaN x y :
  Number_isFinite x = true -> isNaN y = false -> PrimFloat.eqb y zero = false ->
  isNaN (PrimFloat.div x y) = false.
Proof.
  intros Hx Hy Hz. apply isNaN_false_iff. rewrite div_spec.
  apply not_NaN in Hy. rewrite eqb_spec in Hz.
  change (Prim2SF zero) with (S754_zero false) in Hz.
  destruct (Prim2SF y) as [sy|sy| |sy my ey]; try congruence.
  - destruct sy; discriminate.
  - destruct (finite_cases x Hx) as [[s ->]|(s & m & e & ->)]; discriminate.
  - apply SF64div_not_nan.
    destruct (finite_cases x Hx) as [[s ->]|(s & m & e & ->)]; discriminate.
Qed.

End FloatSums.

Module FloatUnit.
Import JsNum FloatOrder.

(** ** Multiplying by one *)

Lemma Prim2SF_one : Prim2SF one = S754_finite false 4503599627370496 (-52).
Proof. reflexivity. Qed.

(** The product of a mantissa and [2^52], shifted back by 52 digits, is
    the mantissa, with nothing lost. *)
Lemma shr_52 m :
  iter_pos shr_1 52
    (shr_record_of_loc (Z.pos (4503599627370496 * m)) loc_Exact)
  = shr_record_of_loc (Z.pos m) loc_Exact.
Proof. reflexivity. Qed.

Lemma Prim2SF_mul_one x : Prim2SF (PrimFloat.mul x one) = Prim2SF x.
Proof.
  rewrite mul_spec, Prim2SF_one.
  pose proof (Prim2SF_valid x) as V.
  destruct (Prim2SF x) as [s|s| |s m e]; simpl; try reflexivity.
  - destruct s; reflexivity.
  - destruct s; reflexivity.
  - simpl in V. unfold bounded, canonical_mantissa in V.
    apply andb_true_iff in V. destruct V as [C B].
    apply Z.eqb_eq in C. apply Z.leb_le in B.
    unfold SF64mul, SFmul. rewrite xorb_false_r.
    rewrite Pos.mul_comm.
    assert (D : Z.pos (digits2_pos (4503599627370496 * m))
                = Z.pos (digits2_pos m) + 52).
    { change (4503599627370496 * m)%positive
        with (Pos.iter xO m 52). rewrite FloatExact.digits2_iter_xO.
      reflexivity. }
    assert (F1 : shr_fexp prec emax (Z.pos (4503599627370496 * m)) (e + -52)
                          loc_Exact
                 = (shr_record_of_loc (Z.pos m) loc_Exact, e)).
    { unfold shr_fexp.
      change (Zdigits2 (Z.pos (4503599627370496 * m)))
        with (Z.pos (digits2_pos (4503599627370496 * m))).
      rewrite D.
      replace (Z.pos (digits2_pos m) + 52 + (e + -52))
        with (Z.pos (digits2_pos m) + e) by lia.
      rewrite C. replace (e - (e + -52)) with 52 by lia.
      unfold shr. rewrite shr_52. f_equal. lia. }
    assert (F2 : shr_fexp prec emax (Z.pos m) e loc_Exact
                 = (shr_record_of_loc (Z.pos m) loc_Exact, e)).
    { unfold shr_fexp.
      change (Zdigits2 (Z.pos m)) with (Z.pos (digits2_pos m)).
      rewrite C, Z.sub_diag. reflexivity. }
    unfold binary_round_aux. rewrite F1.
    cbn [shr_record_of_loc shr_m loc_of_shr_record shr_r shr_s
         round_nearest_even].
    rewrite F2.
    cbn [shr_record_of_loc shr_m].
    destruct (Z.leb_spec e (emax - prec)); [reflexivity|lia].
Qed.

Lemma mul_one x : PrimFloat.mul x one = x.
Proof.
  rewrite <- (SF2Prim_Prim2SF (PrimFloat.mul x one)), Prim2SF_mul_one.
  apply SF2Prim_Prim2SF.
Qed.

End FloatUnit.

(* ================================================================== *)
(** * The figures of the dashboard *)
(* ================================================================== *)

(** ** The sign of the ROI *)

(** X7.  An ROI that is not [null] is a number, never [NaN], and it is not
    negative when the revenue is not. *)
Theorem computeROI_not_negative r t v :
  computeROI r t = Some v ->
  isNaN v = false
  /\ (PrimFloat.ltb r zero = false -> PrimFloat.ltb v zero = false).
Proof.
  intros H. split; [apply (computeROI_not_NaN r t v H)|].
  revert H. unfold computeROI.
  destruct (Number_isFinite r) eqn:Fr; simpl; [|discriminate].
  destruct (Number_isFinite t) eqn:Ft; simpl; [|discriminate].
  destruct (PrimFloat.leb t zero) eqn:Lt; [discriminate|].
  destruct (Number_isFinite (PrimFloat.div r t)); simpl; [|discriminate].
  intros H Hr. injection H as <-.
  destruct (FloatExact.positive_cases t Ft Lt) as (mt & et & Et).
  destruct FloatOrder.hundred_finite as (mh & eh & Eh).
  apply FloatExact.notNegative_ltb.
  rewrite div_spec, Eh. apply FloatExact.div_notNegative.
  apply FloatExact.Math_round_notNegative.
  rewrite mul_spec, Eh. apply FloatExact.mul_notNegative.
  rewrite div_spec, Et. apply FloatExact.div_notNegative.
  apply FloatExact.ltb_notNegative; [|exact Hr].
  apply FloatOrder.finite_not_NaN. exact Fr.
Qed.

Lemma computeROI_not_negative_witness :
  computeROI 100%float 3%float = Some 0x1.0aa3d70a3d70ap+5%float
  /\ isNaN 0x1.0aa3d70a3d70ap+5%float = false
  /\ PrimFloat.ltb 0x1.0aa3d70a3d70ap+5%float zero = false.
Proof.
  assert (E : computeROI 100%float 3%float = Some 0x1.0aa3d70a3d70ap+5%float)
    by (vm_compute; reflexivity).
  destruct (computeROI_not_negative _ _ _ E) as [N S].
  split; [exact E|]. split; [exact N|]. apply S. reflexivity.
Defined.

(** ** Days between two dates *)

Lemma isNaN_Math_round x : isNaN (Math_round x) = isNaN x.
Proof.
  destruct (isNaN x) eqn:E.
  - apply FloatOrder.isNaN_spec in E. unfold Math_round. rewrite E.
    apply FloatOrder.isNaN_spec. exact E.
  - apply FloatOrder.Math_round_not_NaN. exact E.
Qed.

Lemma isNaN_Math_max_zero y : isNaN (Math_max zero y) = isNaN y.
Proof.
  unfold Math_max. change (isNaN zero) with false. simpl orb.
  destruct (isNaN y) eqn:E; [reflexivity|].
  destruct (PrimFloat.ltb zero y); [exact E|].
  destruct (PrimFloat.ltb y zero); reflexivity.
Qed.

(** [Math.max(0, y)] is not below zero. *)
Lemma Math_max_zero_not_negative y :
  PrimFloat.ltb (Math_max zero y) zero = false.
Proof.
  unfold Math_max. change (isNaN zero) with false. simpl orb.
  destruct (isNaN y) eqn:E; [reflexivity|].
  destruct (PrimFloat.ltb zero y) eqn:L.
  - destruct (PrimFloat.ltb y zero) eqn:G; [|reflexivity].
    apply (FloatOrder.ltb_fkey zero y eq_refl E) in L.
    apply (FloatOrder.ltb_fkey y zero E eq_refl) in G.
    exfalso. exact (FloatOrder.lexlt_irrefl _ (FloatOrder.lexlt_trans _ _ _ L G)).
  - destruct (PrimFloat.ltb y zero); reflexivity.
Qed.

Lemma isNaN_div_days x :
  isNaN (PrimFloat.div x (Z2float (24 * 3600 * 1000))) = isNaN x.
Proof.
  destruct (isNaN x) eqn:E.
  - apply FloatOrder.isNaN_spec in E. apply FloatOrder.isNaN_spec.
    rewrite div_spec, E. reflexivity.
  - apply FloatExact.div_positive_int_not_NaN; [exact E|lia].
Qed.

Lemma isNaN_getTime d : isNaN (getTime d) = true <-> d = None.
Proof.
  destruct d as [t|]; simpl.
  - rewrite FloatOrder.Z2float_not_NaN. split; discriminate.
  - split; reflexivity.
Qed.

Section DaysFacts.
Context {host : Host}.

(** X8.  On every host, [daysBetween] is never below zero, and it is
    [NaN] exactly when one of the two strings is an invalid date for
    [new Date]. *)
Theorem daysBetween_not_negative a b :
  PrimFloat.ltb (daysBetween a b) zero = false
  /\ (isNaN (daysBetween a b) = true
      <-> Date_parse a = None \/ Date_parse b = None).
Proof.
  unfold daysBetween. cbv zeta. split; [apply Math_max_zero_not_negative|].
  rewrite isNaN_Math_max_zero, isNaN_Math_round, isNaN_div_days.
  destruct (Date_parse a) as [ta|] eqn:Ea, (Date_parse b) as [tb|] eqn:Eb;
    simpl getTime.
  - rewrite FloatExact.sub_finite_not_NaN.
    + split; [discriminate|]. intros [H|H]; discriminate.
    + apply FloatExact.Z2float_finite.
      apply JsDateFacts.Date_parse_in_range in Eb. lia.
    + apply FloatExact.Z2float_finite.
      apply JsDateFacts.Date_parse_in_range in Ea. lia.
  - split; [right; reflexivity|]. intros _.
    apply FloatOrder.isNaN_spec. rewrite sub_spec.
    destruct (Prim2SF (Z2float ta)); reflexivity.
  - split; [left; reflexivity|]. intros _.
    apply FloatOrder.isNaN_spec. rewrite sub_spec.
    destruct (Prim2SF (Z2float tb)); reflexivity.
  - split; [left; reflexivity|]. intros _. reflexivity.
Qed.

End DaysFacts.

(** Two days apart, written without seconds; and a string that is no
    date. *)
Example daysBetween_examples :
  daysBetween "2024-01-01T00:00Z" "2024-01-03T00:00Z" = 2%float
  /\ daysBetween "2024-01-03" "2024-01-01T00:00:00+01:00" = zero
  /\ isNaN (daysBetween "yesterday" "2024-01-03") = true.
Proof. vm_compute. repeat split; reflexivity. Qed.

(** ** The grade *)

(** The grades, from the lowest. *)
Definition gradeRank (g : Grade) : nat :=
  match g with
  | NeedsImprovement => 0
  | Good => 1
  | Excellent => 2
  end.

Lemma ltb_numbers x y :
  PrimFloat.ltb x y = true -> isNaN x = false /\ isNaN y = false.
Proof.
  rewrite ltb_spec. intros H. split; apply FloatOrder.isNaN_false_iff;
    intros E; rewrite E in H.
  - discriminate.
  - destruct (Prim2SF x) as [| | |]; discriminate.
Qed.

Lemma leb_numbers x y :
  PrimFloat.leb x y = true -> isNaN x = false /\ isNaN y = false.
Proof.
  rewrite leb_spec. intros H. split; apply FloatOrder.isNaN_false_iff;
    intros E; rewrite E in H.
  - discriminate.
  - destruct (Prim2SF x) as [| | |]; discriminate.
Qed.

Lemma ltb_leb_trans x y z :
  PrimFloat.ltb x y = true -> PrimFloat.leb y z = true ->
  PrimFloat.ltb x z = true.
Proof.
  intros H1 H2.
  destruct (ltb_numbers _ _ H1) as [Nx Ny].
  destruct (leb_numbers _ _ H2) as [_ Nz].
  apply (FloatOrder.ltb_fkey x y Nx Ny) in H1.
  apply (FloatOrder.leb_fkey y z Ny Nz) in H2.
  apply (FloatOrder.ltb_fkey x z Nx Nz).
  destruct (FloatOrder.lexcmp (FloatOrder.fkey y) (FloatOrder.fkey z)) eqn:C;
    [| |congruence].
  - apply FloatOrder.lexcmp_Eq in C. rewrite <- C. exact H1.
  - apply FloatOrder.lexcmp_Lt in C.
    exact (FloatOrder.lexlt_trans _ _ _ H1 C).
Qed.

Lemma leb_leb_trans x y z :
  PrimFloat.leb x y = true -> PrimFloat.leb y z = true ->
  PrimFloat.leb x z = true.
Proof.
  intros H1 H2.
  destruct (leb_numbers _ _ H1) as [Nx Ny].
  destruct (leb_numbers _ _ H2) as [_ Nz].
  apply (FloatOrder.leb_fkey x y Nx Ny) in H1.
  apply (FloatOrder.leb_fkey y z Ny Nz) in H2.
  apply (FloatOrder.leb_fkey x z Nx Nz).
  exact (FloatOrder.lexcmp_le_trans _ _ _ H1 H2).
Qed.

(** X9.  The grade grows with the average ROI: a larger average never gets
    a lower grade.  An average that is [NaN] gets the lowest one. *)
Theorem computePerformanceGrade_monotone a b :
  PrimFloat.leb a b = true ->
  (gradeRank (computePerformanceGrade a)
   <= gradeRank (computePerformanceGrade b))%nat
  /\ computePerformanceGrade nan = NeedsImprovement.
Proof.
  intros H. split; [|reflexivity]. unfold computePerformanceGrade.
  destruct (PrimFloat.ltb 500%float a) eqn:A1.
  - rewrite (ltb_leb_trans _ _ _ A1 H). simpl. lia.
  - destruct (PrimFloat.leb 200%float a) eqn:A2.
    + rewrite (leb_leb_trans _ _ _ A2 H).
      destruct (PrimFloat.ltb 500%float b); simpl; lia.
    + simpl. lia.
Qed.

Lemma computePerformanceGrade_monotone_witness :
  (gradeRank (computePerformanceGrade 200%float)
   <= gradeRank (computePerformanceGrade 500.5%float))%nat
  /\ computePerformanceGrade 200%float = Good
  /\ computePerformanceGrade 500.5%float = Excellent
  /\ computePerformanceGrade 500%float = Good.
Proof.
  split; [|vm_compute; repeat split; reflexivity].
  apply (computePerformanceGrade_monotone 200%float 500.5%float).
  reflexivity.
Defined.

(** ** Averages over the tasks *)

(** The length of an array is below [2^32]. *)
Definition arrayLength {A : Type} (l : list A) : Prop :=
  Z.of_nat (List.length l) < 2 ^ 32.

Lemma finiteROIs_finite tasks :
  Forall (fun v => Number_isFinite v = true) (finiteROIs tasks).
Proof.
  unfold finiteROIs. induction tasks as [|t l IH]; simpl; [constructor|].
  apply Forall_app. split; [|exact IH].
  destruct (computeROI (revenue t) (timeTaken t)) as [v|]; [|constructor].
  destruct (Number_isFinite v) eqn:E; constructor; [exact E|constructor].
Qed.

Lemma finiteROIs_length tasks :
  (List.length (finiteROIs tasks) <= List.length tasks)%nat.
Proof.
  unfold finiteROIs. induction tasks as [|t l IH]; simpl; [lia|].
  rewrite length_app.
  destruct (computeROI (revenue t) (timeTaken t)) as [v|]; simpl; [|lia].
  destruct (Number_isFinite v); simpl; lia.
Qed.

(** X10.  The average ROI is a number, never [NaN]: the ROIs that are
    [null] or not finite are left out of it, and with none left it is 0. *)
Theorem computeAverageROI_number tasks :
  arrayLength tasks ->
  isNaN (computeAverageROI tasks) = false
  /\ ((forall t, In t tasks -> computeROI (revenue t) (timeTaken t) = None) ->
      computeAverageROI tasks = zero).
Proof.
  intros Hl. unfold computeAverageROI. cbv zeta.
  pose proof (finiteROIs_finite tasks) as Hf.
  pose proof (finiteROIs_length tasks) as Hn.
  split.
  - destruct (finiteROIs tasks) as [|v rois] eqn:E; [reflexivity|].
    apply FloatExact.div_positive_int_not_NaN.
    + apply FloatExact.sum_finite_not_NaN; [reflexivity|exact Hf].
    + unfold arrayLength in Hl. simpl List.length in *.
      assert (2 ^ 32 < 2 ^ 53) by reflexivity. lia.
  - intros Hnone.
    assert (E : finiteROIs tasks = []).
    { unfold finiteROIs. clear -Hnone.
      induction tasks as [|t l IH]; simpl; [reflexivity|].
      rewrite (Hnone t) by (left; reflexivity). simpl.
      apply IH. intros t' Ht'. apply Hnone. right. exact Ht'. }
    rewrite E. reflexivity.
Qed.

Definition averageSample : list Task :=
  [ sampleTask "a" "A";
    {| id := "b"; title := "B"; revenue := nan; timeTaken := 2%float;
       priority := Low; status := Done; notes := None;
       createdAt := "2024-01-01T00:00:00.000Z"; completedAt := None |};
    {| id := "c"; title := "C"; revenue := 300%float; timeTaken := zero;
       priority := Low; status := Done; notes := None;
       createdAt := "2024-01-01T00:00:00.000Z"; completedAt := None |} ].

Lemma computeAverageROI_number_witness :
  isNaN (computeAverageROI averageSample) = false
  /\ computeAverageROI averageSample = 50%float.
Proof.
  split; [|vm_compute; reflexivity].
  apply (computeAverageROI_number averageSample). reflexivity.
Defined.

Lemma lengthNumber_notNegative {A : Type} (l : list A) :
  arrayLength l -> FloatExact.notNegative (Prim2SF (lengthNumber l)).
Proof.
  unfold arrayLength, lengthNumber. intros Hl.
  assert (2 ^ 32 < 2 ^ 53) by reflexivity.
  destruct l as [|x l]; [exact I|].
  destruct (FloatExact.Z2float_positive (Z.of_nat (List.length (x :: l))))
    as (m & e & ->); [simpl List.length in *; lia|reflexivity].
Qed.

Lemma filter_arrayLength {A : Type} (p : A -> bool) (l : list A) :
  arrayLength l -> arrayLength (filter p l).
Proof.
  unfold arrayLength. pose proof (filter_length_le p l). lia.
Qed.

(** X11.  The share of the tasks that are Done is a number, never [NaN]
    and never below zero; it is 0 for no task at all. *)
Theorem computeTimeEfficiency_number tasks :
  arrayLength tasks ->
  isNaN (computeTimeEfficiency tasks) = false
  /\ PrimFloat.ltb (computeTimeEfficiency tasks) zero = false.
Proof.
  intros Hl.
  assert (N : FloatExact.notNegative (Prim2SF (computeTimeEfficiency tasks))).
  { unfold computeTimeEfficiency. destruct tasks as [|t l]; [exact I|].
    set (ts := t :: l) in *.
    destruct FloatOrder.hundred_finite as (mh & eh & Eh).
    rewrite mul_spec, Eh. apply FloatExact.mul_notNegative.
    rewrite div_spec.
    destruct (FloatExact.Z2float_positive (Z.of_nat (List.length ts)))
      as (m & e & E).
    { unfold arrayLength in Hl. assert (2 ^ 32 < 2 ^ 53) by reflexivity.
      unfold ts in *. simpl List.length in *. lia. }
    unfold lengthNumber at 2. rewrite E. apply FloatExact.div_notNegative.
    apply lengthNumber_notNegative. apply filter_arrayLength. exact Hl. }
  split; [apply FloatExact.notNegative_not_NaN|apply FloatExact.notNegative_ltb];
    exact N.
Qed.

Lemma computeTimeEfficiency_number_witness :
  isNaN (computeTimeEfficiency averageSample) = false
  /\ PrimFloat.ltb (computeTimeEfficiency averageSample) zero = false
  /\ computeTimeEfficiency [] = zero.
Proof.
  destruct (computeTimeEfficiency_number averageSample) as [N L];
    [reflexivity|].
  split; [exact N|]. split; [exact L|reflexivity].
Defined.

(** ** The funnel *)

Lemma withStatus_partition tasks :
  (List.length (withStatus Todo tasks)
   + List.length (withStatus InProgress tasks)
   + List.length (withStatus Done tasks))%nat
  = List.length tasks.
Proof.
  unfold withStatus. induction tasks as [|t l IH]; simpl; [reflexivity|].
  destruct (status t); simpl; lia.
Qed.

Lemma truthyNumber_true v :
  truthyNumber v = true -> isNaN v = false /\ PrimFloat.eqb v zero = false.
Proof.
  unfold truthyNumber. intros H. apply negb_true_iff in H.
  apply orb_false_iff in H. exact H.
Qed.

Lemma float2Z_lengthNumber {A : Type} (l : list A) :
  arrayLength l -> float2Z (lengthNumber l) = Z.of_nat (List.length l).
Proof.
  unfold arrayLength, lengthNumber. intros H.
  apply FloatExact.float2Z_Z2float.
  assert (2 ^ 32 < 2 ^ 53) by reflexivity. lia.
Qed.

Lemma lengthNumber_smallCount {A : Type} (l : list A) :
  arrayLength l -> FloatSums.smallCount (Prim2SF (lengthNumber l)).
Proof.
  unfold arrayLength, lengthNumber. intros H.
  apply FloatSums.Z2float_smallCount.
  assert (2 ^ 32 < 2 ^ 53) by reflexivity. lia.
Qed.

Lemma lengthNumber_finite {A : Type} (l : list A) :
  arrayLength l -> Number_isFinite (lengthNumber l) = true.
Proof.
  unfold arrayLength, lengthNumber. intros H.
  apply FloatExact.Z2float_finite.
  assert (2 ^ 32 < 2 ^ 53) by reflexivity. lia.
Qed.

(** X12.  The three counts of the funnel add up to the number of tasks, and
    the two conversion rates are numbers, never [NaN]: a rate whose base is
    zero is 0. *)
Theorem computeFunnel_counts tasks :
  arrayLength tasks ->
  float2Z (todo (computeFunnel tasks))
  + float2Z (inProgress (computeFunnel tasks))
  + float2Z (done (computeFunnel tasks))
  = Z.of_nat (List.length tasks)
  /\ isNaN (conversionTodoToInProgress (computeFunnel tasks)) = false
  /\ isNaN (conversionInProgressToDone (computeFunnel tasks)) = false.
Proof.
  intros Hl.
  assert (Ht : arrayLength (withStatus Todo tasks))
    by (apply filter_arrayLength; exact Hl).
  assert (Hi : arrayLength (withStatus InProgress tasks))
    by (apply filter_arrayLength; exact Hl).
  assert (Hd : arrayLength (withStatus Done tasks))
    by (apply filter_arrayLength; exact Hl).
  unfold computeFunnel. cbv zeta. simpl todo. simpl inProgress. simpl done.
  simpl conversionTodoToInProgress. simpl conversionInProgressToDone.
  split; [|split].
  - rewrite !float2Z_lengthNumber by assumption.
    rewrite <- (withStatus_partition tasks). lia.
  - match goal with |- context [truthyNumber ?b] =>
      destruct (truthyNumber b) eqn:E
    end; [|reflexivity].
    apply truthyNumber_true in E. destruct E as [N Z].
    apply FloatSums.div_by_nonzero_not_NaN; [|exact N|exact Z].
    apply FloatSums.add_smallCount; apply lengthNumber_smallCount; assumption.
  - destruct (truthyNumber (lengthNumber (withStatus InProgress tasks))) eqn:E;
      [|reflexivity].
    apply truthyNumber_true in E. destruct E as [N Z].
    apply FloatSums.div_by_nonzero_not_NaN; [|exact N|exact Z].
    apply lengthNumber_finite. exact Hd.
Qed.

Lemma computeFunnel_counts_witness :
  float2Z (todo (computeFunnel averageSample))
  + float2Z (inProgress (computeFunnel averageSample))
  + float2Z (done (computeFunnel averageSample))
  = 3
  /\ isNaN (conversionTodoToInProgress (computeFunnel averageSample)) = false
  /\ isNaN (conversionInProgressToDone (computeFunnel averageSample)) = false.
Proof.
  apply (computeFunnel_counts averageSample). reflexivity.
Defined.

(** With no task the rates are 0, not [0 / 0]. *)
Example computeFunnel_empty :
  conversionTodoToInProgress (computeFunnel []) = zero
  /\ conversionInProgressToDone (computeFunnel []) = zero.
Proof. vm_compute. split; reflexivity. Qed.

(* ================================================================== *)
(** * Grouping in a map *)
(* ================================================================== *)

Lemma mapGet_mapSet {V : Type} (k0 k : string) (v : V) m :
  mapGet k (mapSet k0 v m)
  = if String.eqb k0 k then Some v else mapGet k m.
Proof.
  induction m as [|[k' v'] m IH]; simpl.
  - reflexivity.
  - destruct (String.eqb k' k0) eqn:E0; simpl.
    + apply String.eqb_eq in E0. subst k'.
      destruct (String.eqb k0 k); reflexivity.
    + destruct (String.eqb k' k) eqn:E1.
      * apply String.eqb_eq in E1. subst k'.
        rewrite String.eqb_sym, E0. reflexivity.
      * exact IH.
Qed.

Lemma keys_mapSet {V : Type} (k : string) (v : V) m :
  map fst (mapSet k v m)
  = if in_dec string_dec k (map fst m) then map fst m
    else (map fst m ++ [k])%list.
Proof.
  induction m as [|[k' v'] m IH]; simpl; [reflexivity|].
  destruct (String.eqb k' k) eqn:E; simpl.
  - apply String.eqb_eq in E. subst k'.
    destruct (string_dec k k); [reflexivity|congruence].
  - apply String.eqb_neq in E. rewrite IH.
    destruct (string_dec k' k); [congruence|].
    destruct (in_dec string_dec k (map fst m)); reflexivity.
Qed.

Lemma keys_mapSet_NoDup {V : Type} (k : string) (v : V) m :
  NoDup (map fst m) -> NoDup (map fst (mapSet k v m)).
Proof.
  intros H. rewrite keys_mapSet.
  destruct (in_dec string_dec k (map fst m)); [exact H|].
  apply NoDup_snoc; assumption.
Qed.

Lemma mapGet_key {V : Type} (k : string) (m : list (string * V)) :
  In k (map fst m) <-> mapGet k m <> None.
Proof.
  induction m as [|[k' v'] m IH]; simpl.
  - split; [contradiction|congruence].
  - destruct (String.eqb k' k) eqn:E.
    + apply String.eqb_eq in E. split; [discriminate|]. intros _. left. exact E.
    + apply String.eqb_neq in E. rewrite <- IH. split; [|tauto].
      intros [H|H]; [congruence|exact H].
Qed.

Lemma mapGet_In {V : Type} (k : string) (v : V) (m : list (string * V)) :
  NoDup (map fst m) -> In (k, v) m -> mapGet k m = Some v.
Proof.
  induction m as [|[k' v'] m IH]; simpl; [contradiction|].
  intros Hn [H|H].
  - injection H as -> ->. rewrite String.eqb_refl. reflexivity.
  - inversion Hn as [|? ? Hk Hm]; subst.
    destruct (String.eqb k' k) eqn:E; [|apply IH; assumption].
    apply String.eqb_eq in E. subst k'. exfalso. apply Hk.
    apply (in_map fst) in H. exact H.
Qed.

Section GroupBy.
Context {T V : Type}.

(** The key of a record, if it is counted, and the new value of its group
    from the old one. *)
Variable key : T -> option string.
Variable upd : option V -> T -> V.

Definition groupStep (m : list (string * V)) (t : T) : list (string * V) :=
  match key t with
  | Some k => mapSet k (upd (mapGet k m) t) m
  | None => m
  end.

Definition inGroup (k : string) (t : T) : bool :=
  match key t with
  | Some k' => String.eqb k' k
  | None => false
  end.

(** The value of a group is a function of its records, in their order. *)
Variable total : list T -> V.

(** What the map holds for a group: nothing while it is empty. *)
Definition held (g : list T) : option V :=
  match g with
  | [] => None
  | _ => Some (total g)
  end.

Hypothesis total_snoc : forall g t, upd (held g) t = total (g ++ [t]).

Lemma groupBy_get l : forall k,
  mapGet k (fold_left groupStep l []) = held (filter (inGroup k) l).
Proof.
  induction l as [|t l IH] using rev_ind; intros k; [reflexivity|].
  rewrite fold_left_app, filter_app. simpl fold_left. simpl filter.
  unfold groupStep at 1. unfold inGroup at 2.
  destruct (key t) as [w|].
  - rewrite mapGet_mapSet. destruct (String.eqb w k) eqn:E.
    + apply String.eqb_eq in E. subst w. rewrite IH, total_snoc.
      unfold held. destruct (filter (inGroup k) l); reflexivity.
    + rewrite app_nil_r. apply IH.
  - rewrite app_nil_r. apply IH.
Qed.

Lemma groupBy_NoDup l : NoDup (map fst (fold_left groupStep l [])).
Proof.
  induction l as [|t l IH] using rev_ind; [constructor|].
  rewrite fold_left_app. simpl. unfold groupStep at 1.
  destruct (key t); [apply keys_mapSet_NoDup|]; exact IH.
Qed.

Lemma filter_nil_iff {A : Type} (p : A -> bool) (l : list A) :
  filter p l <> [] <-> exists x, In x l /\ p x = true.
Proof.
  split.
  - destruct (filter p l) as [|x g] eqn:E; [congruence|]. intros _.
    exists x. apply filter_In. rewrite E. left. reflexivity.
  - intros (x & Hx) E. apply filter_In in Hx. rewrite E in Hx. exact Hx.
Qed.

Lemma groupBy_keys l k :
  In k (map fst (fold_left groupStep l []))
  <-> exists t, In t l /\ key t = Some k.
Proof.
  rewrite mapGet_key, groupBy_get.
  assert (H : filter (inGroup k) l <> []
              <-> exists t, In t l /\ key t = Some k).
  { rewrite filter_nil_iff. split; intros (t & Ht & E); exists t;
      (split; [exact Ht|]); unfold inGroup in *.
    - destruct (key t) as [w|]; [|discriminate].
      apply String.eqb_eq in E. congruence.
    - rewrite E. apply String.eqb_refl. }
  rewrite <- H. unfold held.
  destruct (filter (inGroup k) l); split; congruence.
Qed.

Lemma groupBy_value l k v :
  In (k, v) (fold_left groupStep l []) ->
  v = total (filter (inGroup k) l).
Proof.
  intros H. apply (mapGet_In k v _ (groupBy_NoDup l)) in H.
  rewrite groupBy_get in H. unfold held in H.
  destruct (filter (inGroup k) l); congruence.
Qed.

End GroupBy.

Lemma fold_left_ext {A B : Type} (f g : A -> B -> A) (l : list B) :
  (forall a b, f a b = g a b) ->
  forall a, fold_left f l a = fold_left g l a.
Proof.
  intros H. induction l as [|b l IH]; intros a; simpl; [reflexivity|].
  rewrite H. apply IH.
Qed.

Lemma StronglySorted_map {A B : Type} (f : A -> B) (R : B -> B -> Prop) l :
  StronglySorted (fun x y => R (f x) (f y)) l -> StronglySorted R (map f l).
Proof.
  induction 1 as [|e l Hs IH Hf]; simpl; constructor; [exact IH|].
  apply Forall_forall. intros r Hr. apply in_map_iff in Hr.
  destruct Hr as (e' & <- & He'). rewrite Forall_forall in Hf.
  apply (Hf e' He').
Qed.

(** ** Weekly throughput *)

Section ThroughputFacts.
Context {host : Host} {engine : Engine} {collator : Collator}.

(** The week a task counts in: that of its completion, if it has one. *)
Definition completedWeek (t : Task) : option string :=
  match completedAt t with
  | Some c => if truthy c then Some (weekKeyOf (Date_parse c)) else None
  | None => None
  end.

(** The count and the revenue of the tasks of one week, added in their
    order. *)
Definition weekTotals (g : list Task) : WeekTotals :=
  {| count := fold_left (fun c _ => PrimFloat.add c one) g zero;
     wrevenue := fold_left (fun s t => PrimFloat.add s (revenue t)) g zero |}.

Definition countIn (o : option WeekTotals) (t : Task) : WeekTotals :=
  let v := match o with
           | Some v => v
           | None => {| count := zero; wrevenue := zero |}
           end in
  {| count := PrimFloat.add (count v) one;
     wrevenue := PrimFloat.add (wrevenue v) (revenue t) |}.

Lemma throughputMap_groups tasks :
  throughputMap tasks = fold_left (groupStep completedWeek countIn) tasks [].
Proof.
  unfold throughputMap. apply fold_left_ext. intros m t.
  unfold groupStep, completedWeek, countIn.
  destruct (completedAt t) as [c|]; [|reflexivity].
  destruct (truthy c); reflexivity.
Qed.

Lemma weekTotals_snoc g t :
  countIn (held weekTotals g) t = weekTotals (g ++ [t]).
Proof.
  unfold held, weekTotals. rewrite !fold_left_app. simpl.
  destruct g; reflexivity.
Qed.

(** X13.  On every host and engine, [computeThroughputByWeek] returns one
    row for each week in which a task was completed: no week twice, every
    row before the rows whose week the collation puts after its own, and
    in each row the count and the revenue of the tasks completed in that
    week, added in their order. *)
Theorem computeThroughputByWeek_rows tasks :
  NoDup (map week (computeThroughputByWeek tasks))
  /\ StronglySorted (fun a b => localeCompare (week a) (week b) <> Gt)
                    (computeThroughputByWeek tasks)
  /\ (forall w, In w (map week (computeThroughputByWeek tasks))
                <-> exists t, In t tasks /\ completedWeek t = Some w)
  /\ (forall r, In r (computeThroughputByWeek tasks) ->
        let g := filter (inGroup completedWeek (week r)) tasks in
        tcount r = count (weekTotals g)
        /\ trevenue r = wrevenue (weekTotals g)).
Proof.
  unfold computeThroughputByWeek.
  set (cmp := fun a b : string * WeekTotals =>
                cmp2num (localeCompare (fst a) (fst b))).
  set (row := fun e : string * WeekTotals =>
                {| week := fst e; tcount := count (snd e);
                   trevenue := wrevenue (snd e) |}).
  pose proof (Array_sort_perm _ cmp (throughputMap tasks)) as Hp.
  assert (Hw : map week (map row (Array_sort cmp (throughputMap tasks)))
               = map fst (Array_sort cmp (throughputMap tasks))).
  { rewrite map_map. reflexivity. }
  rewrite Hw. split; [|split; [|split]].
  - apply (Permutation_NoDup (l := map fst (throughputMap tasks))).
    + apply Permutation_map. apply Permutation_sym. exact Hp.
    + rewrite throughputMap_groups. apply groupBy_NoDup.
  - assert (Ho : ordered (fun a b : string * WeekTotals =>
                            localeCompare (fst a) (fst b))
                         (Array_sort cmp (throughputMap tasks))).
    { apply (Array_sort_ordered cmp (fun _ => True)).
      - apply (consistent_on fst). apply consistent_localeCompare.
      - intros x y _ _. unfold cmp. apply jsSign_cmp2num.
      - apply Forall_forall. intros; exact I. }
    apply (StronglySorted_map row
             (fun a b => localeCompare (week a) (week b) <> Gt)).
    exact Ho.
  - intros w. rewrite <- (groupBy_keys completedWeek countIn weekTotals
                            weekTotals_snoc tasks w).
    rewrite <- throughputMap_groups. split; intros H.
    + apply (Permutation_in _ (Permutation_map fst Hp)). exact H.
    + apply (Permutation_in _ (Permutation_map fst (Permutation_sym Hp))).
      exact H.
  - intros r Hr. cbv zeta. apply in_map_iff in Hr.
    destruct Hr as ([k v] & <- & He).
    apply (Permutation_in _ Hp) in He. rewrite throughputMap_groups in He.
    apply (groupBy_value completedWeek countIn weekTotals weekTotals_snoc)
      in He.
    simpl. rewrite He. split; reflexivity.
Qed.

End ThroughputFacts.

(** A completion written with a UTC offset counts in the week of its
    instant: 00:30 on Monday 8 January 2024 at [+02:00] is still Sunday in
    UTC, in week 1. *)
Example computeThroughputByWeek_offset :
  computeThroughputByWeek
    [ doneTask "a" 100%float "2024-01-01T00:00:00.000Z"
               "2024-01-08T00:30:00+02:00" High;
      doneTask "b" 50%float "2024-01-01T00:00:00.000Z"
               "2024-01-07T23:00Z" Low ]
  = [ {| week := "2024-W1"; tcount := 2%float; trevenue := 150%float |} ].
Proof. vm_compute. reflexivity. Qed.

(** ** Revenue by cohort *)

(** No [|] in the string. *)
Fixpoint noBar (s : string) : bool :=
  match s with
  | "" => true
  | String c s' => negb (Ascii.eqb c "|") && noBar s'
  end.

Lemma noBar_app a b : noBar (a ++ b) = noBar a && noBar b.
Proof.
  induction a as [|x a IH]; simpl; [reflexivity|].
  rewrite IH. apply andb_assoc.
Qed.

Lemma digit_not_bar n : Ascii.eqb (digit n) "|" = false.
Proof.
  destruct (Ascii.eqb (digit n) "|") eqn:E; [|reflexivity].
  apply Ascii.eqb_eq in E.
  pose proof (JsDateFacts.digitVal_digit n) as H. rewrite E in H.
  discriminate H.
Qed.

Lemma noBar_digitsFuel f : forall n, noBar (digitsFuel f n) = true.
Proof.
  induction f as [|f IH]; intros n; cbn [digitsFuel]; [reflexivity|].
  destruct (n <? 10).
  - cbn [noBar]. rewrite digit_not_bar. reflexivity.
  - rewrite noBar_app, IH. cbn [noBar]. rewrite digit_not_bar. reflexivity.
Qed.

Lemma noBar_Z_toString n : noBar (Z_toString n) = true.
Proof.
  unfold Z_toString. destruct (n <? 0); [|apply noBar_digitsFuel].
  rewrite noBar_app, noBar_digitsFuel. reflexivity.
Qed.

Lemma noBar_weekKeyOf d : noBar (weekKeyOf d) = true.
Proof.
  unfold weekKeyOf, Number_toString. rewrite !noBar_app.
  assert (H1 : noBar match d with
                     | Some t => Z_toString (getUTCFullYear t)
                     | None => "NaN"
                     end = true)
    by (destruct d; [apply noBar_Z_toString|reflexivity]).
  rewrite H1. cbn [andb].
  change (noBar "-W") with true. cbn [andb].
  destruct (isNaN (getWeekNumber d)); [reflexivity|apply noBar_Z_toString].
Qed.

Lemma noBar_priorityName p : noBar (priorityName p) = true.
Proof. destruct p; reflexivity. Qed.

Lemma splitFrom_noBar s : forall cur,
  noBar s = true -> splitFrom "|" cur s = [(cur ++ s)%string].
Proof.
  induction s as [|c s IH]; intros cur H; simpl.
  - rewrite string_app_nil_r. reflexivity.
  - simpl in H. apply andb_true_iff in H. destruct H as [Hc Hs].
    apply negb_true_iff in Hc. rewrite Hc, (IH _ Hs), string_app_assoc.
    reflexivity.
Qed.

Lemma splitFrom_bar w rest : forall cur,
  noBar w = true ->
  splitFrom "|" cur (w ++ String "|" rest)
  = (cur ++ w)%string :: splitFrom "|" "" rest.
Proof.
  induction w as [|c w IH]; intros cur H; simpl.
  - rewrite string_app_nil_r. reflexivity.
  - simpl in H. apply andb_true_iff in H. destruct H as [Hc Hs].
    apply negb_true_iff in Hc. rewrite Hc, (IH _ Hs), string_app_assoc.
    reflexivity.
Qed.

(** The key reads back as the week and the priority it was made of. *)
Lemma split_key w p :
  noBar w = true -> noBar p = true -> split "|" (w ++ "|" ++ p) = [w; p].
Proof.
  intros Hw Hp. unfold split. simpl append.
  rewrite (splitFrom_bar w p "" Hw), (splitFrom_noBar p "" Hp). reflexivity.
Qed.

Section CohortFacts.
Context {host : Host} {engine : Engine} {collator : Collator}.

(** The week a task was created in. *)
Definition createdWeek (t : Task) : string :=
  weekKeyOf (Date_parse (createdAt t)).

Lemma cohortRow_key t v :
  cohortRow (cohortKey t, v)
  = {| cweek := Some (createdWeek t);
       cpriority := Some (priorityName (priority t));
       crevenue := v |}.
Proof.
  unfold cohortRow, cohortKey. cbv zeta. cbn [fst snd].
  rewrite (split_key (weekKeyOf (Date_parse (createdAt t)))
             (priorityName (priority t)) (noBar_weekKeyOf _)
             (noBar_priorityName _)).
  reflexivity.
Qed.

Lemma priorityName_inj p q : priorityName p = priorityName q -> p = q.
Proof. destruct p, q; simpl; intros H; congruence. Qed.

Lemma cohortKey_inj t t' :
  cohortKey t = cohortKey t' ->
  createdWeek t = createdWeek t' /\ priority t = priority t'.
Proof.
  intros H.
  pose proof (cohortRow_key t zero) as R. rewrite H, cohortRow_key in R.
  injection R as Ew Ep. split; [congruence|].
  apply priorityName_inj. congruence.
Qed.

(** Two tasks of one cohort: the same week and the same priority. *)
Definition sameCohort (t t' : Task) : bool :=
  String.eqb (createdWeek t') (createdWeek t)
  && Priority_eqb (priority t') (priority t).

Lemma Priority_eqb_eq a b : Priority_eqb a b = true <-> a = b.
Proof. destruct a, b; simpl; split; congruence. Qed.

Lemma sameCohort_key t t' :
  String.eqb (cohortKey t') (cohortKey t) = sameCohort t t'.
Proof.
  unfold sameCohort.
  destruct (String.eqb (cohortKey t') (cohortKey t)) eqn:E.
  - apply String.eqb_eq in E. apply cohortKey_inj in E. destruct E as [Ew Ep].
    rewrite Ew, Ep, String.eqb_refl. symmetry.
    apply Priority_eqb_eq. reflexivity.
  - destruct (String.eqb (createdWeek t') (createdWeek t)) eqn:Ew;
      [|reflexivity].
    destruct (Priority_eqb (priority t') (priority t)) eqn:Ep; [|reflexivity].
    apply String.eqb_eq in Ew. apply Priority_eqb_eq in Ep.
    apply String.eqb_neq in E. exfalso. apply E.
    unfold cohortKey. fold (createdWeek t). fold (createdWeek t').
    rewrite Ew, Ep. reflexivity.
Qed.

(** The revenue of a group of tasks, added in their order. *)
Definition revenueOf (g : list Task) : float :=
  fold_left (fun s t => PrimFloat.add s (revenue t)) g zero.

Definition addRevenue (o : option float) (t : Task) : float :=
  PrimFloat.add (match o with Some v => v | None => zero end) (revenue t).

Lemma cohortMap_groups tasks :
  cohortMap tasks
  = fold_left (groupStep (fun t => Some (cohortKey t)) addRevenue) tasks [].
Proof. reflexivity. Qed.

Lemma revenueOf_snoc g t :
  addRevenue (held revenueOf g) t = revenueOf (g ++ [t]).
Proof.
  unfold held, revenueOf, addRevenue. rewrite fold_left_app. simpl.
  destruct g; reflexivity.
Qed.

Lemma cohortMap_In tasks k v :
  In (k, v) (cohortMap tasks) ->
  exists t, In t tasks /\ k = cohortKey t
            /\ v = revenueOf (filter (sameCohort t) tasks).
Proof.
  intros H. rewrite cohortMap_groups in H.
  pose proof (in_map fst _ _ H) as Hk. simpl in Hk.
  apply (groupBy_keys (fun t => Some (cohortKey t)) addRevenue revenueOf
           revenueOf_snoc) in Hk.
  destruct Hk as (t & Ht & E). injection E as <-.
  exists t. split; [exact Ht|]. split; [reflexivity|].
  apply (groupBy_value (fun t => Some (cohortKey t)) addRevenue revenueOf
           revenueOf_snoc) in H.
  rewrite H. f_equal. apply filter_ext. intros t'.
  unfold inGroup. apply sameCohort_key.
Qed.

(** X14.  On every host and engine, [computeCohortRevenue] returns one
    row for each pair of a creation week and a priority that a task has:
    the row carries that week and that priority, read back from the key,
    and the revenue of the tasks of the pair, added in their order; no
    pair has two rows, and every row comes before the rows whose week the
    collation puts after its own. *)
Theorem computeCohortRevenue_rows tasks :
  (forall r, In r (computeCohortRevenue tasks) ->
     exists t, In t tasks
       /\ cweek r = Some (createdWeek t)
       /\ cpriority r = Some (priorityName (priority t))
       /\ crevenue r = revenueOf (filter (sameCohort t) tasks))
  /\ (forall t, In t tasks ->
        exists r, In r (computeCohortRevenue tasks)
          /\ cweek r = Some (createdWeek t)
          /\ cpriority r = Some (priorityName (priority t)))
  /\ NoDup (map (fun r => (cweek r, cpriority r)) (computeCohortRevenue tasks))
  /\ StronglySorted
       (fun a b => localeCompare (weekOrEmpty a) (weekOrEmpty b) <> Gt)
       (computeCohortRevenue tasks).
Proof.
  unfold computeCohortRevenue.
  set (cmp := fun a b : CohortRow =>
                cmp2num (localeCompare (weekOrEmpty a) (weekOrEmpty b))).
  pose proof (Array_sort_perm _ cmp (map cohortRow (cohortMap tasks))) as Hp.
  split; [|split; [|split]].
  - intros r Hr. apply (Permutation_in _ Hp) in Hr.
    apply in_map_iff in Hr. destruct Hr as ([k v] & <- & He).
    apply cohortMap_In in He. destruct He as (t & Ht & -> & ->).
    exists t. rewrite cohortRow_key. repeat split; assumption.
  - intros t Ht.
    assert (Hk : In (cohortKey t) (map fst (cohortMap tasks))).
    { rewrite cohortMap_groups.
      apply (groupBy_keys (fun t => Some (cohortKey t)) addRevenue revenueOf
               revenueOf_snoc).
      exists t. split; [exact Ht|reflexivity]. }
    apply in_map_iff in Hk. destruct Hk as ([k v] & Ek & He).
    simpl in Ek. subst k.
    exists (cohortRow (cohortKey t, v)). split.
    + apply (Permutation_in _ (Permutation_sym Hp)).
      apply in_map. exact He.
    + rewrite cohortRow_key. split; reflexivity.
  - apply (Permutation_NoDup
             (l := map (fun r => (cweek r, cpriority r))
                       (map cohortRow (cohortMap tasks)))).
    + apply Permutation_map. apply Permutation_sym. exact Hp.
    + rewrite map_map.
      assert (Hn : NoDup (cohortMap tasks)).
      { apply (NoDup_map_inv fst). rewrite cohortMap_groups.
        apply groupBy_NoDup. }
      apply NoDup_map_NoDup_ForallPairs; [|exact Hn].
      intros [k v] [k' v'] H H' E.
      pose proof (mapGet_In k v (cohortMap tasks)) as G.
      pose proof (mapGet_In k' v' (cohortMap tasks)) as G'.
      assert (Hd : NoDup (map fst (cohortMap tasks)))
        by (rewrite cohortMap_groups; apply groupBy_NoDup).
      specialize (G Hd H). specialize (G' Hd H').
      destruct (cohortMap_In _ _ _ H) as (t & _ & -> & _).
      destruct (cohortMap_In _ _ _ H') as (t' & _ & -> & _).
      rewrite !cohortRow_key in E. simpl in E. injection E as Ew Ep.
      apply priorityName_inj in Ep.
      assert (Ek : cohortKey t = cohortKey t').
      { unfold cohortKey. fold (createdWeek t). fold (createdWeek t').
        rewrite Ew, Ep. reflexivity. }
      rewrite Ek in *. congruence.
  - apply (Array_sort_ordered cmp (fun _ => True)
             (fun a b => localeCompare (weekOrEmpty a) (weekOrEmpty b))).
    + apply (consistent_on weekOrEmpty). apply consistent_localeCompare.
    + intros x y _ _. unfold cmp. apply jsSign_cmp2num.
    + apply Forall_forall. intros; exact I.
Qed.

End CohortFacts.

Example computeCohortRevenue_sample :
  computeCohortRevenue
    [ doneTask "a" 100%float "2024-03-05T00:00:00.000Z"
               "2024-03-06T00:00:00.000Z" High;
      doneTask "b" 50%float "2024-01-10T00:00:00.000Z"
               "2024-01-11T00:00:00.000Z" Low;
      doneTask "c" 25%float "2024-03-07T00:00:00.000Z"
               "2024-03-08T00:00:00.000Z" High ]
  = [ {| cweek := Some "2024-W10"; cpriority := Some "High";
         crevenue := 125%float |};
      {| cweek := Some "2024-W2"; cpriority := Some "Low";
         crevenue := 50%float |} ].
Proof. vm_compute. reflexivity. Qed.

(** ** The forecast *)

(** The label of the [i]-th week ahead. *)
Definition aheadLabel (i : nat) : string := "+" ++ Z_toString (Z.of_nat i).

(** X15.  With fewer than two weeks of history [computeForecast] returns
    no row.  Otherwise it returns one row for each week of the horizon,
    labelled [+1], [+2], ... in this order; and no forecast revenue is below
    zero, whatever the history holds. *)
Theorem computeForecast_rows weekly horizonWeeks :
  map fweek (computeForecast weekly horizonWeeks)
  = (if (List.length weekly <? 2)%nat then []
     else map aheadLabel (seq 1 horizonWeeks))
  /\ List.length (computeForecast weekly horizonWeeks)
     = (if (List.length weekly <? 2)%nat then 0%nat else horizonWeeks)
  /\ Forall (fun r => PrimFloat.ltb (frevenue r) zero = false)
            (computeForecast weekly horizonWeeks).
Proof.
  unfold computeForecast.
  destruct (List.length weekly <? 2)%nat.
  - repeat split. constructor.
  - cbv zeta. split; [|split].
    + rewrite map_map. reflexivity.
    + rewrite length_map, length_seq. reflexivity.
    + apply Forall_forall. intros r Hr. apply in_map_iff in Hr.
      destruct Hr as (i & <- & _). simpl frevenue.
      apply Math_max_zero_not_negative.
Qed.

(** A falling history: the line goes below zero and the forecast stays
    at it. *)
Example computeForecast_falling :
  computeForecast [ {| fweek := "2024-W1"; frevenue := 300%float |};
                    {| fweek := "2024-W2"; frevenue := 100%float |} ] 2
  = [ {| fweek := "+1"; frevenue := zero |};
      {| fweek := "+2"; frevenue := zero |} ].
Proof. vm_compute. reflexivity. Qed.

(** ** The pipeline of finished work *)

Lemma filter_isDone_all tasks :
  Forall (fun t => status t = Done) tasks -> filter isDone tasks = tasks.
Proof.
  intros H. apply filter_all. intros t Ht.
  rewrite Forall_forall in H. unfold isDone. rewrite (H t Ht). reflexivity.
Qed.

(** X16.  A task that is Done counts in the weighted pipeline with its
    whole revenue: for tasks that are all Done the weighted pipeline is the
    total revenue, bit for bit. *)
Theorem computeWeightedPipeline_done tasks :
  Forall (fun t => status t = Done) tasks ->
  computeWeightedPipeline tasks = computeTotalRevenue tasks.
Proof.
  intros H. unfold computeWeightedPipeline, computeTotalRevenue.
  rewrite (filter_isDone_all tasks H).
  generalize zero. induction H as [|t l Ht Hl IH]; intros acc; simpl;
    [reflexivity|].
  rewrite Ht. simpl pipelineWeight. rewrite FloatUnit.mul_one. apply IH.
Qed.

Lemma computeWeightedPipeline_done_witness :
  computeWeightedPipeline
    [ doneTask "a" 0x1.999999999999ap-4%float "" "" High;
      doneTask "b" 250%float "" "" Low ]
  = computeTotalRevenue
      [ doneTask "a" 0x1.999999999999ap-4%float "" "" High;
        doneTask "b" 250%float "" "" Low ].
Proof.
  apply computeWeightedPipeline_done. repeat constructor.
Defined.

(** ** The figures of the hook *)

(** X17.  The figures the hook shows for no task are those its formulas
    give for no task: for every state, [metrics] is the record of the
    figures of [logic.ts], and the test for the empty list changes
    nothing. *)
Theorem metrics_formulas s :
  metrics s
  = {| totalRevenue := computeTotalRevenue (tasks s);
       totalTimeTaken := computeTotalTimeTaken (tasks s);
       timeEfficiencyPct := computeTimeEfficiency (tasks s);
       revenuePerHour := computeRevenuePerHour (tasks s);
       averageROI := computeAverageROI (tasks s);
       performanceGrade :=
         computePerformanceGrade (computeAverageROI (tasks s)) |}.
Proof.
  unfold metrics. destruct (tasks s) as [|t l]; [|reflexivity].
  vm_compute. reflexivity.
Qed.

(** ** The list the views show *)

Definition hasCreatedAt (t : Task) : Prop := truthy (createdAt t) = true.

(** Which calls keep every [createdAt]: all but an update whose patch
    carries an empty one. *)
Definition leavesCreatedAt (o : Op) : Prop :=
  match o with
  | OpUpdate _ _ patch =>
      forall c, p_createdAt patch = Some c -> truthy c = true
  | _ => True
  end.

Lemma leavesCreatedAt_respects o :
  leavesCreatedAt o -> respects hasCreatedAt o.
Proof.
  destruct o as [uuid now task|now id0 patch|id0| |]; simpl; try tauto.
  - intros _. apply truthy_toISOString.
  - intros Hp t Ht. unfold hasCreatedAt in *.
    rewrite createdAt_reclamp, createdAt_applyPatch.
    destruct (String.eqb (id t) id0); [|exact Ht].
    destruct (p_createdAt patch) as [c|] eqn:E; simpl; [|exact Ht].
    apply Hp. reflexivity.
Qed.

Section ViewFacts.
Context {engine : Engine} {collator : Collator}.

(** X18.  Starting from a store in which every task has a [createdAt], and
    through every sequence of calls that does not patch in an empty one,
    [derivedSorted] is the tasks with their derived fields, in rank order:
    each row is before the rows that [rankCompare] puts after it. *)
Theorem derivedSorted_in_rank_order ops s :
  Forall leavesCreatedAt ops ->
  everyTask hasCreatedAt s ->
  ordered rankCompare (derivedSorted (run ops s))
  /\ Permutation (derivedSorted (run ops s))
                 (map withDerived (tasks (run ops s))).
Proof.
  intros Ho Hs. split; [|apply sortTasks_perm].
  assert (H : everyTask hasCreatedAt (run ops s)).
  { apply run_everyTask; [|exact Hs].
    apply Forall_forall. intros o Hin. apply leavesCreatedAt_respects.
    rewrite Forall_forall in Ho. apply Ho. exact Hin. }
  destruct H as [H _]. unfold derivedSorted.
  apply sortTasks_ordered.
  apply Forall_forall. intros d Hd. apply in_map_iff in Hd.
  destruct Hd as (t & <- & Ht). split; [apply withDerived_numeric|].
  rewrite Forall_forall in H. apply (H t Ht).
Qed.

End ViewFacts.

Lemma derivedSorted_in_rank_order_witness :
  ordered rankCompare (derivedSorted (run sampleOps emptyStore))
  /\ Permutation (derivedSorted (run sampleOps emptyStore))
                 (map withDerived (tasks (run sampleOps emptyStore)))
  /\ map (fun d => id (task d)) (derivedSorted (run sampleOps emptyStore))
     = ["u1"; "u2"].
Proof.
  destruct (derivedSorted_in_rank_order sampleOps emptyStore) as [O P].
  - repeat constructor; simpl; discriminate.
  - apply everyTask_empty.
  - split; [exact O|]. split; [exact P|]. vm_compute. reflexivity.
Defined.
